(** * Account Balance Calculation API: POST /calculate-balance

    A shallow embedding of [server.ts]: the express-validator chain
    [calculateBalanceValidation], the middleware [handleValidationErrors] and
    the request handler, which folds the transactions over a decimal.js
    [Decimal] inside a [try]/[catch]; then the properties the specification
    states about them.

    The program is thin and rests on three libraries, embedded as follows.
    - JavaScript numbers.  A finite [number] is represented by the decimal
      that JavaScript prints for it (coefficient and power of ten).  The
      program looks at the numbers of a request through [String(n)] only,
      which is embedded in full ([number_toString]).  On the way out,
      [Decimal.toNumber] rounds the balance to the nearest binary64 number
      ([to_number]): to zero from a magnitude of 2^-1075 down, to an
      infinity from 2^1024 - 2^970 up, to 53 significant bits in between.
      [parseFloat] in [isFloat] rounds the same way.
    - decimal.js, in its default configuration: [precision] is 20
      significant digits and the rounding mode is [ROUND_HALF_UP]; [plus]
      and [minus] round their result to that precision.
    - express-validator and validator.js: a standard check is given the
      string form of the field value, and of each item when the value is an
      array; a chain runs each of its checks on all the fields it selects,
      one check after the other, and records every failure.  Two corners of
      the library are embedded as they read and kept out of the theorems by
      the hypothesis [ordinary]: a field is read with lodash's [get], which
      prefers a property of the body named like the whole path, and an
      object with an own [toString] that is falsy cannot be printed, so
      that the check throws.

    The last part of the file goes beyond the specification: what the route
    does with requests outside the declared shape, bounds on the rounding,
    the requests that are answered exactly, and the port the server listens
    on, [Number(process.env.PORT) || 3000] ([server.ts] and [index.ts]). *)

From Stdlib Require Import ZArith QArith Qpower Qabs Qreduction String Ascii List Bool Lia
  Lqa Permutation.
From Stdlib Require Qcanon.
Import ListNotations.

Set Warnings "-register-all".

Local Open Scope string_scope.
Local Open Scope list_scope.
Local Open Scope Z_scope.

(* ------------------------------------------------------------------ *)
(** ** Decimal values *)

(** [coef * 10 ^ expo]. *)
Record Dec : Type := mkDec { coef : Z; expo : Z }.

(** A finite JavaScript number, by the decimal that is printed for it. *)
Definition number : Type := Dec.

(** A decimal.js [Decimal] (finite values). *)
Definition Decimal : Type := Dec.

Definition pow10 (e : Z) : Q := Qpower (inject_Z 10) e.

Definition pow2 (e : Z) : Q := Qpower (inject_Z 2) e.

Definition Qval (d : Dec) : Q := (inject_Z (coef d) * pow10 (expo d))%Q.

Definition of_Z (z : Z) : Dec := mkDec z 0.

(* ------------------------------------------------------------------ *)
(** ** Characters and decimal numerals *)

Definition is_digit (c : ascii) : bool :=
  let n := nat_of_ascii c in (48 <=? n)%nat && (n <=? 57)%nat.

Definition digit_val (c : ascii) : Z := Z.of_nat (nat_of_ascii c - 48).

Definition digits_val (l : list ascii) : Z :=
  fold_left (fun acc c => 10 * acc + digit_val c) l 0.

Fixpoint span_digits (l : list ascii) : list ascii * list ascii :=
  match l with
  | c :: r =>
      if is_digit c then let (ds, rest) := span_digits r in (c :: ds, rest)
      else ([], l)
  | [] => ([], [])
  end.

Definition nonempty {A : Type} (l : list A) : bool :=
  match l with [] => false | _ :: _ => true end.

(** The pieces of a numeral: an optional sign, integer digits, an optional
    point with fraction digits, an optional exponent ([e] or [E], optional
    sign, at least one digit).  Any piece may be empty. *)
Record numeral : Type := mkNumeral {
  nneg : bool;
  nint : list ascii;
  ndot : bool;
  nfrac : list ascii;
  nexp : option Z
}.

Definition scan_sign (l : list ascii) : bool * list ascii :=
  match l with
  | "-"%char :: r => (true, r)
  | "+"%char :: r => (false, r)
  | _ => (false, l)
  end.

Definition is_e (c : ascii) : bool :=
  (Ascii.eqb c "e" || Ascii.eqb c "E")%bool.

Definition scan_exp (l : list ascii) : option (option Z) :=
  match l with
  | [] => Some None
  | c :: r =>
      if is_e c then
        let (neg, r1) := scan_sign r in
        let (ds, rest) := span_digits r1 in
        if nonempty ds && negb (nonempty rest)
        then Some (Some (if neg then - digits_val ds else digits_val ds))
        else None
      else None
  end.

Definition scan (l : list ascii) : option numeral :=
  let (neg, r) := scan_sign l in
  let (i, r1) := span_digits r in
  match r1 with
  | "."%char :: r2 =>
      let (f, r3) := span_digits r2 in
      match scan_exp r3 with
      | Some e => Some (mkNumeral neg i true f e)
      | None => None
      end
  | _ =>
      match scan_exp r1 with
      | Some e => Some (mkNumeral neg i false [] e)
      | None => None
      end
  end.

Definition numeral_has_digit (n : numeral) : bool :=
  nonempty (nint n) || nonempty (nfrac n).

Definition numeral_value (n : numeral) : Dec :=
  let m := digits_val (nint n ++ nfrac n) in
  mkDec (if nneg n then - m else m)
        (match nexp n with Some e => e | None => 0 end - Z.of_nat (length (nfrac n))).

(* ------------------------------------------------------------------ *)
(** ** Number.prototype.toString *)

Definition digit_char (d : Z) : ascii := ascii_of_nat (48 + Z.to_nat d).

(** The decimal digits of [n >= 0], least significant first; [fuel] bounds
    their number. *)
Fixpoint digits_le (fuel : nat) (n : Z) : list ascii :=
  match fuel with
  | O => []
  | S f => if n <? 10 then [digit_char n]
           else digit_char (n mod 10) :: digits_le f (n / 10)
  end.

(** The decimal digits of [n >= 0], most significant first. *)
Definition digit_chars (n : Z) : list ascii :=
  rev (digits_le (S (Z.to_nat (Z.log2 n))) n).

(** The value of a list of digits, least significant first. *)
Fixpoint le_val (l : list ascii) : Z :=
  match l with
  | [] => 0
  | c :: r => digit_val c + 10 * le_val r
  end.

Fixpoint drop_zeros (l : list ascii) : list ascii :=
  match l with
  | c :: r => if Ascii.eqb c "0" then drop_zeros r else l
  | [] => []
  end.

Definition strip_trailing_zeros (l : list ascii) : list ascii :=
  rev (drop_zeros (rev l)).

(** The position [n] of the decimal point in Number::toString: with [k]
    significant digits [s], the value is [s * 10 ^ (n - k)]. *)
Definition position (x : number) : Z :=
  Z.of_nat (length (digit_chars (Z.abs (coef x)))) + expo x.

(** ECMAScript Number::toString, radix 10. *)
Definition number_toString (x : number) : string :=
  if coef x =? 0 then "0" else
  let all := digit_chars (Z.abs (coef x)) in
  let s := strip_trailing_zeros all in
  let k := Z.of_nat (length s) in
  let n := position x in
  let sign := if coef x <? 0 then ["-"%char] else [] in
  let body :=
    if (k <=? n) && (n <=? 21) then
      s ++ repeat "0"%char (Z.to_nat (n - k))
    else if (0 <? n) && (n <=? 21) then
      firstn (Z.to_nat n) s ++ "."%char :: skipn (Z.to_nat n) s
    else if (-6 <? n) && (n <=? 0) then
      "0"%char :: "."%char :: repeat "0"%char (Z.to_nat (- n)) ++ s
    else
      let e := n - 1 in
      let es := (if e <? 0 then "-"%char else "+"%char) :: digit_chars (Z.abs e) in
      match s with
      | [] => []
      | [d] => d :: "e"%char :: es
      | d :: r => d :: "."%char :: r ++ "e"%char :: es
      end
  in string_of_list_ascii (sign ++ body).

(* ------------------------------------------------------------------ *)
(** ** IEEE 754 binary64 *)

(** A JavaScript number. *)
Inductive js_number : Type :=
| NaN
| Infinity (negative : bool)
| Finite (x : number).

(** The integer nearest to [n / d] for [d > 0], a tie going to the even
    one. *)
Definition round_half_even (n d : Z) : Z :=
  let q := n / d in
  let r := n mod d in
  if 2 * r <? d then q
  else if d <? 2 * r then q + 1
  else if Z.even q then q else q + 1.

(** [a / b] divided by [2 ^ e], as a fraction. *)
Definition scale2 (a b e : Z) : Z * Z :=
  if 0 <=? e then (a, b * 2 ^ e) else (a * 2 ^ (- e), b).

(** The largest [l] with [2 ^ l <= a / b], for [a, b > 0]. *)
Definition binade (a b : Z) : Z :=
  let l := Z.log2 a - Z.log2 b in
  let (n, d) := scale2 a b l in
  if d <=? n then l else l - 1.

(** The binary64 number nearest to [a / b > 0], ties to even: [(m, e)]
    stands for [m * 2 ^ e], with [m < 2 ^ 53], and [2 ^ 52 <= m] unless
    [e = -1074] (the subnormal numbers and zero).  An [e] above 971 is out
    of range. *)
Definition nearest (a b : Z) : Z * Z :=
  let e := Z.max (binade a b - 52) (-1074) in
  let (n, d) := scale2 a b e in
  let m := round_half_even n d in
  if m =? 2 ^ 53 then (2 ^ 52, e + 1) else (m, e).

(** The same for [c * 10 ^ s]. *)
Definition nearest_decimal (c s : Z) : Z * Z :=
  if 0 <=? s then nearest (c * 10 ^ s) 1 else nearest c (10 ^ (- s)).

Definition same_double (x y : Z * Z) : bool :=
  (fst x =? fst y) && (snd x =? snd y).

(** The exact decimal expansion of [m * 2 ^ e]. *)
Definition expansion (m e : Z) : Dec :=
  if 0 <=? e then mkDec (m * 2 ^ e) 0 else mkDec (m * 5 ^ (- e)) e.

(** The decimal that JavaScript prints for the double [target]: the one
    with the fewest digits that reads back as [target], and among those the
    closest to it.  It is searched by the number [k] of its digits, among
    the first [k] of the [len] digits of the expansion [M * 10 ^ E] and
    their successor; 17 digits always suffice. *)
Fixpoint shortest (fuel : nat) (k : Z) (M E len : Z) (target : Z * Z) : Dec :=
  match fuel with
  | O => mkDec M E
  | S f =>
      if len <=? k then mkDec M E
      else
        let t := len - k in
        let lo := M / 10 ^ t in
        let hi := lo + 1 in
        let ok c := same_double (nearest_decimal c (E + t)) target in
        let below := M - lo * 10 ^ t in
        let above := hi * 10 ^ t - M in
        if ok lo then
          if ok hi then
            if below <? above then mkDec lo (E + t)
            else if above <? below then mkDec hi (E + t)
            else if Z.even lo then mkDec lo (E + t) else mkDec hi (E + t)
          else mkDec lo (E + t)
        else if ok hi then mkDec hi (E + t)
        else shortest f (k + 1) M E len target
  end.

Fixpoint strip10 (fuel : nat) (c e : Z) : Dec :=
  match fuel with
  | O => mkDec c e
  | S f =>
      if (e <? 0) && (c mod 10 =? 0) then strip10 f (c / 10) (e + 1)
      else mkDec c e
  end.

(** One representation for each value: an integer has exponent 0, and the
    coefficient of any other value does not end in 0. *)
Definition canonical (d : Dec) : Dec :=
  if 0 <=? expo d then mkDec (coef d * 10 ^ expo d) 0
  else strip10 (Z.to_nat (- expo d)) (coef d) (expo d).

(** The JavaScript number nearest to the rational [q]. *)
Definition to_number (q : Q) : js_number :=
  let r := Qred q in
  let a := Z.abs (Qnum r) in
  let b := Zpos (Qden r) in
  if a =? 0 then Finite (of_Z 0)
  else
    let (m, e) := nearest a b in
    if m =? 0 then Finite (of_Z 0)
    else if 971 <? e then Infinity (Qnum r <? 0)
    else
      let x := expansion m e in
      let len := Z.of_nat (length (digit_chars (coef x))) in
      let s := canonical (shortest 17 1 (coef x) (expo x) len (m, e)) in
      Finite (mkDec (Z.sgn (Qnum r) * coef s) (expo s)).

(** [x >= y]. *)
Definition number_geb (x y : js_number) : bool :=
  match x, y with
  | NaN, _ | _, NaN => false
  | Infinity false, _ => true
  | _, Infinity true => true
  | Infinity true, _ => false
  | _, Infinity false => false
  | Finite a, Finite b => Qle_bool (Qval b) (Qval a)
  end.

(** The magnitude from which a value rounds to zero: [2 ^ -1075]. *)
Definition tiny : Q := 1 # (2 ^ 1075).

(** [n < 0] and [n >= 0]. *)
Definition negative (n : js_number) : Prop :=
  match n with
  | NaN => False
  | Infinity neg => neg = true
  | Finite x => (Qval x < 0)%Q
  end.

Definition not_negative (n : js_number) : Prop :=
  match n with
  | NaN => False
  | Infinity neg => neg = false
  | Finite x => (0 <= Qval x)%Q
  end.

(* ------------------------------------------------------------------ *)
(** ** validator.js checks (on strings) *)

(** [isNumeric(str)]: an optional sign, then digits, or optional digits, a
    point and at least one digit; no exponent. *)
Definition isNumeric (s : string) : bool :=
  match scan (list_ascii_of_string s) with
  | Some n =>
      match nexp n with
      | None => if ndot n then nonempty (nfrac n) else nonempty (nint n)
      | Some _ => false
      end
  | None => false
  end.

(** [parseFloat(str)] on the strings of the float pattern: the binary64
    number nearest to the numeral.  The strings outside the pattern read as
    [NaN] here; [isFloat] refuses them whatever their prefix reads. *)
Definition parseFloat (s : string) : js_number :=
  match scan (list_ascii_of_string s) with
  | Some n => if numeral_has_digit n then to_number (Qval (numeral_value n)) else NaN
  | None => NaN
  end.

(** [isFloat(str, { min })]: the float pattern, and [parseFloat(str) >= min]. *)
Definition isFloat (min : Z) (s : string) : bool :=
  match scan (list_ascii_of_string s) with
  | Some _ => number_geb (parseFloat s) (Finite (of_Z min))
  | None => false
  end.

Definition isIn (options : list string) (s : string) : bool :=
  existsb (String.eqb s) options.

Definition isEmpty (s : string) : bool := String.eqb s "".

(* ------------------------------------------------------------------ *)
(** ** JavaScript values of a parsed JSON body *)

Inductive jsval : Type :=
| JUndefined
| JNull
| JBool (b : bool)
| JNum (n : number)
| JStr (s : string)
| JArr (items : list jsval)
| JObj (fields : list (string * jsval)).

(** The properties of a parsed object, each name once. *)
Fixpoint lookup (k : string) (fs : list (string * jsval)) : jsval :=
  match fs with
  | (k', v) :: r => if String.eqb k k' then v else lookup k r
  | [] => JUndefined
  end.

(** Property read [v.k] for the property names the program uses; they exist
    on plain objects only. *)
Definition get_prop (v : jsval) (k : string) : jsval :=
  match v with
  | JObj fs => lookup k fs
  | _ => JUndefined
  end.

Fixpoint join (sep : string) (l : list string) : string :=
  match l with
  | [] => ""
  | [x] => x
  | x :: r => (x ++ sep ++ join sep r)%string
  end.

Fixpoint has_key (k : string) (fs : list (string * jsval)) : bool :=
  match fs with
  | (k', _) :: r => String.eqb k k' || has_key k r
  | [] => false
  end.

(** ECMAScript [ToString], where it returns (see [String_throws]). *)
Fixpoint js_String (v : jsval) : string :=
  match v with
  | JUndefined => "undefined"
  | JNull => "null"
  | JBool true => "true"
  | JBool false => "false"
  | JNum n => number_toString n
  | JStr s => s
  | JArr l =>
      join "," (map (fun e => match e with
                              | JUndefined | JNull => ""
                              | _ => js_String e
                              end) l)
  | JObj _ => "[object Object]"
  end.

(** [String(v)] throws a [TypeError] when it meets an object whose own
    [toString] is no function (no value of a parsed body is one) and which
    has no other: the object itself, or an item of an array, which is
    printed through its items. *)
Fixpoint String_throws (v : jsval) : bool :=
  match v with
  | JObj fs => has_key "toString" fs
  | JArr l => existsb String_throws l
  | _ => false
  end.

(** [ToBoolean] of a value. *)
Definition truthy (v : jsval) : bool :=
  match v with
  | JUndefined | JNull => false
  | JBool b => b
  | JNum n => negb (coef n =? 0)
  | JStr s => negb (String.eqb s "")
  | JArr _ | JObj _ => true
  end.

Definition is_array (v : jsval) : bool :=
  match v with JArr _ => true | _ => false end.

Definition is_object (v : jsval) : bool :=
  match v with JObj _ => true | _ => false end.

(* ------------------------------------------------------------------ *)
(** ** decimal.js *)

(** [Decimal.precision], default configuration. *)
Definition precision : Z := 20.

Definition dadd (x y : Dec) : Dec :=
  let e := Z.min (expo x) (expo y) in
  mkDec (coef x * 10 ^ (expo x - e) + coef y * 10 ^ (expo y - e)) e.

Definition dsub (x y : Dec) : Dec :=
  let e := Z.min (expo x) (expo y) in
  mkDec (coef x * 10 ^ (expo x - e) - coef y * 10 ^ (expo y - e)) e.

(** The least [k' >= k] with [c < 10 ^ (precision + k')], searched upwards. *)
Fixpoint excess_digits (fuel : nat) (k : Z) (c : Z) : Z :=
  match fuel with
  | O => k
  | S f => if c <? 10 ^ (precision + k) then k else excess_digits f (k + 1) c
  end.

(** Rounding to [precision] significant digits, [ROUND_HALF_UP] (to the
    nearest, ties away from zero). *)
Definition finalise (d : Dec) : Dec :=
  let a := Z.abs (coef d) in
  if a <? 10 ^ precision then d
  else
    let k := excess_digits (Z.to_nat (Z.log2 a)) 1 a in
    mkDec (Z.sgn (coef d) * ((a + 5 * 10 ^ (k - 1)) / 10 ^ k)) (expo d + k).

Definition plus (x y : Decimal) : Decimal := finalise (dadd x y).
Definition minus (x y : Decimal) : Decimal := finalise (dsub x y).

(** [balance.toNumber()]: the JavaScript number nearest to the balance. *)
Definition toNumber (d : Decimal) : js_number := to_number (Qval d).

(* ------------------------------------------------------------------ *)
(** ** Exceptions *)

Inductive thrown : Type :=
| ErrorObject (message : string)   (* an instance of [Error] *)
| Thrown (v : jsval).              (* any other thrown value *)

Inductive result (A : Type) : Type :=
| Return (a : A)
| Throw (e : thrown).
Arguments Return {A} a.
Arguments Throw {A} e.

Definition bind {A B : Type} (m : result A) (f : A -> result B) : result B :=
  match m with
  | Return a => f a
  | Throw e => Throw e
  end.

Notation "x <- m ;; k" := (bind m (fun x => k))
  (at level 61, m at next level, right associativity).

(** The text that follows [Invalid argument: ] in the message of a
    [DecimalError]: the argument as [String] prints it; the constructor has
    removed the sign of a string by then. *)
Definition argument_text (v : jsval) : string :=
  match v with
  | JStr s => string_of_list_ascii (snd (scan_sign (list_ascii_of_string s)))
  | _ => js_String v
  end.

(** [new Decimal(v)]: a number keeps its value (decimal.js reads it through
    [String(v)], see [new_Decimal_number_string]); a string must hold a
    decimal literal (sign, digits with an optional fraction, optional
    exponent); anything else is an error: a [DecimalError], or the
    [TypeError] of [String(v)] when the message cannot be written.

    Left out, as arguments that no request brings to the constructor, since
    [isNumeric] refuses them: the other literals that decimal.js reads in a
    string ([Infinity], [NaN], hexadecimal, binary and octal literals), and
    objects that pass for an instance of [Decimal].  They throw here. *)
Definition new_Decimal (v : jsval) : result Decimal :=
  let invalid :=
    if String_throws v
    then Throw (ErrorObject "Cannot convert object to primitive value")
    else Throw (ErrorObject ("[DecimalError] Invalid argument: " ++ argument_text v)%string) in
  match v with
  | JNum n => Return n
  | JStr s =>
      match scan (list_ascii_of_string s) with
      | Some n =>
          if nonempty (nint n) || (ndot n && nonempty (nfrac n))
          then Return (numeral_value n) else invalid
      | None => invalid
      end
  | _ => invalid
  end.

(* ------------------------------------------------------------------ *)
(** ** express-validator *)

(** The string a standard validator is given (express-validator's
    [toString]), where it returns: [null] and [undefined] read as the empty
    string, an object as [[object Object]], any other value through
    [String(v)], so that a number is checked in the form JavaScript prints
    it and a string as it is. *)
Definition validator_toString (v : jsval) : string :=
  match v with
  | JUndefined | JNull => ""
  | _ => js_String v
  end.

(** Where it throws: an array is printed by its own [toString()]; an object
    whose own [toString] is truthy, or absent, is printed by
    [Object.prototype.toString]; one whose own [toString] is falsy goes to
    [isNaN(value)], which throws a [TypeError]. *)
Definition toString_throws (v : jsval) : bool :=
  match v with
  | JObj fs => has_key "toString" fs && negb (truthy (lookup "toString" fs))
  | JArr _ => String_throws v
  | _ => false
  end.

(** The values a standard validator checks for one field: the items of an
    array one by one, any other value itself.  An empty array has no item
    to check, and passes every standard validator. *)
Definition standard_values (v : jsval) : list jsval :=
  match v with
  | JArr l => l
  | _ => [v]
  end.

Inductive validator : Type :=
| IsNumeric
| IsArray
| NotEmpty
| IsIn (options : list string)
| IsFloat (min : Z).

Definition standard_check (c : validator) (s : string) : bool :=
  match c with
  | IsNumeric => isNumeric s
  | NotEmpty => negb (isEmpty s)
  | IsIn options => isIn options s
  | IsFloat min => isFloat min s
  | IsArray => true
  end.

(** The values of a field that a validator refuses.  [isArray] is a custom
    validator on the raw value; the others are standard validators. *)
Definition refused (c : validator) (v : jsval) : list jsval :=
  match c with
  | IsArray => if is_array v then [] else [v]
  | _ => filter (fun x => negb (standard_check c (validator_toString x)))
                (standard_values v)
  end.

(** A validator with the message set by the [withMessage] that follows it. *)
Record rule : Type := mkRule { check : validator; withMessage : string }.

(** [body(name)] and [body(name.*.prop)]. *)
Inductive selector : Type :=
| Field (name : string)
| Each (name : string) (prop : string).

Record ValidationChain : Type := mkChain { fields : selector; rules : list rule }.

Definition nat_string (n : nat) : string :=
  string_of_list_ascii (digit_chars (Z.of_nat n)).

(** The value of a selected field is read by lodash's [get(body, path)]: a
    property of the body named like the whole path comes first, the path is
    followed otherwise, which gives [followed]. *)
Definition get_path (body : jsval) (path : string) (followed : jsval) : jsval :=
  match body with
  | JObj fs => if has_key path fs then lookup path fs else followed
  | _ => followed
  end.

(** The instance [(path, value)] of [name.*.prop] below one element [e] of
    the wildcard: the property is selected whatever [e] is, and is
    [undefined] where [e] has none. *)
Definition select_below (body : jsval) (path : string) (prop : string) (e : jsval)
  : string * jsval :=
  let p := (path ++ "." ++ prop)%string in
  (p, get_path body p (get_prop e prop)).

Fixpoint select_items (body : jsval) (name prop : string) (i : nat) (l : list jsval)
  : list (string * jsval) :=
  match l with
  | [] => []
  | e :: r =>
      select_below body (name ++ "[" ++ nat_string i ++ "]")%string prop e
        :: select_items body name prop (S i) r
  end.

(** The path of the property [k] of an object, as [reconstructFieldPath]
    writes it: an index, a quoted name when it holds a point, a plain name
    otherwise. *)
Definition key_path (name k : string) : string :=
  let l := list_ascii_of_string k in
  if existsb (Ascii.eqb ".") l
  then (name ++ "[" ++ String (ascii_of_nat 34) k ++ String (ascii_of_nat 34) "]")%string
  else if nonempty l && forallb is_digit l then (name ++ "[" ++ k ++ "]")%string
  else (name ++ "." ++ k)%string.

(** Field selection: the instances of a selector in the request body.  The
    wildcard stands for the indices of an array and for the names of an
    object (there the values are those of names that read as one path
    segment); a primitive, [null] and [undefined] have no instance. *)
Definition select (sel : selector) (body : jsval) : list (string * jsval) :=
  match sel with
  | Field name => [(name, get_prop body name)]
  | Each name prop =>
      match get_prop body name with
      | JArr l => select_items body name prop 0 l
      | JObj fs =>
          map (fun kv => select_below body (key_path name (fst kv)) prop (snd kv)) fs
      | _ => []
      end
  end.

Record ValidationError : Type := mkError {
  location : string;
  path : string;
  msg : string;
  value : jsval
}.

(** One rule on one field instance: an error for each refused value. *)
Definition run_rule (p : string) (v : jsval) (r : rule) : list ValidationError :=
  map (mkError "body" p (withMessage r)) (refused (check r) v).

(** A chain runs its rules one after the other, each on every instance;
    nothing bails out. *)
Definition run_chain (c : ValidationChain) (body : jsval) : list ValidationError :=
  flat_map (fun r => flat_map (fun pv => run_rule (fst pv) (snd pv) r)
                              (select (fields c) body))
           (rules c).

Definition is_standard (c : validator) : bool :=
  match c with IsArray => false | _ => true end.

(** A standard validator throws on a value that cannot be printed. *)
Definition chain_throws (c : ValidationChain) (body : jsval) : bool :=
  existsb (fun r => is_standard (check r)) (rules c)
  && existsb (fun pv => existsb toString_throws (standard_values (snd pv)))
             (select (fields c) body).

(** [s] between double quotes. *)
Definition quoted (s : string) : string :=
  let dq := String (ascii_of_nat 34) EmptyString in (dq ++ s ++ dq)%string.

Definition calculateBalanceValidation : list ValidationChain :=
  [ mkChain (Field "initialBalance")
      [ mkRule IsNumeric "initialBalance must be a number" ];
    mkChain (Field "transactions")
      [ mkRule IsArray "transactions must be an array";
        mkRule NotEmpty "transactions array cannot be empty" ];
    mkChain (Each "transactions" "type")
      [ mkRule (IsIn ["credit"; "debit"])
               ("Transaction type must be either " ++ quoted "credit"
                  ++ " or " ++ quoted "debit")%string ];
    mkChain (Each "transactions" "amount")
      [ mkRule IsNumeric "Transaction amount must be a number";
        mkRule (IsFloat 0) "Transaction amount must be a non-negative number" ] ].

(* ------------------------------------------------------------------ *)
(** ** The Express route *)

(** [finalBalance] is a JavaScript number; [res.json] writes an infinite one
    as [null]. *)
Record CalculateBalanceResponse : Type := mkBalance {
  finalBalance : js_number;
  status : Z
}.

Record ErrorResponse : Type := mkErrorResponse {
  error : string;
  message : option string;
  details : option (list ValidationError)
}.

Inductive ResponseBody : Type :=
| BalanceBody (r : CalculateBalanceResponse)
| ErrorBody (e : ErrorResponse).

(** [res.status(code).json(body)]; [res.json(body)] answers 200. *)
Record Response : Type := mkResponse { statusCode : Z; json : ResponseBody }.

(** The request: its parsed body and the errors the validation chains have
    recorded on it so far ([validationResult(req)]). *)
Record Request : Type := mkRequest { body : jsval; errors : list ValidationError }.

Inductive outcome : Type :=
| Next (req : Request)
| Respond (res : Response)
| Fail (e : thrown).              (* [next(err)] *)

Definition middleware : Type := Request -> outcome.

(** A validation chain used as middleware records its errors and calls
    [next()]; when a check throws, the error goes to [next]. *)
Definition chain_middleware (c : ValidationChain) : middleware :=
  fun req =>
    if chain_throws c (body req)
    then Fail (ErrorObject "Cannot convert object to primitive value")
    else Next (mkRequest (body req) (errors req ++ run_chain c (body req))).

Definition handleValidationErrors : middleware :=
  fun req =>
    if nonempty (errors req) then
      Respond (mkResponse 400
        (ErrorBody (mkErrorResponse "Validation failed" None (Some (errors req)))))
    else Next req.

(** [for (const transaction of transactions)]: arrays and strings are
    iterable. *)
Definition iterate (v : jsval) : result (list jsval) :=
  match v with
  | JArr l => Return l
  | JStr s => Return (map (fun c => JStr (String c EmptyString)) (list_ascii_of_string s))
  | _ => Throw (ErrorObject "transactions is not iterable")
  end.

(** Object destructuring [const { p1, p2 } = source], where [source]
    evaluates to [v]: a [TypeError] on [null] and [undefined] (with the
    message of V8), the two properties otherwise. *)
Definition destructure (p1 p2 : string) (source : string) (v : jsval)
  : result (jsval * jsval) :=
  match v with
  | JUndefined | JNull =>
      Throw (ErrorObject ("Cannot destructure property '" ++ p1 ++ "' of '" ++ source
                            ++ "' as it is " ++ js_String v ++ ".")%string)
  | _ => Return (get_prop v p1, get_prop v p2)
  end.

Definition strict_eq_string (v : jsval) (s : string) : bool :=
  match v with
  | JStr s' => String.eqb s' s
  | _ => false
  end.

(** The body of the loop, on the running [balance]. *)
Definition process (balance : Decimal) (transaction : jsval) : result Decimal :=
  ta <- destructure "type" "amount" "transaction" transaction ;;
  amountDecimal <- new_Decimal (snd ta) ;;
  if strict_eq_string (fst ta) "credit" then Return (plus balance amountDecimal)
  else if strict_eq_string (fst ta) "debit" then Return (minus balance amountDecimal)
  else Return balance.

Fixpoint process_all (balance : Decimal) (transactions : list jsval) : result Decimal :=
  match transactions with
  | [] => Return balance
  | t :: r => b <- process balance t ;; process_all b r
  end.

(** The [try] block of the handler. *)
Definition calculate (reqBody : jsval) : result CalculateBalanceResponse :=
  it <- destructure "initialBalance" "transactions" "req.body" reqBody ;;
  let initialBalance := fst it in
  let transactions := snd it in
  balance <- new_Decimal initialBalance ;;
  items <- iterate transactions ;;
  balance <- process_all balance items ;;
  let finalBalance := toNumber balance in
  let status := if number_geb finalBalance (Finite (of_Z 0)) then 1 else 2 in
  Return (mkBalance finalBalance status).

(** The handler: [try { ... res.json(response) } catch (error) { ... 500 }]. *)
Definition handler : middleware :=
  fun req =>
    match calculate (body req) with
    | Return response => Respond (mkResponse 200 (BalanceBody response))
    | Throw error =>
        let errorMessage :=
          match error with
          | ErrorObject m => m
          | Thrown _ => "Unknown error"
          end in
        Respond (mkResponse 500
          (ErrorBody (mkErrorResponse "Internal server error" (Some errorMessage) None)))
    end.

(** Express runs the stack of a route in order until one answers.  After
    [next(err)] the rest of the stack is skipped: the route does not answer
    (Express's own error handler does, with status 500 and a page that is
    no JSON). *)
Fixpoint dispatch (stack : list middleware) (req : Request) : option Response :=
  match stack with
  | [] => None
  | m :: rest =>
      match m req with
      | Next req' => dispatch rest req'
      | Respond res => Some res
      | Fail _ => None
      end
  end.

(** [app.post('/calculate-balance', calculateBalanceValidation,
    handleValidationErrors, h)]. *)
Definition route (h : middleware) : list middleware :=
  map chain_middleware calculateBalanceValidation ++ [handleValidationErrors; h].

Definition post_calculate_balance (reqBody : jsval) : option Response :=
  dispatch (route handler) (mkRequest reqBody []).

(* ------------------------------------------------------------------ *)
(** ** Notions of the specification *)

(** The errors that the four chains record. *)
Definition recorded_errors (reqBody : jsval) : list ValidationError :=
  flat_map (fun c => run_chain c reqBody) calculateBalanceValidation.

Definition validation_throws (reqBody : jsval) : bool :=
  existsb (fun c => chain_throws c reqBody) calculateBalanceValidation.

(** [validationResult(req).array()] once the four chains have run, unless
    one of them has thrown. *)
Definition validation_errors (reqBody : jsval) : result (list ValidationError) :=
  if validation_throws reqBody
  then Throw (ErrorObject "Cannot convert object to primitive value")
  else Return (recorded_errors reqBody).

Definition initialBalance_of (reqBody : jsval) : jsval :=
  get_prop reqBody "initialBalance".

Definition transactions_of (reqBody : jsval) : list jsval :=
  match get_prop reqBody "transactions" with
  | JArr l => l
  | _ => []
  end.

Definition type_of (t : jsval) : jsval := get_prop t "type".
Definition amount_of (t : jsval) : jsval := get_prop t "amount".

Definition is_credit (t : jsval) : bool := strict_eq_string (type_of t) "credit".
Definition is_debit (t : jsval) : bool := strict_eq_string (type_of t) "debit".

(** A request body with the two properties of [CalculateBalanceRequest]. *)
Definition request (initialBalance : jsval) (transactions : list jsval) : jsval :=
  JObj [("initialBalance", initialBalance); ("transactions", JArr transactions)].

Definition transaction (type : string) (amount : jsval) : jsval :=
  JObj [("type", JStr type); ("amount", amount)].

(** The exact value of a number or numeric string ([0] for anything that
    [new Decimal] refuses). *)
Definition decimal_value (v : jsval) : Q :=
  match new_Decimal v with
  | Return d => Qval d
  | Throw _ => 0%Q
  end.

Definition sum_amounts (p : jsval -> bool) (l : list jsval) : Q :=
  fold_right (fun t acc => if p t then (decimal_value (amount_of t) + acc)%Q else acc)
             0%Q l.

Definition credits (reqBody : jsval) : Q := sum_amounts is_credit (transactions_of reqBody).
Definition debits (reqBody : jsval) : Q := sum_amounts is_debit (transactions_of reqBody).

(** What a transaction contributes to the balance in exact arithmetic. *)
Definition signed_amount (t : jsval) : Q :=
  if is_credit t then decimal_value (amount_of t)
  else if is_debit t then (- decimal_value (amount_of t))%Q
  else 0%Q.

Definition net (l : list jsval) : Q :=
  fold_right (fun t acc => (signed_amount t + acc)%Q) 0%Q l.

(** The exact running balances after each transaction. *)
Fixpoint running_balances (b : Q) (l : list jsval) : list Q :=
  match l with
  | [] => []
  | t :: r => (b + signed_amount t)%Q :: running_balances (b + signed_amount t)%Q r
  end.

(** [q] can be written with at most [precision] significant digits. *)
Definition fits (q : Q) : Prop :=
  exists c e : Z, Z.abs c < 10 ^ precision /\ (q == inject_Z c * pow10 e)%Q.

(** No running balance needs more than [precision] significant digits. *)
Definition within_precision (b : Q) (l : list jsval) : Prop :=
  Forall fits (running_balances b l).

(** [new Decimal] accepts the amount of the transaction. *)
Definition convertible (t : jsval) : bool :=
  match new_Decimal (amount_of t) with
  | Return _ => true
  | Throw _ => false
  end.

(** The numbers that [Number.prototype.toString] prints without exponent. *)
Definition plain_position (x : number) : bool :=
  (coef x =? 0) || ((-6 <? position x) && (position x <=? 21)).

(** The same numbers by their value: zero, and those of magnitude at least
    1e-6 and below 1e21. *)
Definition in_plain_range (x : number) : bool :=
  Qeq_bool (Qval x) 0
  || (Qle_bool (pow10 (-6)) (Qabs (Qval x))
      && negb (Qle_bool (pow10 21) (Qabs (Qval x)))).

(** Numeric, as the validator has it: a number in that range, or a string
    holding a plain decimal numeral (optional sign, digits, optional
    fraction, no exponent). *)
Definition plain_numeric (v : jsval) : bool :=
  match v with
  | JNum x => in_plain_range x
  | JStr s => isNumeric s
  | _ => false
  end.

(** Not negative: by its value for a number, as [isFloat] reads it for a
    string, whose value is rounded to binary64 first: a negative numeral
    of magnitude at most [2 ^ -1075] reads as [-0], which is not below 0. *)
Definition non_negative (v : jsval) : bool :=
  match v with
  | JNum x => Qle_bool 0 (Qval x)
  | JStr s => isFloat 0 s
  | _ => false
  end.

Definition valid_transaction (t : jsval) : bool :=
  (is_credit t || is_debit t)
  && plain_numeric (amount_of t) && non_negative (amount_of t).

(** Property names that change how a library reads a value: an own
    [toString] or [valueOf] changes how an object is printed, and a property
    of the body named like a path is read in place of the field at that
    path ([get_path]). *)
Definition printing_name (k : string) : bool :=
  String.eqb k "toString" || String.eqb k "valueOf".

Definition path_like (k : string) : bool :=
  existsb (fun c => Ascii.eqb c "[" || Ascii.eqb c ".") (list_ascii_of_string k).

Fixpoint plain_data (v : jsval) : bool :=
  match v with
  | JArr l => forallb plain_data l
  | JObj fs =>
      (fix all (fs : list (string * jsval)) : bool :=
         match fs with
         | [] => true
         | (k, x) :: r => negb (printing_name k) && plain_data x && all r
         end) fs
  | _ => true
  end.

(** Bodies in which every value is read as it stands. *)
Definition ordinary (reqBody : jsval) : bool :=
  plain_data reqBody
  && match reqBody with
     | JObj fs => forallb (fun kv => negb (path_like (fst kv))) fs
     | _ => true
     end.

(** A valid request, as the validator has it: an ordinary body, numeric
    [initialBalance], non-empty list of transactions, each an object of type
    credit or debit with a non-negative numeric amount. *)
Definition valid_request (reqBody : jsval) : bool :=
  ordinary reqBody
  && plain_numeric (initialBalance_of reqBody)
  && match get_prop reqBody "transactions" with
     | JArr (t :: l) => forallb valid_transaction (t :: l)
     | _ => false
     end.

(** The violations of those rules, one disjunct per rule. *)
Definition bad_transaction (t : jsval) : bool :=
  negb (is_credit t || is_debit t)
  || negb (plain_numeric (amount_of t))
  || negb (non_negative (amount_of t)).

Definition violation (reqBody : jsval) : bool :=
  negb (plain_numeric (initialBalance_of reqBody))
  || match get_prop reqBody "transactions" with
     | JArr (t :: l) => existsb bad_transaction (t :: l)
     | _ => true
     end.

Definition not_array (v : jsval) : bool := negb (is_array v).

(** Bodies in which no property read by the validator holds an array. *)
Definition shaped_transaction (t : jsval) : bool :=
  not_array (type_of t) && not_array (amount_of t).

Definition well_shaped (reqBody : jsval) : bool :=
  not_array (initialBalance_of reqBody)
  && forallb shaped_transaction (transactions_of reqBody).

(** The violations as the claim words them: any JavaScript number counts as
    numeric, and the sign is that of the value. *)
Definition numeric_as_claimed (v : jsval) : bool :=
  match v with
  | JNum _ => true
  | JStr s => isNumeric s
  | _ => false
  end.

Definition negative_value (v : jsval) : bool :=
  negb (Qle_bool 0 (decimal_value v)).

Definition claimed_bad_transaction (t : jsval) : bool :=
  negb (is_credit t || is_debit t)
  || negb (numeric_as_claimed (amount_of t))
  || negative_value (amount_of t).

Definition claimed_violation (reqBody : jsval) : bool :=
  negb (numeric_as_claimed (initialBalance_of reqBody))
  || match get_prop reqBody "transactions" with
     | JArr (t :: l) => existsb claimed_bad_transaction (t :: l)
     | _ => true
     end.

(** The errors of one rule of a wildcard chain over the items of an array. *)
Definition item_errors (body : jsval) (name prop : string) (r : rule) (i : nat)
  (l : list jsval) : list ValidationError :=
  flat_map (fun pv => run_rule (fst pv) (snd pv) r) (select_items body name prop i l).

(** The characters [Number.prototype.toString] prints. *)
Definition num_char (c : ascii) : bool :=
  is_digit c || Ascii.eqb c "." || Ascii.eqb c "e" || Ascii.eqb c "+" || Ascii.eqb c "-".

(** The rules of the two wildcard chains. *)
Definition type_rule : rule :=
  mkRule (IsIn ["credit"; "debit"])
         ("Transaction type must be either " ++ quoted "credit"
            ++ " or " ++ quoted "debit")%string.

Definition numeric_rule : rule :=
  mkRule IsNumeric "Transaction amount must be a number".

Definition float_rule : rule :=
  mkRule (IsFloat 0) "Transaction amount must be a non-negative number".

(** The path of a property of the [i]-th transaction, as express-validator
    writes it. *)
Definition item_path (i : nat) (prop : string) : string :=
  (("transactions" ++ "[" ++ nat_string i ++ "]") ++ "." ++ prop)%string.

(** The fields of a request that break a rule of the specification: a
    non-numeric [initialBalance], a [transactions] that is not a non-empty
    array, and for each transaction a [type] that is not credit or debit and
    an [amount] that is not a non-negative numeric value. *)
Fixpoint violated_items (i : nat) (l : list jsval) : list string :=
  match l with
  | [] => []
  | t :: r =>
      (if is_credit t || is_debit t then [] else [item_path i "type"])
      ++ (if plain_numeric (amount_of t) && non_negative (amount_of t)
          then [] else [item_path i "amount"])
      ++ violated_items (S i) r
  end.

Definition violated_fields (reqBody : jsval) : list string :=
  (if plain_numeric (initialBalance_of reqBody) then [] else ["initialBalance"])
  ++ match get_prop reqBody "transactions" with
     | JArr (t :: l) => violated_items 0 (t :: l)
     | _ => ["transactions"]
     end.

(** The same fields when the rules are read as the claims word them. *)
Fixpoint claimed_violated_items (i : nat) (l : list jsval) : list string :=
  match l with
  | [] => []
  | t :: r =>
      (if is_credit t || is_debit t then [] else [item_path i "type"])
      ++ (if numeric_as_claimed (amount_of t) && negb (negative_value (amount_of t))
          then [] else [item_path i "amount"])
      ++ claimed_violated_items (S i) r
  end.

Definition claimed_violated_fields (reqBody : jsval) : list string :=
  (if numeric_as_claimed (initialBalance_of reqBody) then [] else ["initialBalance"])
  ++ match get_prop reqBody "transactions" with
     | JArr (t :: l) => claimed_violated_items 0 (t :: l)
     | _ => ["transactions"]
     end.

(** The arguments that [new Decimal] refuses whatever they hold. *)
Definition no_decimal (v : jsval) : bool :=
  match v with
  | JUndefined | JNull | JBool _ | JArr _ => true
  | JNum _ | JStr _ | JObj _ => false
  end.

(** No amount has a value below zero. *)
Definition no_negative_amount (reqBody : jsval) : bool :=
  forallb (fun t => Qle_bool 0 (decimal_value (amount_of t))) (transactions_of reqBody).

(** The numeral [0.0...01] with [zeros] zeros after the point, behind
    [sign]: the value [10 ^ - (zeros + 1)]. *)
Definition small_numeral (sign : string) (zeros : nat) : string :=
  (sign ++ "0." ++ string_of_list_ascii (repeat "0"%char zeros) ++ "1")%string.

(** The pointwise inverse of a transaction: same amount, credit and debit
    swapped. *)
Definition inverse (t : jsval) : jsval :=
  JObj [("type", if is_credit t then JStr "debit"
                 else if is_debit t then JStr "credit"
                 else type_of t);
        ("amount", amount_of t)].

Definition is200 (res : option Response) (r : CalculateBalanceResponse) : Prop :=
  res = Some (mkResponse 200 (BalanceBody r)).

Definition is400 (res : option Response) (ds : list ValidationError) : Prop :=
  res = Some (mkResponse 400
                (ErrorBody (mkErrorResponse "Validation failed" None (Some ds)))).

Definition is500 (res : option Response) (m : string) : Prop :=
  res = Some (mkResponse 500
                (ErrorBody (mkErrorResponse "Internal server error" (Some m) None))).

(** The status code of an answer and the [error] tag of its body, if any. *)
Definition code_of (res : option Response) : option Z :=
  option_map statusCode res.

Definition error_of (res : option Response) : option string :=
  match res with
  | Some (mkResponse _ (ErrorBody e)) => Some (error e)
  | _ => None
  end.

(* ------------------------------------------------------------------ *)
(** ** Requests beyond the declared shape *)


(** A [type] that the validator lets through although it is no string: a
    non-empty array whose items are all ['credit'] or ['debit']. *)
Definition kind_list (v : jsval) : bool :=
  match v with
  | JArr (x :: l) =>
      forallb (fun y => strict_eq_string y "credit" || strict_eq_string y "debit") (x :: l)
  | _ => false
  end.

Definition unread_transaction (t : jsval) : bool :=
  is_object t && plain_data t && kind_list (type_of t)
  && plain_numeric (amount_of t) && non_negative (amount_of t).

(** [new Decimal] accepts [initialBalance] and the amount of every
    transaction. *)
Definition computable (reqBody : jsval) : bool :=
  match new_Decimal (initialBalance_of reqBody) with
  | Return _ => true
  | Throw _ => false
  end
  && forallb convertible (transactions_of reqBody).

(** The message of the [DecimalError] that [new Decimal(v)] throws. *)
Definition invalid_argument (v : jsval) : string :=
  ("[DecimalError] Invalid argument: " ++ argument_text v)%string.

(** [q] is a whole multiple of [10 ^ e]. *)
Definition on_grid (e : Z) (q : Q) : Prop :=
  exists c : Z, (q == inject_Z c * pow10 e)%Q.

(** The sum of the magnitudes of the amounts of all the transactions. *)
Definition magnitudes (l : list jsval) : Q :=
  fold_right (fun t acc => (Qabs (decimal_value (amount_of t)) + acc)%Q) 0%Q l.

Definition turnover (reqBody : jsval) : Q := magnitudes (transactions_of reqBody).

(** The relative error of one rounding to [precision] digits is at most
    [5e-20], half a unit of the last digit kept. *)
Definition unit_roundoff : Q := (inject_Z 5 * pow10 (- precision))%Q.

(* ------------------------------------------------------------------ *)
(** ** The port: [Number(process.env.PORT) || 3000] *)

(** [StrWhiteSpaceChar], among the code units below 256: TAB, LF, VT, FF,
    CR, SP and NBSP. *)
Definition is_white_space (c : ascii) : bool :=
  let n := nat_of_ascii c in
  ((9 <=? n)%nat && (n <=? 13)%nat) || (n =? 32)%nat || (n =? 160)%nat.

Fixpoint drop_white_space (l : list ascii) : list ascii :=
  match l with
  | c :: r => if is_white_space c then drop_white_space r else l
  | [] => []
  end.

Definition trim (l : list ascii) : list ascii :=
  rev (drop_white_space (rev (drop_white_space l))).

(** The value of a hexadecimal digit. *)
Definition hex_val (c : ascii) : option Z :=
  let n := nat_of_ascii c in
  if is_digit c then Some (digit_val c)
  else if (97 <=? n)%nat && (n <=? 102)%nat then Some (Z.of_nat (n - 87))
  else if (65 <=? n)%nat && (n <=? 70)%nat then Some (Z.of_nat (n - 55))
  else None.

(** The value of a list of digits in [radix], continuing from [acc]. *)
Fixpoint radix_val (radix : Z) (acc : Z) (l : list ascii) : option Z :=
  match l with
  | [] => Some acc
  | c :: r =>
      match hex_val c with
      | Some d => if d <? radix then radix_val radix (radix * acc + d) r else None
      | None => None
      end
  end.

(** [NonDecimalIntegerLiteral]: [0x], [0o] or [0b] (in either case) and at
    least one digit of the radix. *)
Definition non_decimal (l : list ascii) : option Z :=
  match l with
  | "0"%char :: p :: d :: r =>
      if Ascii.eqb p "x" || Ascii.eqb p "X" then radix_val 16 0 (d :: r)
      else if Ascii.eqb p "o" || Ascii.eqb p "O" then radix_val 8 0 (d :: r)
      else if Ascii.eqb p "b" || Ascii.eqb p "B" then radix_val 2 0 (d :: r)
      else None
  | _ => None
  end.

(** [StringToNumber]: white space is trimmed; the empty string is [0]; then
    a non-decimal integer literal, or an optional sign and either
    [Infinity] or a decimal literal with at least one digit, whose value is
    rounded to binary64; anything else is [NaN]. *)
Definition StringToNumber (s : string) : js_number :=
  let l := trim (list_ascii_of_string s) in
  match l with
  | [] => Finite (of_Z 0)
  | _ :: _ =>
      match non_decimal l with
      | Some n => to_number (Qval (of_Z n))
      | None =>
          if String.eqb (string_of_list_ascii (snd (scan_sign l))) "Infinity"
          then Infinity (fst (scan_sign l))
          else
            match scan l with
            | Some n => if numeral_has_digit n then to_number (Qval (numeral_value n)) else NaN
            | None => NaN
            end
      end
  end.

(** [Number(v)] for an environment variable, a string or [undefined]. *)
Definition Number_of (v : option string) : js_number :=
  match v with
  | Some s => StringToNumber s
  | None => NaN
  end.

Definition ToBoolean (n : js_number) : bool :=
  match n with
  | NaN => false
  | Infinity _ => true
  | Finite x => negb (coef x =? 0)
  end.

(** [const PORT = Number(process.env.PORT) || 3000]. *)
Definition PORT (env_PORT : option string) : js_number :=
  let n := Number_of env_PORT in
  if ToBoolean n then n else Finite (of_Z 3000).

(** [String(n)], as a template literal has it. *)
Definition Number_toString (n : js_number) : string :=
  match n with
  | NaN => "NaN"
  | Infinity false => "Infinity"
  | Infinity true => "-Infinity"
  | Finite x => number_toString x
  end.

(** [swaggerOptions.definition.servers[0].url]. *)
Definition server_url (env_PORT : option string) : string :=
  ("http://localhost:" ++ Number_toString (PORT env_PORT))%string.

(** What the callback of [app.listen] logs. *)
Definition listening_message (env_PORT : option string) : string :=
  ("Server is running on port " ++ Number_toString (PORT env_PORT))%string.

(** The characters that occur in some numeric string: white space, digits,
    signs, the point, and the letters of the exponent, of the hexadecimal
    digits, of the radix prefixes and of [Infinity]. *)
Definition literal_char (c : ascii) : bool :=
  is_white_space c || is_digit c
  || existsb (Ascii.eqb c) (list_ascii_of_string "+-.eExXoObBaAcCdDfFInity").

(** The string [s] between the characters [w1] and [w2]. *)
Definition padded (w1 : list ascii) (s : string) (w2 : list ascii) : string :=
  string_of_list_ascii (w1 ++ list_ascii_of_string s ++ w2).

(** Two transactions of the same kind whose amounts have the same value. *)
Definition same_transaction (t t' : jsval) : Prop :=
  is_credit t = is_credit t' /\
  (decimal_value (amount_of t) == decimal_value (amount_of t'))%Q.

(* ------------------------------------------------------------------ *)
(** ** Decimal arithmetic *)

Lemma pow10_nonzero (e : Z) : ~ (pow10 e == 0)%Q.
Proof.
  unfold pow10. intro H.
  apply Qpower_not_0 in H; [exact H|]. discriminate.
Qed.

Lemma pow10_add (a b : Z) : (pow10 (a + b) == pow10 a * pow10 b)%Q.
Proof. unfold pow10. apply Qpower_plus. discriminate. Qed.

Lemma pow10_nonneg (e : Z) : 0 <= e -> (pow10 e == inject_Z (10 ^ e))%Q.
Proof. intro H. unfold pow10. symmetry. now apply Zpower_Qpower. Qed.

Lemma pow10_shift (e m : Z) :
  m <= e -> (inject_Z (10 ^ (e - m)) * pow10 m == pow10 e)%Q.
Proof.
  intro H. rewrite <- pow10_nonneg by lia. rewrite <- pow10_add.
  now replace (e - m + m) with e by lia.
Qed.

Lemma pow10_pos (e : Z) : (0 < pow10 e)%Q.
Proof. unfold pow10. apply Qpower_0_lt. reflexivity. Qed.

Lemma pow10_le (a b : Z) : a <= b -> (pow10 a <= pow10 b)%Q.
Proof. intro H. unfold pow10. apply Qpower_le_compat_l; [exact H | discriminate]. Qed.

Lemma Qval_scaled (c e m : Z) :
  m <= e -> (inject_Z (c * 10 ^ (e - m)) * pow10 m == inject_Z c * pow10 e)%Q.
Proof.
  intro H. rewrite inject_Z_mult, <- Qmult_assoc. now rewrite pow10_shift.
Qed.

Lemma Qval_pow (c j e : Z) :
  0 <= j -> (Qval (mkDec (c * 10 ^ j) e) == Qval (mkDec c (e + j)))%Q.
Proof.
  intro H. unfold Qval. cbn [coef expo].
  rewrite <- (Qval_scaled c (e + j) e) by lia.
  now replace (e + j - e) with j by lia.
Qed.

Lemma Qval_dadd (x y : Dec) : (Qval (dadd x y) == Qval x + Qval y)%Q.
Proof.
  unfold Qval, dadd; simpl.
  rewrite inject_Z_plus, Qmult_plus_distr_l.
  rewrite !Qval_scaled by lia. reflexivity.
Qed.

Lemma Qval_dsub (x y : Dec) : (Qval (dsub x y) == Qval x - Qval y)%Q.
Proof.
  unfold Qval, dsub; simpl.
  unfold Z.sub at 1. rewrite inject_Z_plus, inject_Z_opp, Qmult_plus_distr_l.
  rewrite <- inject_Z_opp, <- Z.mul_opp_l, !Qval_scaled by lia.
  rewrite inject_Z_opp. unfold Qminus. ring.
Qed.

Lemma Qabs_Qval (x : Dec) : (Qabs (Qval x) == inject_Z (Z.abs (coef x)) * pow10 (expo x))%Q.
Proof.
  unfold Qval. rewrite Qabs_Qmult.
  rewrite (Qabs_pos (pow10 (expo x))).
  - reflexivity.
  - unfold pow10. apply Qpower_0_le. discriminate.
Qed.

Lemma Qle_bool_false (x y : Q) : Qle_bool x y = false <-> (y < x)%Q.
Proof.
  split; intro H.
  - apply Qnot_le_lt. intro Hle. apply Qle_bool_iff in Hle. congruence.
  - destruct (Qle_bool x y) eqn:E; [|reflexivity].
    apply Qle_bool_iff in E. exfalso. now apply (Qlt_not_le _ _ H).
Qed.

Lemma excess_digits_spec (fuel : nat) :
  forall k c, 10 ^ (precision + k - 1) <= c ->
    k <= excess_digits fuel k c /\
    10 ^ (precision + excess_digits fuel k c - 1) <= c.
Proof.
  induction fuel as [|fuel IH]; intros k c H; cbn [excess_digits].
  - split; [lia | exact H].
  - destruct (c <? 10 ^ (precision + k)) eqn:E.
    + split; [lia | exact H].
    + apply Z.ltb_ge in E.
      destruct (IH (k + 1) c) as [H1 H2].
      * now replace (precision + (k + 1) - 1) with (precision + k) by lia.
      * split; [lia | exact H2].
Qed.

(** Scaling both sides of an equation between decimals to integers. *)
Lemma Qval_eq_scaled (c0 e0 c e : Z) :
  (inject_Z c0 * pow10 e0 == inject_Z c * pow10 e)%Q ->
  e0 <= e -> c0 = c * 10 ^ (e - e0).
Proof.
  intros H Hle.
  rewrite <- (Qval_scaled c e e0 Hle) in H.
  apply Qmult_inj_r in H; [|apply pow10_nonzero].
  apply inject_Z_injective. exact H.
Qed.

Lemma fits_divisible (c0 e0 k : Z) :
  fits (inject_Z c0 * pow10 e0) ->
  1 <= k -> 10 ^ (precision + k - 1) <= Z.abs c0 ->
  exists m, 0 <= m /\ Z.abs c0 = m * 10 ^ k.
Proof.
  intros (c & e & Hc & Heq) Hk Hlow.
  assert (Hp : 0 < 10 ^ precision) by (apply Z.pow_pos_nonneg; unfold precision; lia).
  destruct (Z_le_gt_dec e0 e) as [Hle|Hgt].
  - pose proof (Qval_eq_scaled _ _ _ _ Heq Hle) as Hc0.
    set (j := e - e0) in *.
    assert (Hj : 0 <= j) by (unfold j; lia).
    assert (Habs : Z.abs c0 = Z.abs c * 10 ^ j).
    { rewrite Hc0, Z.abs_mul. f_equal. apply Z.abs_eq. apply Z.pow_nonneg. lia. }
    assert (Hkj : k <= j).
    { assert (Hlt : 10 ^ (precision + k - 1) < 10 ^ (precision + j)).
      { eapply Z.le_lt_trans; [exact Hlow|]. rewrite Habs, Z.pow_add_r by (unfold precision; lia).
        apply Z.mul_lt_mono_pos_r; [apply Z.pow_pos_nonneg; lia | exact Hc]. }
      apply Z.pow_lt_mono_r_iff in Hlt; unfold precision in *; lia. }
    exists (Z.abs c * 10 ^ (j - k)). split.
    + apply Z.mul_nonneg_nonneg; [apply Z.abs_nonneg | apply Z.pow_nonneg; lia].
    + rewrite Habs, <- Z.mul_assoc, <- Z.pow_add_r by lia.
      now replace (j - k + k) with j by lia.
  - symmetry in Heq.
    assert (Hle : e <= e0) by lia.
    pose proof (Qval_eq_scaled _ _ _ _ Heq Hle) as Hc'.
    exfalso.
    assert (Z.abs c0 <= Z.abs c).
    { rewrite Hc', Z.abs_mul.
      rewrite <- (Z.mul_1_r (Z.abs c0)) at 1.
      apply Z.mul_le_mono_nonneg_l; [apply Z.abs_nonneg|].
      rewrite Z.abs_eq by (apply Z.pow_nonneg; lia).
      assert (0 < 10 ^ (e0 - e)) by (apply Z.pow_pos_nonneg; lia). lia. }
    assert (10 ^ precision <= 10 ^ (precision + k - 1))
      by (apply Z.pow_le_mono_r; unfold precision; lia).
    lia.
Qed.

(** Rounding leaves alone what already fits the precision. *)
Lemma finalise_exact (d : Dec) : fits (Qval d) -> (Qval (finalise d) == Qval d)%Q.
Proof.
  intro Hfit. unfold finalise.
  destruct (Z.abs (coef d) <? 10 ^ precision) eqn:E; [reflexivity|].
  apply Z.ltb_ge in E.
  set (a := Z.abs (coef d)) in *.
  destruct (excess_digits_spec (Z.to_nat (Z.log2 a)) 1 a) as [Hk Hlow].
  { now replace (precision + 1 - 1) with precision by lia. }
  set (k := excess_digits (Z.to_nat (Z.log2 a)) 1 a) in *.
  destruct (fits_divisible (coef d) (expo d) k Hfit Hk Hlow) as (m & Hm & Ha).
  fold a in Ha.
  assert (Hpk : 0 < 10 ^ k) by (apply Z.pow_pos_nonneg; lia).
  assert (Hdiv : (a + 5 * 10 ^ (k - 1)) / 10 ^ k = m).
  { rewrite Ha. rewrite Z.div_add_l by lia.
    rewrite Z.div_small; [lia|].
    split; [apply Z.mul_nonneg_nonneg; [lia | apply Z.pow_nonneg; lia]|].
    replace (10 ^ k) with (10 * 10 ^ (k - 1)).
    - assert (0 < 10 ^ (k - 1)) by (apply Z.pow_pos_nonneg; lia). lia.
    - rewrite <- Z.pow_succ_r by lia. f_equal. lia. }
  rewrite Hdiv. unfold Qval; simpl.
  rewrite <- (Qval_scaled (Z.sgn (coef d) * m) (expo d + k) (expo d)) by lia.
  replace (expo d + k - expo d) with k by lia.
  rewrite <- Z.mul_assoc, <- Ha. unfold a.
  rewrite (Z.mul_comm (Z.sgn (coef d))), Z.abs_sgn. reflexivity.
Qed.

Lemma Qval_plus (x y : Decimal) :
  fits (Qval x + Qval y) -> (Qval (plus x y) == Qval x + Qval y)%Q.
Proof.
  intro H. unfold plus. rewrite finalise_exact; [apply Qval_dadd|].
  destruct H as (c & e & Hc & He). exists c, e. split; [exact Hc|].
  now rewrite Qval_dadd.
Qed.

Lemma Qval_minus (x y : Decimal) :
  fits (Qval x - Qval y) -> (Qval (minus x y) == Qval x - Qval y)%Q.
Proof.
  intro H. unfold minus. rewrite finalise_exact; [apply Qval_dsub|].
  destruct H as (c & e & Hc & He). exists c, e. split; [exact Hc|].
  now rewrite Qval_dsub.
Qed.

(* ------------------------------------------------------------------ *)
(** ** Lists *)

Lemma forallb_firstn {A : Type} (f : A -> bool) (n : nat) (l : list A) :
  forallb f l = true -> forallb f (firstn n l) = true.
Proof.
  revert l. induction n as [|n IH]; intros [|x l]; cbn [firstn forallb]; auto.
  intro H. apply andb_prop in H as [-> H]. now apply IH.
Qed.

Lemma forallb_skipn {A : Type} (f : A -> bool) (n : nat) (l : list A) :
  forallb f l = true -> forallb f (skipn n l) = true.
Proof.
  revert l. induction n as [|n IH]; intros [|x l]; cbn [skipn forallb]; auto.
  intro H. apply andb_prop in H as [_ H]. now apply IH.
Qed.

Lemma forallb_rev {A : Type} (f : A -> bool) (l : list A) :
  forallb f l = true -> forallb f (rev l) = true.
Proof.
  induction l as [|x l IH]; cbn [rev forallb]; [auto|].
  intro H. apply andb_prop in H as [Hx H].
  rewrite forallb_app, (IH H). cbn [forallb]. now rewrite Hx.
Qed.

Lemma forallb_repeat {A : Type} (f : A -> bool) (x : A) (n : nat) :
  f x = true -> forallb f (repeat x n) = true.
Proof. intro H. induction n as [|n IH]; cbn [repeat forallb]; [auto | now rewrite H]. Qed.

Lemma forallb_Permutation {A : Type} (f : A -> bool) (l l' : list A) :
  Permutation l l' -> forallb f l = forallb f l'.
Proof.
  induction 1 as [|t l l' _ IH|t u l|l1 l2 l3 _ IH1 _ IH2]; cbn [forallb].
  - reflexivity.
  - now rewrite IH.
  - destruct (f t), (f u); reflexivity.
  - congruence.
Qed.

Lemma firstn_nonempty {A : Type} (n : nat) (l : list A) :
  (0 < n)%nat -> l <> [] -> firstn n l <> [].
Proof. destruct n, l; cbn; try lia; congruence. Qed.

Lemma nonempty_true {A : Type} (l : list A) : l <> [] -> nonempty l = true.
Proof. destruct l; [congruence | reflexivity]. Qed.

Lemma app_not_nil_l {A : Type} (l1 l2 : list A) : l1 <> [] -> l1 ++ l2 <> [].
Proof. destruct l1; [congruence | discriminate]. Qed.

Lemma app_not_nil_r {A : Type} (l1 l2 : list A) : l2 <> [] -> l1 ++ l2 <> [].
Proof. destruct l1, l2; try congruence; discriminate. Qed.

(* ------------------------------------------------------------------ *)
(** ** Printing digits *)

Lemma digit_char_spec (d : Z) :
  0 <= d < 10 -> digit_val (digit_char d) = d /\ is_digit (digit_char d) = true.
Proof.
  intro H.
  assert (E : d = 0 \/ d = 1 \/ d = 2 \/ d = 3 \/ d = 4 \/ d = 5 \/ d = 6
              \/ d = 7 \/ d = 8 \/ d = 9) by lia.
  repeat (destruct E as [->|E]; [split; reflexivity|]). subst. split; reflexivity.
Qed.

Lemma digits_val_snoc (l : list ascii) (c : ascii) :
  digits_val (l ++ [c]) = 10 * digits_val l + digit_val c.
Proof. unfold digits_val. now rewrite fold_left_app. Qed.

Lemma digits_val_rev (l : list ascii) : digits_val (rev l) = le_val l.
Proof.
  induction l as [|c l IH]; [reflexivity|].
  cbn [rev le_val]. rewrite digits_val_snoc, IH. lia.
Qed.

Lemma digits_le_spec (fuel : nat) :
  forall n, 0 <= n < 2 ^ Z.of_nat fuel ->
    le_val (digits_le fuel n) = n /\
    forallb is_digit (digits_le fuel n) = true /\
    (0 < n -> 10 ^ (Z.of_nat (length (digits_le fuel n)) - 1) <= n
              < 10 ^ Z.of_nat (length (digits_le fuel n))).
Proof.
  induction fuel as [|fuel IH]; intros n Hn.
  - assert (n = 0) as -> by (cbn in Hn; lia). repeat split; lia.
  - cbn [digits_le]. destruct (n <? 10) eqn:E.
    + apply Z.ltb_lt in E. destruct (digit_char_spec n) as [Hv Hd]; [lia|].
      cbn [le_val forallb length]. rewrite Hv, Hd. repeat split; try lia.
    + apply Z.ltb_ge in E.
      assert (Hq : 0 <= n / 10 < 2 ^ Z.of_nat fuel).
      { split; [apply Z.div_pos; lia|].
        apply Z.div_lt_upper_bound; [lia|].
        rewrite Nat2Z.inj_succ, Z.pow_succ_r in Hn by lia. lia. }
      destruct (IH _ Hq) as (Hv & Hd & Hl).
      destruct (digit_char_spec (n mod 10)) as [Hv0 Hd0];
        [apply Z.mod_pos_bound; lia|].
      cbn [le_val forallb length]. rewrite Hv, Hd, Hv0, Hd0.
      split; [|split; [reflexivity|]].
      * rewrite (Z.div_mod n 10) at 3 by lia. lia.
      * intros _. destruct Hl as [Hlo Hhi].
        { apply Z.div_str_pos. lia. }
        set (k := Z.of_nat (length (digits_le fuel (n / 10)))) in *.
        assert (Hk : 1 <= k).
        { unfold k. destruct (digits_le fuel (n / 10)) eqn:El; [|cbn [length]; lia].
          cbn in Hhi. assert (0 < n / 10) by (apply Z.div_str_pos; lia). lia. }
        rewrite Nat2Z.inj_succ. fold k.
        replace (Z.succ k - 1) with (Z.succ (k - 1)) by lia.
        rewrite !Z.pow_succ_r by lia.
        pose proof (Z.div_mod n 10 ltac:(lia)) as Hdm.
        pose proof (Z.mod_pos_bound n 10 ltac:(lia)) as Hm.
        split; lia.
Qed.

Lemma log2_fuel (n : Z) : 0 <= n -> 0 <= n < 2 ^ Z.of_nat (S (Z.to_nat (Z.log2 n))).
Proof.
  intro H. split; [exact H|].
  rewrite Nat2Z.inj_succ, Z2Nat.id by apply Z.log2_nonneg.
  destruct (Z.eq_dec n 0) as [->|Hn]; [reflexivity|].
  apply Z.log2_spec. lia.
Qed.

Lemma digit_chars_spec (n : Z) :
  0 <= n ->
  digits_val (digit_chars n) = n /\
  forallb is_digit (digit_chars n) = true /\
  (0 < n -> 10 ^ (Z.of_nat (length (digit_chars n)) - 1) <= n
            < 10 ^ Z.of_nat (length (digit_chars n))).
Proof.
  intro H. unfold digit_chars.
  destruct (digits_le_spec _ n (log2_fuel n H)) as (Hv & Hd & Hl).
  rewrite digits_val_rev, length_rev. repeat split; try assumption.
  - rewrite forallb_forall in *. intros c Hc. apply Hd. now apply in_rev.
  - now apply Hl.
  - now apply Hl.
Qed.

Lemma fold_digits_shift (l : list ascii) (acc : Z) :
  fold_left (fun a c => 10 * a + digit_val c) l acc
  = acc * 10 ^ Z.of_nat (length l) + digits_val l.
Proof.
  revert acc. induction l as [|c l IH]; intro acc.
  - cbn. lia.
  - unfold digits_val. cbn [fold_left length]. rewrite IH, (IH (10 * 0 + digit_val c)).
    rewrite Nat2Z.inj_succ, Z.pow_succ_r by lia. lia.
Qed.

Lemma digits_val_app (l1 l2 : list ascii) :
  digits_val (l1 ++ l2) = digits_val l1 * 10 ^ Z.of_nat (length l2) + digits_val l2.
Proof. unfold digits_val at 1. rewrite fold_left_app. apply fold_digits_shift. Qed.

Lemma digits_val_zeros (m : nat) : digits_val (repeat "0"%char m) = 0.
Proof.
  induction m as [|m IH]; [reflexivity|].
  change (repeat "0"%char (S m)) with (["0"%char] ++ repeat "0"%char m).
  rewrite digits_val_app, IH. reflexivity.
Qed.

Lemma forallb_drop_zeros (f : ascii -> bool) (l : list ascii) :
  forallb f l = true -> forallb f (drop_zeros l) = true.
Proof.
  induction l as [|c l IH]; cbn [drop_zeros forallb]; [auto|].
  intro H. destruct (Ascii.eqb c "0").
  - apply andb_prop in H as [_ H]. now apply IH.
  - exact H.
Qed.

Lemma le_val_drop_zeros (l : list ascii) :
  (length (drop_zeros l) <= length l)%nat /\
  le_val l = le_val (drop_zeros l)
             * 10 ^ (Z.of_nat (length l) - Z.of_nat (length (drop_zeros l))).
Proof.
  induction l as [|c l [IHl IHv]]; cbn [drop_zeros].
  - split; [lia | reflexivity].
  - destruct (Ascii.eqb c "0") eqn:E.
    + apply Ascii.eqb_eq in E. subst c. cbn [le_val length]. split; [lia|].
      rewrite IHv at 1. change (digit_val "0") with 0.
      replace (Z.of_nat (S (length l)) - Z.of_nat (length (drop_zeros l)))
        with (Z.succ (Z.of_nat (length l) - Z.of_nat (length (drop_zeros l)))) by lia.
      rewrite Z.pow_succ_r by lia. lia.
    + split; [lia|]. rewrite Z.sub_diag. cbn [Z.pow]. lia.
Qed.

(** The significant digits [s] of a positive coefficient. *)
Lemma significant_digits (a : Z) :
  0 < a ->
  let all := digit_chars a in
  let s := strip_trailing_zeros all in
  s <> [] /\ forallb is_digit s = true /\
  (length s <= length all)%nat /\
  a = digits_val s * 10 ^ (Z.of_nat (length all) - Z.of_nat (length s)).
Proof.
  intros Ha all s.
  destruct (digits_le_spec _ a (log2_fuel a (Z.lt_le_incl _ _ Ha))) as (Hv & Hd & _).
  set (le := digits_le (S (Z.to_nat (Z.log2 a))) a) in *.
  assert (Hs : s = rev (drop_zeros le)).
  { unfold s, strip_trailing_zeros, all, digit_chars. fold le. now rewrite rev_involutive. }
  destruct (le_val_drop_zeros le) as [Hlen Hval].
  assert (Hall : length all = length le) by (unfold all, digit_chars; apply length_rev).
  rewrite Hs, Hall, length_rev, digits_val_rev.
  repeat split.
  - intro E. apply (f_equal (@rev ascii)) in E. rewrite rev_involutive in E.
    change (rev []) with (@nil ascii) in E.
    rewrite E, Hv in Hval. cbn [le_val] in Hval. lia.
  - apply forallb_rev. now apply forallb_drop_zeros.
  - exact Hlen.
  - now rewrite <- Hval, Hv.
Qed.

Lemma digit_chars_num (n : Z) : 0 <= n -> forallb num_char (digit_chars n) = true.
Proof.
  intro H. destruct (digit_chars_spec n H) as (_ & Hd & _).
  rewrite forallb_forall in *. intros c Hc.
  unfold num_char. now rewrite (Hd c Hc).
Qed.

Lemma number_toString_chars (x : number) :
  forallb num_char (list_ascii_of_string (number_toString x)) = true.
Proof.
  unfold number_toString, position.
  destruct (coef x =? 0); [reflexivity|].
  rewrite list_ascii_of_string_of_list_ascii.
  set (all := digit_chars (Z.abs (coef x))).
  assert (Hall : forallb num_char all = true) by apply digit_chars_num, Z.abs_nonneg.
  assert (Hs : forallb num_char (strip_trailing_zeros all) = true).
  { unfold strip_trailing_zeros.
    now apply forallb_rev, forallb_drop_zeros, forallb_rev. }
  set (s := strip_trailing_zeros all) in *.
  set (n := Z.of_nat (length all) + expo x).
  rewrite forallb_app. apply andb_true_intro. split.
  { now destruct (coef x <? 0). }
  destruct ((Z.of_nat (length s) <=? n) && (n <=? 21)).
  { rewrite forallb_app, Hs. now apply forallb_repeat. }
  destruct ((0 <? n) && (n <=? 21)).
  { rewrite forallb_app. cbn [forallb].
    now rewrite (forallb_firstn _ _ _ Hs), (forallb_skipn _ _ _ Hs). }
  destruct ((-6 <? n) && (n <=? 0)).
  { cbn [forallb]. rewrite forallb_app, Hs.
    now rewrite forallb_repeat. }
  assert (He : forallb num_char
                 ((if n - 1 <? 0 then "-"%char else "+"%char)
                    :: digit_chars (Z.abs (n - 1))) = true).
  { cbn [forallb]. rewrite digit_chars_num by apply Z.abs_nonneg.
    now destruct (n - 1 <? 0). }
  destruct s as [|d [|d' r]]; [reflexivity| |].
  - cbn [forallb] in Hs. apply andb_prop in Hs as [Hd _].
    change (forallb num_char ([d; "e"%char] ++
              (if n - 1 <? 0 then "-"%char else "+"%char)
                :: digit_chars (Z.abs (n - 1))) = true).
    rewrite forallb_app, He. cbn [forallb]. now rewrite Hd.
  - change (forallb num_char ([d; "."%char] ++ (d' :: r) ++ ["e"%char] ++
              (if n - 1 <? 0 then "-"%char else "+"%char)
                :: digit_chars (Z.abs (n - 1))) = true).
    change (forallb num_char ([d] ++ d' :: r) = true) in Hs.
    rewrite forallb_app in Hs. apply andb_prop in Hs as [Hd Hr].
    rewrite !forallb_app, He, Hr. cbn [forallb] in *.
    apply andb_prop in Hd as [-> _]. reflexivity.
Qed.

(** A number never prints as one of the two transaction types. *)
Lemma number_not_kind (x : number) :
  isIn ["credit"; "debit"] (number_toString x) = false.
Proof.
  pose proof (number_toString_chars x) as H.
  unfold isIn. cbn [existsb].
  destruct (String.eqb (number_toString x) "credit") eqn:E1.
  { apply String.eqb_eq in E1. rewrite E1 in H. discriminate H. }
  destruct (String.eqb (number_toString x) "debit") eqn:E2.
  { apply String.eqb_eq in E2. rewrite E2 in H. discriminate H. }
  reflexivity.
Qed.

(** The value lies between the powers of ten around its position. *)
Lemma magnitude_bounds (x : number) :
  coef x <> 0 ->
  (pow10 (position x - 1) <= Qabs (Qval x))%Q /\
  (Qabs (Qval x) < pow10 (position x))%Q.
Proof.
  intro H0. unfold position.
  destruct (digit_chars_spec (Z.abs (coef x)) (Z.abs_nonneg _)) as (_ & _ & Hb).
  destruct Hb as [Hlo Hhi]; [lia|].
  set (L := Z.of_nat (length (digit_chars (Z.abs (coef x))))) in *.
  assert (HL : 1 <= L).
  { destruct (Z_le_gt_dec 1 L); [assumption|].
    assert (L <= 0) by lia.
    assert (10 ^ L <= 10 ^ 0) by (apply Z.pow_le_mono_r; lia).
    change (10 ^ 0) with 1 in *. lia. }
  rewrite Qabs_Qval. split.
  - replace (L + expo x - 1) with (expo x + (L - 1)) by lia.
    rewrite pow10_add, Qmult_comm, (pow10_nonneg (L - 1)) by lia.
    apply Qmult_le_compat_r; [|apply Qlt_le_weak, pow10_pos].
    now rewrite <- Zle_Qle.
  - replace (L + expo x) with (expo x + L) by lia.
    rewrite pow10_add, (Qmult_comm (pow10 (expo x))), (pow10_nonneg L) by lia.
    apply Qmult_lt_compat_r; [apply pow10_pos|].
    now rewrite <- Zlt_Qlt.
Qed.

(** The numbers printed without exponent are zero and those of magnitude at
    least 1e-6 and below 1e21. *)
Lemma plain_position_range (x : number) : plain_position x = in_plain_range x.
Proof.
  unfold plain_position, in_plain_range.
  destruct (coef x =? 0) eqn:E0.
  - apply Z.eqb_eq in E0. cbn [orb].
    assert (H : (Qval x == 0)%Q) by (unfold Qval; rewrite E0; ring).
    now rewrite (Qeq_eq_bool _ _ H).
  - apply Z.eqb_neq in E0. cbn [orb].
    assert (Hnz : Qeq_bool (Qval x) 0 = false).
    { destruct (Qeq_bool (Qval x) 0) eqn:E; [|reflexivity].
      apply Qeq_bool_eq in E. unfold Qval in E.
      apply Qmult_integral in E as [E|E].
      - unfold Qeq in E. cbn in E. lia.
      - exfalso. now apply (pow10_nonzero (expo x)). }
    rewrite Hnz. cbn [orb].
    destruct (magnitude_bounds x E0) as [Hlo Hhi].
    set (n := position x) in *. set (q := Qabs (Qval x)) in *.
    destruct (-6 <? n) eqn:E1; cbn [andb].
    + apply Z.ltb_lt in E1.
      assert (H6 : Qle_bool (pow10 (-6)) q = true).
      { apply Qle_bool_iff. eapply Qle_trans; [|exact Hlo]. apply pow10_le. lia. }
      rewrite H6. cbn [andb].
      destruct (n <=? 21) eqn:E2.
      * apply Z.leb_le in E2. symmetry. apply negb_true_iff, Qle_bool_false.
        eapply Qlt_le_trans; [exact Hhi|]. now apply pow10_le.
      * apply Z.leb_gt in E2. symmetry. apply negb_false_iff, Qle_bool_iff.
        eapply Qle_trans; [|exact Hlo]. apply pow10_le. lia.
    + apply Z.ltb_ge in E1. symmetry. apply andb_false_iff. left.
      apply Qle_bool_false. eapply Qlt_le_trans; [exact Hhi|]. now apply pow10_le.
Qed.

(* ------------------------------------------------------------------ *)
(** ** Rounding to binary64 *)

Lemma to_number_Qeq (q q' : Q) : (q == q')%Q -> to_number q = to_number q'.
Proof.
  intro H. unfold to_number. now rewrite (Qred_complete q q' H).
Qed.

Lemma round_half_even_zero (n d : Z) :
  0 <= n -> 2 * n <= d -> 0 < d -> round_half_even n d = 0.
Proof.
  intros Hn Hd Hp. unfold round_half_even.
  assert (n < d) by lia.
  rewrite (Z.div_small n d), (Z.mod_small n d) by lia.
  destruct (2 * n <? d) eqn:E1; [reflexivity|].
  destruct (d <? 2 * n) eqn:E2; [lia|reflexivity].
Qed.

Lemma round_half_even_pos (n d : Z) :
  0 <= n -> d < 2 * n -> 0 < d -> 0 < round_half_even n d.
Proof.
  intros Hn Hd Hp. unfold round_half_even.
  pose proof (Z.div_pos n d Hn Hp) as Hq.
  pose proof (Z.mod_pos_bound n d Hp) as Hr.
  pose proof (Z.div_mod n d ltac:(lia)) as Hdm.
  assert (Hcase : 0 < n / d \/ n / d = 0) by lia.
  destruct Hcase as [Hc|Hc].
  - destruct (2 * (n mod d) <? d); [lia|].
    destruct (d <? 2 * (n mod d)); [lia|].
    destruct (Z.even (n / d)); lia.
  - rewrite Hc in *.
    assert (n mod d = n) by lia.
    destruct (2 * (n mod d) <? d) eqn:E1; [lia|].
    destruct (d <? 2 * (n mod d)) eqn:E2; [lia|lia].
Qed.

Lemma scale2_cases (a b e : Z) :
  (0 <= e /\ scale2 a b e = (a, b * 2 ^ e)) \/
  (e < 0 /\ scale2 a b e = (a * 2 ^ (- e), b)).
Proof.
  unfold scale2. destruct (0 <=? e) eqn:E; [left|right]; split; (lia || reflexivity).
Qed.

Lemma binade_lower (a b : Z) :
  0 < a -> 0 < b ->
  (0 <= binade a b -> b * 2 ^ binade a b <= a) /\
  (binade a b < 0 -> b <= a * 2 ^ (- binade a b)).
Proof.
  intros Ha Hb. unfold binade.
  set (A := Z.log2 a). set (B := Z.log2 b).
  destruct (Z.log2_spec a Ha) as [HA1 HA2]. fold A in HA1, HA2.
  destruct (Z.log2_spec b Hb) as [HB1 HB2]. fold B in HB1, HB2.
  assert (HA0 : 0 <= A) by apply Z.log2_nonneg.
  assert (HB0 : 0 <= B) by apply Z.log2_nonneg.
  unfold Z.succ in *. clearbody A B.
  destruct (scale2_cases a b (A - B)) as [[He Hs]|[He Hs]]; rewrite Hs.
  - destruct (b * 2 ^ (A - B) <=? a) eqn:E.
    + split; intro; lia.
    + split; intro Hl.
      * assert (b * 2 ^ (A - B - 1) < 2 ^ (B + 1) * 2 ^ (A - B - 1)).
        { apply Z.mul_lt_mono_pos_r; [apply Z.pow_pos_nonneg; lia|exact HB2]. }
        rewrite <- Z.pow_add_r in H by lia.
        replace (B + 1 + (A - B - 1)) with A in H by lia. unfold Z.succ in *. lia.
      * assert (A = B) by lia. subst A.
        replace (- (B - B - 1)) with 1 by lia.
        rewrite Z.pow_1_r.
        replace (2 ^ (B + 1)) with (2 * 2 ^ B) in HB2
          by (rewrite Z.pow_add_r by lia; rewrite Z.pow_1_r; lia).
        lia.
  - destruct (b <=? a * 2 ^ (- (A - B))) eqn:E.
    + split; intro; lia.
    + split; intro Hl; [lia|].
      replace (- (A - B - 1)) with (B + 1 - A) by lia.
      assert (2 ^ A * 2 ^ (B + 1 - A) <= a * 2 ^ (B + 1 - A)).
      { apply Z.mul_le_mono_nonneg_r; [apply Z.pow_nonneg; lia|exact HA1]. }
      rewrite <- Z.pow_add_r in H by lia.
      replace (A + (B + 1 - A)) with (B + 1) in H by lia. unfold Z.succ in *. lia.
Qed.

(** The significand is 0 exactly for the magnitudes of at most [tiny]. *)
Lemma nearest_zero (a b : Z) :
  0 < a -> 0 < b -> 2 ^ 1075 * a <= b -> fst (nearest a b) = 0.
Proof.
  intros Ha Hb H. unfold nearest.
  set (e := Z.max (binade a b - 52) (-1074)).
  assert (He : -1074 <= e) by (unfold e; lia).
  assert (Hm : forall n d, scale2 a b e = (n, d) -> round_half_even n d = 0).
  { intros n d Hs.
    assert (H2 : 2 * a <= 2 ^ 1075 * a).
    { apply Z.mul_le_mono_nonneg_r; [lia|]. vm_compute. discriminate. }
    destruct (scale2_cases a b e) as [[H0 Hs']|[H0 Hs']];
      rewrite Hs' in Hs; inversion Hs; subst n d.
    - assert (0 < 2 ^ e) by (apply Z.pow_pos_nonneg; lia).
      apply round_half_even_zero; nia.
    - assert (0 < 2 ^ (- e)) by (apply Z.pow_pos_nonneg; lia).
      assert (2 * 2 ^ (- e) <= 2 ^ 1075).
      { change (2 * 2 ^ (- e)) with (2 ^ 1 * 2 ^ (- e)).
        rewrite <- Z.pow_add_r by lia. apply Z.pow_le_mono_r; lia. }
      apply round_half_even_zero; nia. }
  destruct (scale2 a b e) as [n d] eqn:Hs.
  rewrite (Hm n d eq_refl). reflexivity.
Qed.

Lemma nearest_pos (a b : Z) :
  0 < a -> 0 < b -> b < 2 ^ 1075 * a -> 0 < fst (nearest a b).
Proof.
  intros Ha Hb H. unfold nearest.
  set (e := Z.max (binade a b - 52) (-1074)).
  assert (Hm : forall n d, scale2 a b e = (n, d) -> 0 < round_half_even n d).
  { intros n d Hs.
    destruct (binade_lower a b Ha Hb) as [Hl1 Hl2].
    assert (Hcase : e = -1074 \/ (e = binade a b - 52 /\ -1074 < e)) by (unfold e; lia).
    assert (HK : 2 <= 2 ^ 52) by (vm_compute; discriminate).
    destruct (scale2_cases a b e) as [[H0 Hs']|[H0 Hs']];
      rewrite Hs' in Hs; inversion Hs; subst n d.
    - destruct Hcase as [Hc|[Hc Hc']]; [lia|].
      specialize (Hl1 ltac:(lia)).
      replace (binade a b) with (e + 52) in Hl1 by lia.
      rewrite Z.pow_add_r in Hl1 by lia.
      assert (HP : 0 < 2 ^ e) by (apply Z.pow_pos_nonneg; lia).
      set (K := 2 ^ 52) in *. clearbody K.
      set (P := 2 ^ e) in *. clearbody P.
      assert (b * P < 2 * a).
      { assert (0 < b * P) by nia. assert (2 * (b * P) <= K * (b * P)) by nia. nia. }
      apply round_half_even_pos; lia.
    - assert (HP : 0 < 2 ^ (- e)) by (apply Z.pow_pos_nonneg; lia).
      assert (b < 2 * (a * 2 ^ (- e))).
      { destruct Hcase as [Hc|[Hc Hc']].
        - rewrite Hc. change (- -1074) with 1074.
          replace (2 * (a * 2 ^ 1074)) with (2 ^ 1075 * a); [exact H|].
          change (2 ^ 1075) with (2 * 2 ^ 1074). ring.
        - destruct (Z_lt_le_dec (binade a b) 0) as [Hn|Hn].
          + specialize (Hl2 Hn).
            replace (- binade a b) with (- e - 52) in Hl2 by lia.
            assert (HE : 2 ^ (- e) = 2 ^ (- e - 52) * 2 ^ 52).
            { rewrite <- Z.pow_add_r by lia. f_equal. lia. }
            assert (HQ : 0 < 2 ^ (- e - 52)) by (apply Z.pow_pos_nonneg; lia).
            rewrite HE.
            set (K := 2 ^ 52) in *. clearbody K.
            set (P := 2 ^ (- e - 52)) in *. clearbody P.
            assert (0 < a * P) by nia.
            assert (a * P <= a * P * K) by nia. nia.
          + specialize (Hl1 Hn).
            assert (0 < 2 ^ binade a b) by (apply Z.pow_pos_nonneg; lia).
            assert (1 <= 2 ^ (- e)) by lia.
            assert (b <= a) by nia.
            nia. }
      apply round_half_even_pos; nia. }
  destruct (scale2 a b e) as [n d] eqn:Hs.
  specialize (Hm n d eq_refl).
  destruct (round_half_even n d =? 2 ^ 53); cbn [fst]; [reflexivity|exact Hm].
Qed.

Lemma strip10_pos (fuel : nat) (c e : Z) : 0 < c -> 0 < coef (strip10 fuel c e).
Proof.
  revert c e. induction fuel as [|f IH]; intros c e Hc; cbn [strip10]; [exact Hc|].
  destruct ((e <? 0) && (c mod 10 =? 0)) eqn:E; [|exact Hc].
  apply IH. apply andb_true_iff in E. destruct E as [_ E]. apply Z.eqb_eq in E.
  pose proof (Z.div_mod c 10 ltac:(lia)). lia.
Qed.

Lemma canonical_pos (d : Dec) : 0 < coef d -> 0 < coef (canonical d).
Proof.
  intro H. unfold canonical. destruct (0 <=? expo d) eqn:E.
  - cbn [coef]. apply Z.mul_pos_pos; [exact H|]. apply Z.pow_pos_nonneg; lia.
  - now apply strip10_pos.
Qed.

Lemma shortest_pos (fuel : nat) (k M E : Z) (target : Z * Z) :
  0 < M -> 1 <= k ->
  0 < coef (shortest fuel k M E (Z.of_nat (length (digit_chars M))) target).
Proof.
  intros HM. revert k. induction fuel as [|f IH]; intros k Hk; cbn [shortest]; [exact HM|].
  set (len := Z.of_nat (length (digit_chars M))).
  destruct (len <=? k) eqn:El; [exact HM|].
  apply Z.leb_gt in El.
  assert (Hlo : 0 < M / 10 ^ (len - k)).
  { destruct (digit_chars_spec M ltac:(lia)) as (_ & _ & Hb).
    specialize (Hb HM). fold len in Hb.
    apply Z.div_str_pos. split; [apply Z.pow_pos_nonneg; lia|].
    apply Z.le_trans with (10 ^ (len - 1)); [|lia].
    apply Z.pow_le_mono_r; lia. }
  repeat match goal with
         | |- context [if ?c then _ else _] => destruct c
         end; cbn [coef]; try lia.
  apply IH. lia.
Qed.

(** What [to_number] returns, by the sign and the magnitude of the value. *)
Lemma to_number_cases (q : Q) :
  let r := Qred q in
  (Qnum r = 0 -> to_number q = Finite (of_Z 0)) /\
  (2 ^ 1075 * Z.abs (Qnum r) <= Zpos (Qden r) -> to_number q = Finite (of_Z 0)) /\
  (Zpos (Qden r) < 2 ^ 1075 * Z.abs (Qnum r) ->
   to_number q = Infinity (Qnum r <? 0) \/
   exists c e, 0 < c /\ to_number q = Finite (mkDec (Z.sgn (Qnum r) * c) e)).
Proof.
  intro r. unfold to_number. fold r.
  destruct (Z.abs (Qnum r) =? 0) eqn:E0.
  - apply Z.eqb_eq in E0. repeat split; try reflexivity. intro H. exfalso.
    rewrite E0 in H. lia.
  - apply Z.eqb_neq in E0.
    assert (Ha : 0 < Z.abs (Qnum r)) by lia.
    assert (Hb : 0 < Zpos (Qden r)) by reflexivity.
    split; [intro; lia|]. split.
    + intro H. pose proof (nearest_zero _ _ Ha Hb H) as Hz.
      destruct (nearest (Z.abs (Qnum r)) (Zpos (Qden r))) as [m e].
      cbn [fst] in Hz. subst m. reflexivity.
    + intro H. pose proof (nearest_pos _ _ Ha Hb H) as Hz.
      destruct (nearest (Z.abs (Qnum r)) (Zpos (Qden r))) as [m e].
      cbn [fst] in Hz.
      destruct (m =? 0) eqn:Em; [apply Z.eqb_eq in Em; lia|].
      destruct (971 <? e); [left; reflexivity|right].
      eexists _, _. split; [|reflexivity].
      apply canonical_pos. apply shortest_pos; [|lia].
      unfold expansion. destruct (0 <=? e) eqn:Ee; cbn [coef].
      * apply Z.mul_pos_pos; [exact Hz|apply Z.pow_pos_nonneg; lia].
      * apply Z.mul_pos_pos; [exact Hz|apply Z.pow_pos_nonneg; lia].
Qed.

Lemma to_number_not_NaN (q : Q) : to_number q <> NaN.
Proof.
  destruct (to_number_cases q) as (H0 & H1 & H2).
  destruct (Z_le_gt_dec (2 ^ 1075 * Z.abs (Qnum (Qred q))) (Zpos (Qden (Qred q)))) as [H|H].
  - rewrite (H1 H). discriminate.
  - destruct (H2 ltac:(lia)) as [E|(c & e & _ & E)]; rewrite E; discriminate.
Qed.

Lemma Qval_sgn_neg (c e : Z) : c < 0 -> (Qval (mkDec c e) < 0)%Q.
Proof.
  intro H. unfold Qval. cbn [coef expo].
  setoid_replace 0%Q with (0 * pow10 e)%Q by ring.
  apply Qmult_lt_compat_r; [apply pow10_pos|].
  change 0%Q with (inject_Z 0). rewrite <- Zlt_Qlt. exact H.
Qed.

Lemma Qval_sgn_nonneg (c e : Z) : 0 <= c -> (0 <= Qval (mkDec c e))%Q.
Proof.
  intro H. unfold Qval. cbn [coef expo].
  apply Qmult_le_0_compat; [|apply Qlt_le_weak, pow10_pos].
  change 0%Q with (inject_Z 0). rewrite <- Zle_Qle. exact H.
Qed.

(** A value below [- tiny] gives a negative number, any other value one that
    is not negative. *)
Lemma to_number_negative (q : Q) : (q < - tiny)%Q -> negative (to_number q).
Proof.
  intro H. destruct (to_number_cases q) as (_ & _ & H2).
  pose proof (Qred_correct q) as Hr.
  set (r := Qred q) in *.
  assert (Hq : (r < - tiny)%Q) by now rewrite Hr.
  unfold Qlt, tiny in Hq. cbn [Qnum Qden Qopp] in Hq.
  assert (Hn : Qnum r < 0).
  { destruct (Z_lt_le_dec (Qnum r) 0) as [Hn|Hn]; [exact Hn|exfalso].
    assert (0 <= Qnum r * Zpos (2 ^ 1075)) by (apply Z.mul_nonneg_nonneg; lia).
    lia. }
  assert (Hm : Zpos (Qden r) < 2 ^ 1075 * Z.abs (Qnum r)).
  { rewrite Z.abs_neq by lia. 
    change (Zpos (2 ^ 1075)) with (2 ^ 1075) in Hq. lia. }
  destruct (H2 Hm) as [E|(c & e & Hc & E)]; rewrite E; cbn [negative].
  - now apply Z.ltb_lt.
  - apply Qval_sgn_neg. rewrite Z.sgn_neg by exact Hn. lia.
Qed.

Lemma to_number_not_negative (q : Q) : (- tiny <= q)%Q -> not_negative (to_number q).
Proof.
  intro H. destruct (to_number_cases q) as (H0 & H1 & H2).
  pose proof (Qred_correct q) as Hr.
  set (r := Qred q) in *.
  assert (Hq : (- tiny <= r)%Q) by now rewrite Hr.
  unfold Qle, tiny in Hq. cbn [Qnum Qden Qopp] in Hq.
  change (Zpos (2 ^ 1075)) with (2 ^ 1075) in Hq.
  destruct (Z_le_gt_dec (2 ^ 1075 * Z.abs (Qnum r)) (Zpos (Qden r))) as [Hs|Hs].
  - rewrite (H1 Hs). cbn. discriminate.
  - assert (Hn : 0 < Qnum r) by lia.
    destruct (H2 ltac:(lia)) as [E|(c & e & Hc & E)]; rewrite E; cbn [not_negative].
    + now apply Z.ltb_ge, Z.lt_le_incl.
    + apply Qval_sgn_nonneg. rewrite Z.sgn_pos by exact Hn. lia.
Qed.

Lemma not_negative_geb (n : js_number) :
  number_geb n (Finite (of_Z 0)) = true <-> not_negative n.
Proof.
  destruct n as [|neg|x]; cbn [number_geb not_negative].
  - split; [discriminate|tauto].
  - destruct neg; split; congruence.
  - rewrite Qle_bool_iff. reflexivity.
Qed.

Lemma negative_geb (n : js_number) :
  n <> NaN -> (number_geb n (Finite (of_Z 0)) = false <-> negative n).
Proof.
  intro Hn. destruct n as [|neg|x]; cbn [number_geb negative].
  - congruence.
  - destruct neg; split; congruence.
  - rewrite <- not_true_iff_false, Qle_bool_iff. split.
    + apply Qnot_le_lt.
    + apply Qlt_not_le.
Qed.

(** [x >= 0] on the nearest number. *)
Lemma to_number_geb (q : Q) :
  number_geb (to_number q) (Finite (of_Z 0)) = Qle_bool (- tiny) q.
Proof.
  destruct (Qle_bool (- tiny) q) eqn:E.
  - apply not_negative_geb, to_number_not_negative, Qle_bool_iff, E.
  - apply negative_geb; [apply to_number_not_NaN|].
    apply to_number_negative. apply Qnot_le_lt. intro H.
    apply Qle_bool_iff in H. congruence.
Qed.

(** *** Integers of magnitude below [2 ^ 53] are binary64 numbers *)

Lemma binade_integer (x : Z) : 0 < x -> binade x 1 = Z.log2 x.
Proof.
  intro Hx. unfold binade. change (Z.log2 1) with 0. rewrite Z.sub_0_r.
  pose proof (Z.log2_nonneg x) as Hl.
  destruct (Z.log2_spec x Hx) as [Hlo _].
  unfold scale2. destruct (0 <=? Z.log2 x) eqn:E; [|apply Z.leb_gt in E; lia].
  rewrite Z.mul_1_l.
  destruct (2 ^ Z.log2 x <=? x) eqn:E'; [reflexivity|apply Z.leb_gt in E'; lia].
Qed.

Lemma round_half_even_one (n : Z) : round_half_even n 1 = n.
Proof. unfold round_half_even. now rewrite Z.div_1_r, Z.mod_1_r. Qed.

Lemma nearest_integer (x : Z) :
  0 < x < 2 ^ 53 -> nearest x 1 = (x * 2 ^ (52 - Z.log2 x), Z.log2 x - 52).
Proof.
  intros [Hx Hlt]. unfold nearest. rewrite (binade_integer x Hx).
  pose proof (Z.log2_nonneg x) as Hl.
  assert (Hl52 : Z.log2 x < 53) by (apply Z.log2_lt_pow2; assumption).
  destruct (Z.log2_spec x Hx) as [_ Hhi].
  rewrite Z.max_l by lia.
  set (L := Z.log2 x) in *.
  assert (Hm : x * 2 ^ (52 - L) < 2 ^ 53).
  { replace (2 ^ 53) with (2 ^ Z.succ L * 2 ^ (52 - L)).
    - apply Z.mul_lt_mono_pos_r; [apply Z.pow_pos_nonneg; lia|exact Hhi].
    - rewrite <- Z.pow_add_r by lia. f_equal. lia. }
  destruct (scale2_cases x 1 (L - 52)) as [[He Hs]|[He Hs]]; rewrite Hs.
  - assert (L = 52) by lia. replace (L - 52) with 0 by lia.
    replace (52 - L) with 0 in * by lia.
    change (1 * 2 ^ 0) with 1. rewrite round_half_even_one.
    change (2 ^ 0) with 1 in *. rewrite Z.mul_1_r in *.
    destruct (x =? 2 ^ 53) eqn:E; [apply Z.eqb_eq in E; lia|reflexivity].
  - rewrite round_half_even_one. replace (- (L - 52)) with (52 - L) by lia.
    destruct (x * 2 ^ (52 - L) =? 2 ^ 53) eqn:E; [apply Z.eqb_eq in E; lia|reflexivity].
Qed.

Lemma nearest_large (x : Z) : 2 ^ 53 <= x -> 1 <= snd (nearest x 1).
Proof.
  intro Hx. assert (H0 : 0 < x).
  { apply Z.lt_le_trans with (2 ^ 53); [reflexivity|exact Hx]. }
  unfold nearest. rewrite (binade_integer x H0).
  assert (Hl : 53 <= Z.log2 x) by (apply Z.log2_le_pow2; [exact H0|exact Hx]).
  rewrite Z.max_l by lia.
  destruct (scale2 x 1 (Z.log2 x - 52)) as [n d].
  destruct (round_half_even n d =? 2 ^ 53); cbn [snd]; lia.
Qed.

(** Two integers with the same binary64 number, one of them below
    [2 ^ 53], are equal. *)
Lemma nearest_integer_inj (x n : Z) :
  0 < x -> 0 < n < 2 ^ 53 -> nearest x 1 = nearest n 1 -> x = n.
Proof.
  intros Hx Hn H. rewrite (nearest_integer n Hn) in H.
  destruct (Z_lt_le_dec x (2 ^ 53)) as [Hlt|Hge].
  - rewrite (nearest_integer x (conj Hx Hlt)) in H.
    pose proof (f_equal fst H) as Hm. pose proof (f_equal snd H) as He.
    cbn [fst snd] in Hm, He.
    assert (El : Z.log2 x = Z.log2 n) by lia. rewrite El in Hm.
    apply Z.mul_cancel_r in Hm; [exact Hm|].
    apply Z.pow_nonzero; [lia|].
    assert (Z.log2 n < 53) by (apply Z.log2_lt_pow2; lia). lia.
  - pose proof (nearest_large x Hge) as Hs. rewrite H in Hs. cbn [snd] in Hs.
    assert (Z.log2 n < 53) by (apply Z.log2_lt_pow2; lia). lia.
Qed.

Lemma expansion_integer (n s : Z) :
  0 <= s -> expansion (n * 2 ^ s) (- s) = mkDec (n * 10 ^ s) (- s).
Proof.
  intro Hs. unfold expansion. destruct (0 <=? - s) eqn:E.
  - apply Z.leb_le in E. assert (s = 0) by lia. subst s. cbn. f_equal. lia.
  - rewrite Z.opp_involutive. f_equal.
    change 10 with (2 * 5). rewrite Z.pow_mul_l. ring.
Qed.

Lemma same_double_true (x y : Z * Z) : same_double x y = true -> x = y.
Proof.
  destruct x as [a b], y as [c d]. unfold same_double. cbn [fst snd].
  intro H. apply andb_prop in H as [H1 H2].
  apply Z.eqb_eq in H1. apply Z.eqb_eq in H2. now subst.
Qed.

Lemma same_double_refl (x : Z * Z) : same_double x x = true.
Proof. unfold same_double. now rewrite !Z.eqb_refl. Qed.

(** The search returns the integer itself. *)
Lemma shortest_integer (n s : Z) :
  0 < n < 2 ^ 53 -> 0 <= s ->
  let M := n * 10 ^ s in
  let len := Z.of_nat (length (digit_chars M)) in
  forall (fuel : nat) (k : Z),
    1 <= k -> s <= len - k -> len - k - s < Z.of_nat fuel ->
    exists c j, 0 <= j /\
      shortest fuel k M (- s) len (nearest n 1) = mkDec c j /\ c * 10 ^ j = n.
Proof.
  intros Hn Hs M len.
  assert (HM : 0 < M).
  { unfold M. apply Z.mul_pos_pos; [lia|apply Z.pow_pos_nonneg; lia]. }
  destruct (digit_chars_spec M ltac:(lia)) as (_ & _ & Hb).
  specialize (Hb HM). fold len in Hb.
  induction fuel as [|f IH]; intros k Hk Hsk Hf; [cbn in Hf; lia|].
  cbn [shortest].
  destruct (len <=? k) eqn:El.
  - apply Z.leb_le in El. assert (s = 0) by lia. subst s.
    exists M, 0. split; [lia|]. split; [reflexivity|].
    unfold M. change (10 ^ 0) with 1. lia.
  - apply Z.leb_gt in El.
    set (t := len - k) in *.
    assert (Ht : 0 < t) by (unfold t; lia).
    set (lo := M / 10 ^ t).
    assert (Hlo : 0 < lo).
    { apply Z.div_str_pos. split; [apply Z.pow_pos_nonneg; lia|].
      apply Z.le_trans with (10 ^ (len - 1)); [|lia].
      apply Z.pow_le_mono_r; unfold t; lia. }
    assert (F : forall c, 0 < c ->
                same_double (nearest_decimal c (- s + t)) (nearest n 1) = true ->
                exists c' j, 0 <= j /\ mkDec c (- s + t) = mkDec c' j /\ c' * 10 ^ j = n).
    { intros c Hc Hok. apply same_double_true in Hok.
      unfold nearest_decimal in Hok.
      destruct (0 <=? - s + t) eqn:E; [|apply Z.leb_gt in E; lia].
      exists c, (- s + t). split; [lia|]. split; [reflexivity|].
      apply (nearest_integer_inj _ n); [|exact Hn|exact Hok].
      apply Z.mul_pos_pos; [exact Hc|apply Z.pow_pos_nonneg; lia]. }
    destruct (same_double (nearest_decimal lo (- s + t)) (nearest n 1)) eqn:Elo.
    + destruct (F lo Hlo Elo) as (c' & j & Hj & Hc' & Hv).
      destruct (same_double (nearest_decimal (lo + 1) (- s + t)) (nearest n 1)) eqn:Ehi.
      * destruct (F (lo + 1) ltac:(lia) Ehi) as (c2 & j2 & Hj2 & Hc2 & Hv2).
        repeat match goal with
               | |- context [if ?c then _ else _] => destruct c
               end; eauto.
      * eauto.
    + destruct (same_double (nearest_decimal (lo + 1) (- s + t)) (nearest n 1)) eqn:Ehi.
      * destruct (F (lo + 1) ltac:(lia) Ehi) as (c2 & j2 & Hj2 & Hc2 & Hv2). eauto.
      * assert (Hts : s < t).
        { destruct (Z_lt_le_dec s t) as [H|H]; [exact H|exfalso].
          assert (t = s) by lia.
          assert (Elo' : lo = n).
          { unfold lo, M. replace t with s by lia.
            apply Z.div_mul. apply Z.pow_nonzero; lia. }
          rewrite Elo' in Elo. replace (- s + t) with 0 in Elo by lia.
          unfold nearest_decimal in Elo. cbn [Z.leb Z.compare] in Elo.
          change (10 ^ 0) with 1 in Elo. rewrite Z.mul_1_r in Elo.
          rewrite same_double_refl in Elo. discriminate. }
        apply IH; unfold t in *; lia.
Qed.

Lemma Qred_inject_Z (n : Z) : Qred (Qval (of_Z n)) = inject_Z n.
Proof.
  assert (E : (Qval (of_Z n) == inject_Z n)%Q).
  { unfold Qval. cbn [coef expo of_Z]. change (pow10 0) with 1%Q. ring. }
  rewrite (Qred_complete _ _ E). apply Qcanon.Qred_identity. cbn. apply Z.gcd_1_r.
Qed.

Lemma digit_count_bound (M : Z) (d : Z) :
  0 < M -> M < 10 ^ d -> Z.of_nat (length (digit_chars M)) <= d.
Proof.
  intros HM Hlt.
  destruct (digit_chars_spec M ltac:(lia)) as (_ & _ & Hb). specialize (Hb HM).
  set (len := Z.of_nat (length (digit_chars M))) in *.
  destruct (Z_le_gt_dec len d) as [H|H]; [exact H|exfalso].
  assert (10 ^ d <= 10 ^ (len - 1)) by (apply Z.pow_le_mono_r; lia). lia.
Qed.

(** [to_number] is exact on the integers of magnitude below [2 ^ 53]. *)
Lemma to_number_integer (n : Z) :
  Z.abs n < 2 ^ 53 -> to_number (Qval (of_Z n)) = Finite (of_Z n).
Proof.
  intro Hlt. unfold to_number. rewrite Qred_inject_Z. cbn [Qnum Qden inject_Z].
  destruct (Z.abs n =? 0) eqn:E0.
  { apply Z.eqb_eq in E0. assert (n = 0) by lia. now subst. }
  apply Z.eqb_neq in E0.
  set (a := Z.abs n) in *.
  assert (Ha : 0 < a < 2 ^ 53) by (unfold a in *; lia).
  pose proof (Z.log2_nonneg a) as Hl.
  assert (Hl52 : Z.log2 a < 53) by (apply Z.log2_lt_pow2; lia).
  set (s := 52 - Z.log2 a).
  assert (Hs : 0 <= s) by (unfold s; lia).
  assert (Hnear : nearest a 1 = (a * 2 ^ s, - s)).
  { rewrite (nearest_integer a Ha). unfold s. f_equal. lia. }
  rewrite Hnear.
  assert (Hp : 0 < 2 ^ s) by (apply Z.pow_pos_nonneg; lia).
  destruct (a * 2 ^ s =? 0) eqn:Em; [apply Z.eqb_eq in Em; nia|].
  destruct (971 <? - s) eqn:Ee; [apply Z.ltb_lt in Ee; lia|].
  rewrite (expansion_integer a s Hs). cbn [coef expo].
  assert (HM : 0 < a * 10 ^ s).
  { apply Z.mul_pos_pos; [lia|apply Z.pow_pos_nonneg; lia]. }
  assert (Hlen : Z.of_nat (length (digit_chars (a * 10 ^ s))) <= 16 + s).
  { apply digit_count_bound; [exact HM|].
    rewrite Z.pow_add_r by lia.
    apply Z.mul_lt_mono_pos_r; [apply Z.pow_pos_nonneg; lia|].
    apply Z.lt_trans with (2 ^ 53); [lia|reflexivity]. }
  assert (Hlen1 : 1 + s <= Z.of_nat (length (digit_chars (a * 10 ^ s)))).
  { destruct (digit_chars_spec (a * 10 ^ s) ltac:(lia)) as (_ & _ & Hb).
    specialize (Hb HM).
    set (len := Z.of_nat (length (digit_chars (a * 10 ^ s)))) in *.
    destruct (Z_le_gt_dec (1 + s) len) as [H|H]; [exact H|exfalso].
    assert (10 ^ len <= 10 ^ s) by (apply Z.pow_le_mono_r; lia).
    assert (10 ^ s <= a * 10 ^ s) by nia. lia. }
  rewrite <- Hnear.
  pose proof (shortest_integer a s Ha Hs) as Hsh. cbv zeta in Hsh.
  destruct (Hsh 17%nat 1) as (c & j & Hj & -> & Hv);
    [lia | lia | change (Z.of_nat 17) with 17; lia |].
  unfold canonical. cbn [coef expo].
  destruct (0 <=? j) eqn:Ej; [|apply Z.leb_gt in Ej; lia].
  cbn [coef expo]. rewrite Hv. unfold of_Z, a.
  now rewrite Z.mul_comm, Z.abs_sgn.
Qed.

Lemma to_number_zero (e : Z) : to_number (Qval (mkDec 0 e)) = Finite (of_Z 0).
Proof.
  apply (proj1 (to_number_cases _)).
  assert (E : (Qval (mkDec 0 e) == 0)%Q) by (unfold Qval; cbn [coef]; ring).
  now rewrite (Qred_complete _ _ E).
Qed.

(* ------------------------------------------------------------------ *)
(** ** Decimals of at most fifteen digits *)

Lemma pow2_pos (e : Z) : (0 < pow2 e)%Q.
Proof. unfold pow2. apply Qpower_0_lt. reflexivity. Qed.

Lemma pow2_add (a b : Z) : (pow2 (a + b) == pow2 a * pow2 b)%Q.
Proof. unfold pow2. apply Qpower_plus. discriminate. Qed.

Lemma pow2_nonneg (e : Z) : 0 <= e -> (pow2 e == inject_Z (2 ^ e))%Q.
Proof. intro H. unfold pow2. symmetry. now apply Zpower_Qpower. Qed.

Lemma pow2_le (a b : Z) : a <= b -> (pow2 a <= pow2 b)%Q.
Proof. intro H. unfold pow2. apply Qpower_le_compat_l; [exact H | discriminate]. Qed.

Lemma pow2_inv (e : Z) : (pow2 e * pow2 (- e) == 1)%Q.
Proof. rewrite <- pow2_add. now replace (e + - e) with 0 by lia. Qed.

Lemma pow2_succ (e : Z) : (pow2 (e + 1) == 2 * pow2 e)%Q.
Proof. rewrite pow2_add. change (pow2 1) with 2%Q. ring. Qed.

Lemma pow2_lt (a b : Z) : a < b -> (pow2 a < pow2 b)%Q.
Proof.
  intro H. apply Qlt_le_trans with (pow2 (a + 1)).
  - rewrite pow2_succ. pose proof (pow2_pos a). lra.
  - apply pow2_le. lia.
Qed.

(** [scale2 a b e] is a fraction of value [a / b / 2 ^ e]. *)
Lemma scale2_value (a b e n d : Z) (v : Q) :
  0 < b -> (inject_Z a == v * inject_Z b)%Q -> scale2 a b e = (n, d) ->
  0 < d /\ (inject_Z n == v * pow2 (- e) * inject_Z d)%Q.
Proof.
  intros Hb Hv Hs.
  destruct (scale2_cases a b e) as [[He Hs']|[He Hs']];
    rewrite Hs' in Hs; inversion Hs; subst n d.
  - assert (0 < 2 ^ e) by (apply Z.pow_pos_nonneg; lia).
    split; [nia|].
    rewrite inject_Z_mult, <- pow2_nonneg by lia.
    rewrite Hv. pose proof (pow2_inv e) as Hi.
    setoid_replace (v * pow2 (- e) * (inject_Z b * pow2 e))%Q
      with (v * inject_Z b * (pow2 e * pow2 (- e)))%Q by ring.
    rewrite Hi. ring.
  - split; [exact Hb|].
    rewrite inject_Z_mult, <- pow2_nonneg by lia.
    rewrite Hv. ring.
Qed.

(** Rounding moves a fraction by at most one half. *)
Lemma round_half_even_error (n d : Z) :
  0 < d -> 2 * Z.abs (round_half_even n d * d - n) <= d.
Proof.
  intro Hd. unfold round_half_even.
  pose proof (Z.mod_pos_bound n d Hd) as Hr.
  pose proof (Z.div_mod n d ltac:(lia)) as Hdm.
  destruct (2 * (n mod d) <? d) eqn:E1; [apply Z.ltb_lt in E1; nia|].
  apply Z.ltb_ge in E1.
  destruct (d <? 2 * (n mod d)) eqn:E2; [apply Z.ltb_lt in E2; nia|].
  apply Z.ltb_ge in E2.
  destruct (Z.even (n / d)); nia.
Qed.

Lemma round_half_even_near (n d : Z) (x : Q) :
  0 < d -> (inject_Z n == x * inject_Z d)%Q ->
  (Qabs (inject_Z (round_half_even n d) - x) <= 1 # 2)%Q.
Proof.
  intros Hd Hx.
  pose proof (round_half_even_error n d Hd) as H.
  set (m := round_half_even n d) in *.
  assert (HD : (0 < inject_Z d)%Q).
  { change 0%Q with (inject_Z 0). now rewrite <- Zlt_Qlt. }
  assert (Hq : (2 * Qabs (inject_Z m * inject_Z d - inject_Z n) <= inject_Z d)%Q).
  { rewrite <- inject_Z_mult. unfold Qminus. rewrite <- inject_Z_opp, <- inject_Z_plus.
    change (Qabs (inject_Z (m * d + - n))) with (inject_Z (Z.abs (m * d + - n))).
    change 2%Q with (inject_Z 2). rewrite <- inject_Z_mult, <- Zle_Qle.
    exact H. }
  rewrite Hx in Hq.
  setoid_replace (inject_Z m * inject_Z d - x * inject_Z d)%Q
    with ((inject_Z m - x) * inject_Z d)%Q in Hq by ring.
  rewrite Qabs_Qmult, (Qabs_pos (inject_Z d)) in Hq by lra.
  set (y := Qabs (inject_Z m - x)) in *.
  apply Qnot_lt_le. intro Hc.
  assert ((1 # 2) * inject_Z d < y * inject_Z d)%Q by (apply Qmult_lt_r; assumption).
  lra.
Qed.

(** The value of a fraction decides how it is rounded. *)
Lemma round_half_even_value (n d n' d' : Z) :
  0 < d -> 0 < d' -> n * d' = n' * d ->
  round_half_even n d = round_half_even n' d'.
Proof.
  intros Hd Hd' H. unfold round_half_even.
  pose proof (Z.mod_pos_bound n d Hd) as Hr.
  pose proof (Z.div_mod n d ltac:(lia)) as Hdm.
  pose proof (Z.mod_pos_bound n' d' Hd') as Hr'.
  pose proof (Z.div_mod n' d' ltac:(lia)) as Hdm'.
  set (q := n / d) in *. set (r := n mod d) in *.
  set (q' := n' / d') in *. set (r' := n' mod d') in *.
  clearbody q r q' r'.
  assert (Hdd : 0 < d * d') by nia.
  assert (H1 : r * d' < d * d') by nia.
  assert (H2 : r' * d < d * d') by nia.
  assert (H3 : 0 <= r * d') by nia.
  assert (H4 : 0 <= r' * d) by nia.
  assert (H5 : d * d' * (q' - q) = r * d' - r' * d).
  { subst n n'. ring_simplify. ring_simplify in H. lia. }
  assert (Hq : q = q').
  { assert (~ q < q').
    { intro. assert (d * d' * 1 <= d * d' * (q' - q)) by (apply Z.mul_le_mono_nonneg_l; lia).
      lia. }
    assert (~ q' < q).
    { intro. assert (d * d' * (q' - q) <= d * d' * (-1)) by (apply Z.mul_le_mono_nonneg_l; lia).
      lia. }
    lia. }
  subst q'.
  assert (Hrr : r * d' = r' * d).
  { replace (q - q) with 0 in H5 by lia. lia. }
  assert (E1 : (2 * r <? d) = (2 * r' <? d')).
  { destruct (2 * r <? d) eqn:A; destruct (2 * r' <? d') eqn:B; try reflexivity.
    - apply Z.ltb_lt in A. apply Z.ltb_ge in B. nia.
    - apply Z.ltb_ge in A. apply Z.ltb_lt in B. nia. }
  assert (E2 : (d <? 2 * r) = (d' <? 2 * r')).
  { destruct (d <? 2 * r) eqn:A; destruct (d' <? 2 * r') eqn:B; try reflexivity.
    - apply Z.ltb_lt in A. apply Z.ltb_ge in B. nia.
    - apply Z.ltb_ge in A. apply Z.ltb_lt in B. nia. }
  now rewrite E1, E2.
Qed.

Lemma pow2_cancel (x : Q) (e : Z) : (x * pow2 e * pow2 (- e) == x)%Q.
Proof. rewrite <- Qmult_assoc, pow2_inv. ring. Qed.

Lemma pow2_shift_le (x y : Q) (e : Z) : (x * pow2 e <= y)%Q -> (x <= y * pow2 (- e))%Q.
Proof.
  intro H. rewrite <- (pow2_cancel x e).
  apply Qmult_le_compat_r; [exact H|]. apply Qlt_le_weak, pow2_pos.
Qed.

Lemma pow2_shift_lt (x y : Q) (e : Z) : (x * pow2 e < y)%Q -> (x < y * pow2 (- e))%Q.
Proof.
  intro H. rewrite <- (pow2_cancel x e).
  apply Qmult_lt_r; [apply pow2_pos|exact H].
Qed.

Lemma pow2_unshift_le (x y : Q) (e : Z) : (x <= y * pow2 e)%Q -> (x * pow2 (- e) <= y)%Q.
Proof.
  intro H. rewrite <- (pow2_cancel y e).
  apply Qmult_le_compat_r; [exact H|]. apply Qlt_le_weak, pow2_pos.
Qed.

Lemma pow2_unshift_lt (x y : Q) (e : Z) : (x < y * pow2 e)%Q -> (x * pow2 (- e) < y)%Q.
Proof.
  intro H. rewrite <- (pow2_cancel y e).
  apply Qmult_lt_r; [apply pow2_pos|exact H].
Qed.

Lemma inject_Z_pos (z : Z) : 0 < z -> (0 < inject_Z z)%Q.
Proof. intro H. change 0%Q with (inject_Z 0). now rewrite <- Zlt_Qlt. Qed.

Lemma log2_pow2 (a : Z) :
  0 < a -> (pow2 (Z.log2 a) <= inject_Z a)%Q /\ (inject_Z a < pow2 (Z.log2 a + 1))%Q.
Proof.
  intro Ha. destruct (Z.log2_spec a Ha) as [H1 H2].
  pose proof (Z.log2_nonneg a) as H0.
  rewrite !pow2_nonneg by lia. split.
  - now rewrite <- Zle_Qle.
  - rewrite <- Zlt_Qlt. exact H2.
Qed.

(** The binade of a positive value. *)
Lemma binade_spec (a b : Z) (v : Q) :
  0 < a -> 0 < b -> (inject_Z a == v * inject_Z b)%Q ->
  (pow2 (binade a b) <= v)%Q /\ (v < pow2 (binade a b + 1))%Q.
Proof.
  intros Ha Hb Hv.
  destruct (log2_pow2 a Ha) as [HA1 HA2].
  destruct (log2_pow2 b Hb) as [HB1 HB2].
  pose proof (inject_Z_pos b Hb) as HB.
  assert (Hv0 : (0 < v)%Q).
  { pose proof (inject_Z_pos a Ha) as HA. rewrite Hv in HA.
    apply Qnot_le_lt. intro Hc.
    assert (v * inject_Z b <= 0 * inject_Z b)%Q by (apply Qmult_le_compat_r; lra).
    lra. }
  set (A := Z.log2 a) in *. set (B := Z.log2 b) in *.
  assert (Hup : (v < pow2 (A - B + 1))%Q).
  { assert (H : (v * pow2 B < pow2 (A + 1))%Q).
    { apply Qle_lt_trans with (v * inject_Z b)%Q; [|now rewrite <- Hv].
      apply Qmult_le_l; assumption. }
    apply pow2_shift_lt in H. rewrite <- pow2_add in H.
    now replace (A + 1 + - B) with (A - B + 1) in H by lia. }
  assert (Hlo : (pow2 (A - B - 1) < v)%Q).
  { assert (H : (pow2 A < v * pow2 (B + 1))%Q).
    { apply Qle_lt_trans with (v * inject_Z b)%Q; [now rewrite <- Hv|].
      apply Qmult_lt_l; assumption. }
    apply pow2_unshift_lt in H. rewrite <- pow2_add in H.
    now replace (A + - (B + 1)) with (A - B - 1) in H by lia. }
  unfold binade. fold A B.
  destruct (scale2 a b (A - B)) as [n d] eqn:Hs.
  destruct (scale2_value a b (A - B) n d v Hb Hv Hs) as [Hd Hn].
  pose proof (inject_Z_pos d Hd) as HD.
  destruct (d <=? n) eqn:E.
  - apply Z.leb_le in E. rewrite Zle_Qle, Hn in E.
    split; [|exact Hup].
    assert (H1 : (1 <= v * pow2 (- (A - B)))%Q).
    { apply Qnot_lt_le. intro Hc.
      assert (v * pow2 (- (A - B)) * inject_Z d < 1 * inject_Z d)%Q
        by (apply Qmult_lt_r; assumption).
      lra. }
    apply pow2_unshift_le in H1.
    replace (- - (A - B)) with (A - B) in H1 by lia. lra.
  - apply Z.leb_gt in E. rewrite Zlt_Qlt, Hn in E.
    replace (A - B - 1 + 1) with (A - B) by lia.
    split; [now apply Qlt_le_weak|].
    assert (H1 : (v * pow2 (- (A - B)) < 1)%Q).
    { apply Qnot_le_lt. intro Hc.
      assert (1 * inject_Z d <= v * pow2 (- (A - B)) * inject_Z d)%Q
        by (apply Qmult_le_compat_r; lra).
      lra. }
    apply pow2_shift_lt in H1.
    replace (- - (A - B)) with (A - B) in H1 by lia. lra.
Qed.

Lemma binade_unique (v : Q) (l l' : Z) :
  (pow2 l <= v)%Q -> (v < pow2 (l + 1))%Q ->
  (pow2 l' <= v)%Q -> (v < pow2 (l' + 1))%Q -> l = l'.
Proof.
  intros H1 H2 H1' H2'.
  destruct (Z.lt_trichotomy l l') as [H|[H|H]]; [|exact H|].
  - pose proof (pow2_le (l + 1) l' ltac:(lia)). lra.
  - pose proof (pow2_le (l' + 1) l ltac:(lia)). lra.
Qed.

Lemma fraction_value (a b a' b' : Z) (v : Q) :
  0 < b -> 0 < b' -> a * b' = a' * b ->
  (inject_Z a == v * inject_Z b)%Q -> (inject_Z a' == v * inject_Z b')%Q.
Proof.
  intros Hb Hb' H Hv.
  pose proof (inject_Z_pos b Hb) as HB.
  assert (E : (inject_Z a' * inject_Z b == v * inject_Z b' * inject_Z b)%Q).
  { rewrite <- inject_Z_mult, <- H, inject_Z_mult, Hv. ring. }
  apply Qmult_inj_r in E; [exact E|lra].
Qed.

(** The nearest double depends on the value of the fraction only. *)
Lemma nearest_value (a b a' b' : Z) :
  0 < a -> 0 < b -> 0 < a' -> 0 < b' -> a * b' = a' * b ->
  nearest a b = nearest a' b'.
Proof.
  intros Ha Hb Ha' Hb' H.
  set (v := (inject_Z a / inject_Z b)%Q).
  assert (Hv : (inject_Z a == v * inject_Z b)%Q).
  { unfold v. field. pose proof (inject_Z_pos b Hb). lra. }
  pose proof (fraction_value a b a' b' v Hb Hb' H Hv) as Hv'.
  destruct (binade_spec a b v Ha Hb Hv) as [L1 L2].
  destruct (binade_spec a' b' v Ha' Hb' Hv') as [L1' L2'].
  pose proof (binade_unique v _ _ L1 L2 L1' L2') as El.
  unfold nearest. rewrite <- El.
  set (e := Z.max (binade a b - 52) (-1074)).
  destruct (scale2 a b e) as [n d] eqn:Hs.
  destruct (scale2 a' b' e) as [n' d'] eqn:Hs'.
  destruct (scale2_value a b e n d v Hb Hv Hs) as [Hd Hn].
  destruct (scale2_value a' b' e n' d' v Hb' Hv' Hs') as [Hd' Hn'].
  assert (En : n * d' = n' * d).
  { apply inject_Z_injective. rewrite !inject_Z_mult, Hn, Hn'. ring. }
  now rewrite (round_half_even_value n d n' d' Hd Hd' En).
Qed.

Lemma Qabs_scaled (y p : Q) : (0 < p)%Q -> (Qabs (y * p) == Qabs y * p)%Q.
Proof. intro H. rewrite Qabs_Qmult, (Qabs_pos p) by lra. reflexivity. Qed.

(** What [nearest] returns is within half a unit of the value, and its
    significand has 53 bits when the value is in the normal range. *)
Lemma nearest_spec (a b m e2 : Z) (v : Q) :
  0 < a -> 0 < b -> (inject_Z a == v * inject_Z b)%Q -> nearest a b = (m, e2) ->
  (Qabs (inject_Z m * pow2 e2 - v) <= pow2 e2 * (1 # 2))%Q /\
  ((pow2 (-1022) <= v)%Q -> 2 ^ 52 <= m).
Proof.
  intros Ha Hb Hv Hn.
  destruct (binade_spec a b v Ha Hb Hv) as [L1 L2].
  unfold nearest in Hn.
  set (e := Z.max (binade a b - 52) (-1074)) in *.
  destruct (scale2 a b e) as [n d] eqn:Hs.
  destruct (scale2_value a b e n d v Hb Hv Hs) as [Hd Hx].
  pose proof (round_half_even_near n d _ Hd Hx) as Hr.
  set (m0 := round_half_even n d) in *.
  pose proof (pow2_pos e) as Hpe.
  assert (Hval : (Qabs (inject_Z m0 * pow2 e - v) <= pow2 e * (1 # 2))%Q).
  { setoid_replace (inject_Z m0 * pow2 e - v)%Q
      with ((inject_Z m0 - v * pow2 (- e)) * pow2 e)%Q.
    - rewrite Qabs_scaled by exact Hpe.
      rewrite (Qmult_comm (pow2 e)). apply Qmult_le_compat_r; [exact Hr|lra].
    - rewrite <- (pow2_cancel v (- e)) at 1.
      replace (- - e) with e by lia. ring. }
  assert (Hm0 : (pow2 (-1022) <= v)%Q -> 2 ^ 52 <= m0).
  { intro Hnorm.
    assert (Hb1 : -1022 <= binade a b).
    { destruct (Z_lt_le_dec (binade a b) (-1022)) as [Hc|Hc]; [|exact Hc].
      pose proof (pow2_le (binade a b + 1) (-1022) ltac:(lia)). lra. }
    assert (He : e = binade a b - 52) by (unfold e; lia).
    assert (Hx52 : (pow2 52 <= v * pow2 (- e))%Q).
    { replace 52 with (binade a b + - e) by lia. rewrite pow2_add.
      apply Qmult_le_compat_r; [exact L1|]. apply Qlt_le_weak, pow2_pos. }
    rewrite pow2_nonneg in Hx52 by lia.
    apply Qabs_Qle_condition in Hr. destruct Hr as [Hr1 _].
    assert (Hgt : (inject_Z (2 ^ 52 - 1) < inject_Z m0)%Q).
    { assert (E : (inject_Z (2 ^ 52 - 1) == inject_Z (2 ^ 52) - 1)%Q) by reflexivity.
      rewrite E. lra. }
    rewrite <- Zlt_Qlt in Hgt. lia. }
  destruct (m0 =? 2 ^ 53) eqn:E; injection Hn as <- <-.
  - apply Z.eqb_eq in E. split; [|intros _; lia].
    rewrite E in Hval.
    setoid_replace (inject_Z (2 ^ 52) * pow2 (e + 1))%Q
      with (inject_Z (2 ^ 53) * pow2 e)%Q.
    + rewrite pow2_succ. lra.
    + rewrite pow2_succ. change (inject_Z (2 ^ 53)) with (2 * inject_Z (2 ^ 52))%Q.
      ring.
  - split; assumption.
Qed.

(** The fraction that [nearest_decimal] rounds. *)
Lemma nearest_decimal_fraction (c s : Z) :
  0 < c ->
  exists a b, 0 < a /\ 0 < b /\ nearest_decimal c s = nearest a b /\
              (inject_Z a == inject_Z c * pow10 s * inject_Z b)%Q.
Proof.
  intro Hc. unfold nearest_decimal. destruct (0 <=? s) eqn:E.
  - apply Z.leb_le in E. exists (c * 10 ^ s), 1.
    assert (0 < 10 ^ s) by (apply Z.pow_pos_nonneg; lia).
    split; [nia|]. split; [lia|]. split; [reflexivity|].
    rewrite inject_Z_mult, <- pow10_nonneg by exact E. ring.
  - apply Z.leb_gt in E. exists c, (10 ^ (- s)).
    assert (0 < 10 ^ (- s)) by (apply Z.pow_pos_nonneg; lia).
    split; [exact Hc|]. split; [assumption|]. split; [reflexivity|].
    rewrite <- pow10_nonneg by lia. rewrite <- Qmult_assoc, <- pow10_add.
    replace (s + - s) with 0 by lia. change (pow10 0) with 1%Q. ring.
Qed.

Lemma nearest_decimal_spec (c s m e2 : Z) :
  0 < c -> nearest_decimal c s = (m, e2) ->
  (Qabs (inject_Z m * pow2 e2 - inject_Z c * pow10 s) <= pow2 e2 * (1 # 2))%Q /\
  ((pow2 (-1022) <= inject_Z c * pow10 s)%Q -> 2 ^ 52 <= m).
Proof.
  intros Hc Hn.
  destruct (nearest_decimal_fraction c s Hc) as (a & b & Ha & Hb & En & Hv).
  rewrite En in Hn. exact (nearest_spec a b m e2 _ Ha Hb Hv Hn).
Qed.

Lemma nearest_fraction_value (a b a' b' : Z) (v : Q) :
  0 < a -> 0 < b -> 0 < a' -> 0 < b' ->
  (inject_Z a == v * inject_Z b)%Q -> (inject_Z a' == v * inject_Z b')%Q ->
  nearest a b = nearest a' b'.
Proof.
  intros Ha Hb Ha' Hb' Hv Hv'. apply nearest_value; try assumption.
  apply inject_Z_injective. rewrite !inject_Z_mult, Hv, Hv'. ring.
Qed.

(** A multiple of [10 ^ S] of magnitude below [10 ^ S] is zero. *)
Lemma grid_lt (x y E : Z) :
  (Qabs (inject_Z x * pow10 E) < inject_Z y * pow10 E)%Q -> Z.abs x < y.
Proof.
  intro H. pose proof (pow10_pos E) as Hp.
  rewrite Qabs_scaled in H by exact Hp.
  apply Qmult_lt_r in H; [|exact Hp].
  change (Qabs (inject_Z x)) with (inject_Z (Z.abs x)) in H.
  now rewrite <- Zlt_Qlt in H.
Qed.

Lemma grid_close (x E : Z) :
  (Qabs (inject_Z x * pow10 E) < pow10 E)%Q -> x = 0.
Proof.
  intro H. assert (Z.abs x < 1); [|lia].
  apply (grid_lt x 1 E). now rewrite Qmult_1_l.
Qed.

(** Two decimals on the grid [10 ^ S] that round to the same double are
    equal when a unit of the double is below [10 ^ S]. *)
Lemma same_double_same_value (c s c' s' S m e2 : Z) :
  0 < c -> 0 < c' -> S <= s -> S <= s' ->
  nearest_decimal c s = (m, e2) -> nearest_decimal c' s' = (m, e2) ->
  (pow2 e2 < pow10 S)%Q ->
  (inject_Z c * pow10 s == inject_Z c' * pow10 s')%Q.
Proof.
  intros Hc Hc' Hs Hs' Hn Hn' Hlt.
  destruct (nearest_decimal_spec c s m e2 Hc Hn) as [H _].
  destruct (nearest_decimal_spec c' s' m e2 Hc' Hn') as [H' _].
  apply Qabs_Qle_condition in H. apply Qabs_Qle_condition in H'.
  rewrite <- (Qval_scaled c s S), <- (Qval_scaled c' s' S) by assumption.
  rewrite <- (Qval_scaled c s S) in H by assumption.
  rewrite <- (Qval_scaled c' s' S) in H' by assumption.
  set (x := c * 10 ^ (s - S)) in *. set (x' := c' * 10 ^ (s' - S)) in *.
  assert (E : x - x' = 0).
  { apply (grid_close _ S).
    unfold Z.sub. rewrite inject_Z_plus, inject_Z_opp.
    apply Qabs_Qlt_condition. split; lra. }
  replace x with x' by lia. reflexivity.
Qed.

(** The search for the shortest decimal finds [v] when [v] is on the grid
    [10 ^ S], less than a unit of that grid away from the double, reads
    back as the double, and is the only decimal on the grid that does. *)
Lemma shortest_finds (target : Z * Z) (M E len S V : Z) (v : Q) :
  10 ^ (len - 1) <= M -> 1 <= len ->
  (forall c s, 0 < c -> S <= s -> nearest_decimal c s = target ->
               (inject_Z c * pow10 s == v)%Q) ->
  (Qabs (inject_Z M * pow10 E - v) < pow10 S)%Q ->
  (v == inject_Z V * pow10 S)%Q -> nearest_decimal V S = target ->
  forall (fuel : nat) (k : Z),
    1 <= k -> k <= E + len - S -> E + len - S - k < Z.of_nat fuel ->
    (Qval (shortest fuel k M E len target) == v)%Q.
Proof.
  intros HM Hlen U Hclose HV Hok.
  induction fuel as [|fuel IH]; intros k Hk Hkv Hf; [simpl in Hf; lia|].
  cbn [shortest].
  destruct (len <=? k) eqn:El.
  - apply Z.leb_le in El.
    unfold Qval. cbn [coef expo].
    rewrite HV in Hclose |- *.
    rewrite <- (Qval_scaled M E S) in Hclose |- * by lia.
    assert (Ez : M * 10 ^ (E - S) - V = 0).
    { apply (grid_close _ S).
      unfold Z.sub at 1. rewrite inject_Z_plus, inject_Z_opp.
      setoid_replace ((inject_Z (M * 10 ^ (E - S)) + - inject_Z V) * pow10 S)%Q
        with (inject_Z (M * 10 ^ (E - S)) * pow10 S - inject_Z V * pow10 S)%Q by ring.
      exact Hclose. }
    replace (M * 10 ^ (E - S)) with V by lia. reflexivity.
  - apply Z.leb_gt in El.
    set (t := len - k).
    assert (Ht : 0 < t) by (unfold t; lia).
    assert (Hpt : 0 < 10 ^ t) by (apply Z.pow_pos_nonneg; lia).
    set (lo := M / 10 ^ t).
    assert (Hlo : 0 < lo).
    { unfold lo. apply Z.div_str_pos. split; [exact Hpt|].
      eapply Z.le_trans; [|exact HM]. apply Z.pow_le_mono_r; unfold t; lia. }
    assert (HS : S <= E + t) by (unfold t; lia).
    assert (Ulo : same_double (nearest_decimal lo (E + t)) target = true ->
                  (Qval (mkDec lo (E + t)) == v)%Q).
    { intro H. apply same_double_true in H. apply (U lo (E + t) Hlo HS H). }
    assert (Uhi : same_double (nearest_decimal (lo + 1) (E + t)) target = true ->
                  (Qval (mkDec (lo + 1) (E + t)) == v)%Q).
    { intro H. apply same_double_true in H. apply (U (lo + 1) (E + t)); [lia|exact HS|exact H]. }
    destruct (same_double (nearest_decimal lo (E + t)) target) eqn:Olo.
    + destruct (same_double (nearest_decimal (lo + 1) (E + t)) target) eqn:Ohi.
      * destruct (M - lo * 10 ^ t <? (lo + 1) * 10 ^ t - M); [now apply Ulo|].
        destruct ((lo + 1) * 10 ^ t - M <? M - lo * 10 ^ t); [now apply Uhi|].
        destruct (Z.even lo); [now apply Ulo | now apply Uhi].
      * now apply Ulo.
    + destruct (same_double (nearest_decimal (lo + 1) (E + t)) target) eqn:Ohi.
      * now apply Uhi.
      * destruct (Z.eq_dec k (E + len - S)) as [Ek|Ek].
        -- exfalso.
           assert (Et : E + t = S) by (unfold t; lia).
           rewrite Et in Olo, Ohi.
           rewrite HV in Hclose.
           rewrite <- (Qval_scaled V S E) in Hclose by lia.
           replace (S - E) with t in Hclose by lia.
           assert (Hd : Z.abs (M - V * 10 ^ t) < 10 ^ t).
           { apply (grid_lt _ _ E).
             unfold Z.sub at 1. rewrite inject_Z_plus, inject_Z_opp.
             rewrite <- (pow10_shift S E) in Hclose by lia.
             replace (S - E) with t in Hclose by lia.
             setoid_replace ((inject_Z M + - inject_Z (V * 10 ^ t)) * pow10 E)%Q
               with (inject_Z M * pow10 E - inject_Z (V * 10 ^ t) * pow10 E)%Q by ring.
             exact Hclose. }
           assert (HVc : V = lo \/ V = lo + 1).
           { pose proof (Z.div_mod M (10 ^ t) ltac:(lia)) as Hdm.
             pose proof (Z.mod_pos_bound M (10 ^ t) Hpt) as Hr.
             fold lo in Hdm.
             assert (~ V < lo) by (intro; assert (V + 1 <= lo) by lia; nia).
             assert (~ lo + 1 < V) by (intro; assert (lo + 2 <= V) by lia; nia).
             lia. }
           assert (Hself : same_double (nearest_decimal V S) target = true)
             by (rewrite Hok; apply same_double_refl).
           destruct HVc as [-> | ->]; congruence.
        -- apply IH; lia.
Qed.

Lemma nearest_decimal_value (c s c' s' : Z) :
  0 < c -> 0 < c' -> (inject_Z c * pow10 s == inject_Z c' * pow10 s')%Q ->
  nearest_decimal c s = nearest_decimal c' s'.
Proof.
  intros Hc Hc' H.
  destruct (nearest_decimal_fraction c s Hc) as (a & b & Ha & Hb & -> & Hv).
  destruct (nearest_decimal_fraction c' s' Hc') as (a' & b' & Ha' & Hb' & -> & Hv').
  rewrite <- H in Hv'.
  exact (nearest_fraction_value a b a' b' _ Ha Hb Ha' Hb' Hv Hv').
Qed.

Lemma pow10_inv (e : Z) : (pow10 e * pow10 (- e) == 1)%Q.
Proof. rewrite <- pow10_add. now replace (e + - e) with 0 by lia. Qed.

Lemma pow10_lt (a b : Z) : a < b -> (pow10 a < pow10 b)%Q.
Proof.
  intro H. apply Qlt_le_trans with (pow10 (a + 1)).
  - rewrite pow10_add. change (pow10 1) with 10%Q. pose proof (pow10_pos a). lra.
  - apply pow10_le. lia.
Qed.

Lemma pow10_lt_inv (a b : Z) : (pow10 a < pow10 b)%Q -> a < b.
Proof.
  intro H. destruct (Z_lt_le_dec a b) as [Hc|Hc]; [exact Hc|].
  pose proof (pow10_le b a Hc). lra.
Qed.

(** The exact decimal expansion of a double has its value. *)
Lemma expansion_value (m e : Z) :
  (Qval (expansion m e) == inject_Z m * pow2 e)%Q.
Proof.
  unfold expansion, Qval. destruct (0 <=? e) eqn:E; cbn [coef expo].
  - apply Z.leb_le in E. rewrite inject_Z_mult, <- pow2_nonneg by exact E.
    change (pow10 0) with 1%Q. ring.
  - apply Z.leb_gt in E. set (k := - e). assert (Hk : 0 <= k) by (unfold k; lia).
    replace e with (- k) by (unfold k; lia).
    rewrite inject_Z_mult, <- Qmult_assoc. apply Qmult_comp; [reflexivity|].
    assert (H5 : (inject_Z (5 ^ k) * pow2 k == pow10 k)%Q).
    { rewrite pow2_nonneg, pow10_nonneg, <- inject_Z_mult by exact Hk.
      rewrite <- Z.pow_mul_l. reflexivity. }
    rewrite <- (Qmult_1_r (inject_Z (5 ^ k))), <- (pow2_inv k).
    setoid_replace (inject_Z (5 ^ k) * (pow2 k * pow2 (- k)) * pow10 (- k))%Q
      with (inject_Z (5 ^ k) * pow2 k * pow10 (- k) * pow2 (- k))%Q by ring.
    rewrite H5, pow10_inv. ring.
Qed.

Lemma strip10_value (fuel : nat) :
  forall c e, (Qval (strip10 fuel c e) == Qval (mkDec c e))%Q.
Proof.
  induction fuel as [|fuel IH]; intros c e; cbn [strip10]; [reflexivity|].
  destruct ((e <? 0) && (c mod 10 =? 0)) eqn:E; [|reflexivity].
  apply andb_prop in E as [_ E]. apply Z.eqb_eq in E.
  rewrite IH.
  pose proof (Z.div_mod c 10 ltac:(lia)) as Hdm. rewrite E, Z.add_0_r in Hdm.
  rewrite Hdm at 2. rewrite (Z.mul_comm 10).
  change 10 with (10 ^ 1) at 3. rewrite Qval_pow by lia. reflexivity.
Qed.

Lemma canonical_value (d : Dec) : (Qval (canonical d) == Qval d)%Q.
Proof.
  unfold canonical. destruct (0 <=? expo d) eqn:E.
  - apply Z.leb_le in E. rewrite Qval_pow by exact E.
    destruct d as [c e]. cbn [coef expo]. now rewrite Z.add_0_l.
  - rewrite strip10_value. now destruct d.
Qed.

(** The reduced fraction of a decimal. *)
Lemma Qred_fraction (q : Q) :
  (inject_Z (Z.abs (Qnum (Qred q))) == Qabs q * inject_Z (Zpos (Qden (Qred q))))%Q.
Proof.
  rewrite <- (Qred_correct q) at 2.
  destruct (Qred q) as [n d]. cbn [Qnum Qden]. unfold Qabs.
  unfold Qeq. cbn. lia.
Qed.

Lemma Qnum_sgn (q : Q) : Z.sgn (Qnum (Qred q)) = Z.sgn (Qnum q).
Proof.
  pose proof (Qred_correct q) as H. unfold Qeq in H.
  destruct (Qred q) as [n d]. destruct q as [n' d']. cbn [Qnum Qden] in *.
  destruct n, n'; cbn in *; try reflexivity; lia.
Qed.

Lemma normal_range : (pow2 (-1022) <= pow10 (-307))%Q.
Proof. vm_compute. discriminate. Qed.

Lemma finite_range :
  (1000000000000000 * pow10 293 <= (4503599627370496 - (1 # 2)) * pow2 972)%Q.
Proof. vm_compute. discriminate. Qed.

(** A decimal of at most fifteen significant digits, well inside the range
    of binary64, comes back from [to_number] with its value: the double
    nearest to it is printed with the digits of the decimal. *)
Lemma to_number_decimal (c e : Z) :
  Z.abs c < 10 ^ 15 -> -307 <= e <= 293 ->
  exists d, to_number (Qval (mkDec c e)) = Finite d /\
            (Qval d == Qval (mkDec c e))%Q.
Proof.
  intros Hc He.
  destruct (Z.eq_dec c 0) as [->|Hc0].
  { exists (of_Z 0). split; [apply to_number_zero|].
    unfold Qval; cbn [coef expo of_Z]. change (inject_Z 0) with 0%Q. ring. }
  set (q := Qval (mkDec c e)).
  set (C := Z.abs c). assert (HC : 0 < C <= 999999999999999) by (unfold C; lia).
  set (T := pow10 e). pose proof (pow10_pos e) as HT. fold T in HT.
  set (v := (inject_Z C * T)%Q).
  assert (Hq : (Qabs q == v)%Q) by (unfold q; rewrite Qabs_Qval; reflexivity).
  assert (HC1 : (1 <= inject_Z C)%Q).
  { change 1%Q with (inject_Z 1). rewrite <- Zle_Qle. lia. }
  assert (HC2 : (inject_Z C <= 999999999999999)%Q).
  { change 999999999999999%Q with (inject_Z 999999999999999). rewrite <- Zle_Qle. lia. }
  assert (Hv1 : (T <= v)%Q).
  { unfold v. rewrite <- (Qmult_1_l T) at 1. apply Qmult_le_compat_r; lra. }
  assert (Hv2 : (v <= 999999999999999 * T)%Q).
  { unfold v. apply Qmult_le_compat_r; lra. }
  unfold to_number. fold q.
  set (r := Qred q). set (a := Z.abs (Qnum r)). set (b := Zpos (Qden r)).
  assert (Hab : (inject_Z a == v * inject_Z b)%Q) by (rewrite <- Hq; apply Qred_fraction).
  assert (Hb : 0 < b) by (unfold b; lia).
  assert (Ha : 0 < a).
  { pose proof (inject_Z_pos b Hb) as HB.
    assert (0 < v * inject_Z b)%Q by (apply Qmult_lt_0_compat; lra).
    rewrite <- Hab in H. change 0%Q with (inject_Z 0) in H.
    now rewrite <- Zlt_Qlt in H. }
  rewrite (proj2 (Z.eqb_neq a 0)) by lia.
  destruct (nearest a b) as [m e2] eqn:Hn.
  assert (Ht : nearest_decimal C e = (m, e2)).
  { destruct (nearest_decimal_fraction C e) as (a' & b' & Ha' & Hb' & -> & Hv'); [lia|].
    rewrite <- Hn. apply (nearest_fraction_value a' b' a b v); assumption. }
  destruct (nearest_decimal_spec C e m e2 ltac:(lia) Ht) as [Hnear Hnorm].
  fold T v in Hnear, Hnorm.
  assert (Hm : 2 ^ 52 <= m).
  { apply Hnorm. pose proof normal_range. pose proof (pow10_le (-307) e ltac:(lia)).
    fold T in H0. lra. }
  set (P := pow2 e2) in *. pose proof (pow2_pos e2) as HP. fold P in HP.
  assert (HmP : (4503599627370496 * P <= inject_Z m * P)%Q).
  { apply Qmult_le_compat_r; [|lra].
    change 4503599627370496%Q with (inject_Z (2 ^ 52)). now rewrite <- Zle_Qle. }
  set (dm := (inject_Z m * P)%Q) in *.
  apply Qabs_Qle_condition in Hnear. destruct Hnear as [Hn1 Hn2].
  assert (He2 : e2 <= 971).
  { destruct (Z_le_gt_dec e2 971) as [Hle|Hgt]; [exact Hle|exfalso].
    pose proof (pow2_le 972 e2 ltac:(lia)) as H1. fold P in H1.
    pose proof finite_range as H2.
    pose proof (pow10_le e 293 ltac:(lia)) as H3. fold T in H3.
    lra. }
  rewrite (proj2 (Z.eqb_neq m 0)) by lia.
  rewrite (proj2 (Z.ltb_ge 971 e2)) by lia.
  set (x := expansion m e2).
  pose proof (expansion_value m e2) as Hx. fold x P dm in Hx.
  set (M := coef x) in *. set (E := expo x) in *.
  unfold Qval in Hx. fold M E in Hx.
  assert (HM0 : 0 < M).
  { pose proof (pow10_pos E) as HE.
    destruct (Z_lt_le_dec 0 M) as [Hp|Hp]; [exact Hp|exfalso].
    assert (inject_Z M <= 0)%Q by (change 0%Q with (inject_Z 0); now rewrite <- Zle_Qle).
    assert (inject_Z M * pow10 E <= 0 * pow10 E)%Q by (apply Qmult_le_compat_r; lra).
    lra. }
  destruct (digit_chars_spec M ltac:(lia)) as (_ & _ & Hlen).
  specialize (Hlen HM0).
  set (len := Z.of_nat (length (digit_chars M))) in *.
  assert (Hlen1 : 1 <= len).
  { destruct (Z_le_gt_dec 1 len) as [Hl|Hl]; [exact Hl|exfalso].
    assert (len = 0) by (unfold len in *; lia).
    rewrite H in Hlen. change (10 ^ 0) with 1 in Hlen. lia. }
  set (G := pow10 (E + len - 1)).
  pose proof (pow10_pos (E + len - 1)) as HG. fold G in HG.
  assert (HG1 : (G <= dm)%Q).
  { rewrite <- Hx. unfold G.
    rewrite <- (pow10_shift (E + len - 1) E) by lia.
    replace (E + len - 1 - E) with (len - 1) by lia.
    apply Qmult_le_compat_r; [|apply Qlt_le_weak, pow10_pos].
    rewrite <- Zle_Qle. apply Hlen. }
  assert (HG2 : (dm < 10 * G)%Q).
  { rewrite <- Hx. unfold G.
    setoid_replace (10 * pow10 (E + len - 1))%Q with (inject_Z (10 ^ len) * pow10 E)%Q.
    - apply Qmult_lt_r; [apply pow10_pos|]. rewrite <- Zlt_Qlt. apply Hlen.
    - rewrite <- pow10_nonneg by lia. change 10%Q with (pow10 1).
      rewrite <- !pow10_add. now replace (1 + (E + len - 1)) with (len + E) by lia. }
  set (S := Z.min (E + len - 1) e).
  assert (HPS : (P < pow10 S)%Q).
  { unfold S. destruct (Z.min_spec (E + len - 1) e) as [[_ ->]|[_ ->]].
    - fold G. lra.
    - fold T. lra. }
  set (V := C * 10 ^ (e - S)).
  assert (HS1 : S <= e) by (unfold S; lia).
  assert (HS2 : S <= E + len - 1) by (unfold S; lia).
  assert (HV : (v == inject_Z V * pow10 S)%Q).
  { unfold v, V, T. now rewrite Qval_scaled by lia. }
  assert (HV0 : 0 < V).
  { unfold V. assert (0 < 10 ^ (e - S)) by (apply Z.pow_pos_nonneg; lia). nia. }
  assert (Hok : nearest_decimal V S = (m, e2)).
  { rewrite <- Ht. apply nearest_decimal_value; [exact HV0|lia|].
    rewrite <- HV. reflexivity. }
  assert (U : forall c' s', 0 < c' -> S <= s' -> nearest_decimal c' s' = (m, e2) ->
                            (inject_Z c' * pow10 s' == v)%Q).
  { intros c' s' Hc' Hs' Hn'.
    apply (same_double_same_value c' s' C e S m e2); try assumption. lia. }
  assert (Hclose : (Qabs (inject_Z M * pow10 E - v) < pow10 S)%Q).
  { rewrite Hx. apply Qabs_Qlt_condition. split; lra. }
  assert (Hkv : E + len - S - 1 < Z.of_nat 17).
  { change (Z.of_nat 17) with 17.
    unfold S. destruct (Z.min_spec (E + len - 1) e) as [[_ ->]|[_ ->]]; [lia|].
    assert (H : (G < pow10 (15 + e))%Q).
    { rewrite pow10_add. fold T. change (pow10 15) with 1000000000000000%Q.
      unfold S in HPS. lra. }
    apply pow10_lt_inv in H. lia. }
  pose proof (shortest_finds (m, e2) M E len S V v (proj1 Hlen) Hlen1 U Hclose HV Hok
                17%nat 1 ltac:(lia) ltac:(lia) Hkv) as Hsh.
  set (s := canonical (shortest 17 1 M E len (m, e2))).
  assert (Hs : (Qval s == v)%Q) by (unfold s; now rewrite canonical_value).
  eexists. split; [reflexivity|].
  unfold Qval in Hs |- *. cbn [coef expo].
  rewrite inject_Z_mult, <- Qmult_assoc, Hs.
  unfold r. rewrite Qnum_sgn. unfold q, Qval. cbn [coef expo].
  unfold v, C, T.
  assert (Esg : Z.sgn (Qnum (inject_Z c * pow10 e)) = Z.sgn c).
  { pose proof (pow10_pos e) as Hp. unfold Qlt in Hp. cbn in Hp.
    cbn [Qnum Qmult inject_Z]. rewrite Z.sgn_mul.
    rewrite (Z.sgn_pos (Qnum (pow10 e))) by lia. lia. }
  rewrite Esg, Qmult_assoc, <- inject_Z_mult.
  replace (Z.sgn c * Z.abs c) with c by (destruct c; reflexivity).
  reflexivity.
Qed.

(* ------------------------------------------------------------------ *)
(** ** Reading back what Number.prototype.toString prints *)

Lemma scan_sign_digit (c : ascii) (l : list ascii) :
  is_digit c = true -> scan_sign (c :: l) = (false, c :: l).
Proof.
  intro H. destruct c as [[] [] [] [] [] [] [] []];
    vm_compute in H; try discriminate H; reflexivity.
Qed.

Lemma scan_sign_signed (neg : bool) (c : ascii) (l : list ascii) :
  is_digit c = true ->
  scan_sign ((if neg then ["-"%char] else []) ++ c :: l) = (neg, c :: l).
Proof. intro H. destruct neg; [reflexivity | now apply scan_sign_digit]. Qed.

Lemma span_digits_app (ds rest : list ascii) :
  forallb is_digit ds = true ->
  match rest with [] => True | c :: _ => is_digit c = false end ->
  span_digits (ds ++ rest) = (ds, rest).
Proof.
  intros Hd Hr. induction ds as [|c ds IH]; cbn [app span_digits].
  - destruct rest as [|c r]; [reflexivity|]. cbn [span_digits]. now rewrite Hr.
  - cbn [forallb] in Hd. apply andb_prop in Hd as [Hc Hd].
    now rewrite Hc, (IH Hd).
Qed.

Lemma span_digits_all (ds : list ascii) :
  forallb is_digit ds = true -> span_digits ds = (ds, []).
Proof.
  intro H. rewrite <- (app_nil_r ds) at 1. now apply span_digits_app.
Qed.

(** Scanning a sign, integer digits and an optional fraction. *)
Lemma scan_plain (neg dot : bool) (i f : list ascii) :
  forallb is_digit i = true -> forallb is_digit f = true -> i <> [] ->
  scan ((if neg then ["-"%char] else []) ++ i ++ (if dot then "."%char :: f else []))
  = Some (mkNumeral neg i dot (if dot then f else []) None).
Proof.
  intros Hi Hf Hne. unfold scan.
  assert (Hs : scan_sign ((if neg then ["-"%char] else [])
                            ++ i ++ (if dot then "."%char :: f else []))
               = (neg, i ++ (if dot then "."%char :: f else []))).
  { destruct neg; [reflexivity|]. cbn [app].
    destruct i as [|c i]; [congruence|].
    cbn [forallb] in Hi. apply andb_prop in Hi as [Hc _].
    cbn [app]. now apply scan_sign_digit. }
  rewrite Hs. rewrite (span_digits_app i); [|exact Hi|now destruct dot].
  destruct dot.
  - rewrite (span_digits_all f Hf). reflexivity.
  - reflexivity.
Qed.

Lemma scan_integer (neg : bool) (i : list ascii) :
  forallb is_digit i = true -> i <> [] ->
  scan ((if neg then ["-"%char] else []) ++ i) = Some (mkNumeral neg i false [] None).
Proof.
  intros Hi Hne. pose proof (scan_plain neg false i [] Hi eq_refl Hne) as H.
  now rewrite app_nil_r in H.
Qed.

Lemma scan_fraction (neg : bool) (i f : list ascii) :
  forallb is_digit i = true -> forallb is_digit f = true -> i <> [] ->
  scan ((if neg then ["-"%char] else []) ++ i ++ "."%char :: f)
  = Some (mkNumeral neg i true f None).
Proof. intros Hi Hf Hne. exact (scan_plain neg true i f Hi Hf Hne). Qed.

Lemma scan_exp_e (l : list ascii) : scan_exp ("e"%char :: l) <> Some None.
Proof.
  unfold scan_exp. change (is_e "e") with true. cbv iota.
  destruct (scan_sign l) as [sg r1]. destruct (span_digits r1) as [ds rest].
  destruct (nonempty ds && negb (nonempty rest)); discriminate.
Qed.

Lemma signed_mul (neg : bool) (v w : Z) :
  (if neg then - (v * w) else v * w) = (if neg then - v else v) * w.
Proof. destruct neg; lia. Qed.

Lemma coef_signed (c : Z) : c = if c <? 0 then - Z.abs c else Z.abs c.
Proof. destruct (c <? 0) eqn:E; [apply Z.ltb_lt in E | apply Z.ltb_ge in E]; lia. Qed.

(** A number printed without exponent scans as a plain numeral of the same
    sign and value. *)
Lemma number_toString_plain (x : number) :
  plain_position x = true ->
  exists nm,
    scan (list_ascii_of_string (number_toString x)) = Some nm /\
    nexp nm = None /\
    (if ndot nm then nonempty (nfrac nm) else nonempty (nint nm)) = true /\
    numeral_has_digit nm = true /\
    (Qval (numeral_value nm) == Qval x)%Q.
Proof.
  unfold plain_position, number_toString, position.
  destruct (coef x =? 0) eqn:E0.
  { intros _. apply Z.eqb_eq in E0.
    exists (mkNumeral false ["0"%char] false [] None).
    repeat split. unfold Qval. cbn [numeral_value coef expo nneg nint nfrac app].
    rewrite E0. change (digits_val ["0"%char]) with 0. ring. }
  apply Z.eqb_neq in E0. cbn [orb]. intro Hplain.
  apply andb_prop in Hplain as [Hlo Hhi].
  apply Z.ltb_lt in Hlo. apply Z.leb_le in Hhi.
  rewrite list_ascii_of_string_of_list_ascii.
  assert (Ha : 0 < Z.abs (coef x)) by lia.
  destruct (significant_digits _ Ha) as (Hne & Hdig & Hlen & Hval).
  set (all := digit_chars (Z.abs (coef x))) in *.
  set (s := strip_trailing_zeros all) in *.
  set (k := Z.of_nat (length s)) in *.
  set (n := Z.of_nat (length all) + expo x) in *.
  set (neg := coef x <? 0).
  assert (Hk : 1 <= k).
  { unfold k. destruct s; [congruence | cbn [length]; lia]. }
  assert (Hx : (Qval x == Qval (mkDec (if neg then - digits_val s else digits_val s)
                                      (n - k)))%Q).
  { replace (n - k) with (expo x + (Z.of_nat (length all) - k)) by (unfold n; lia).
    rewrite <- Qval_pow by (unfold k; lia).
    rewrite <- signed_mul, <- Hval. unfold neg. rewrite <- coef_signed.
    now destruct x. }
  change (if coef x <? 0 then ["-"%char] else []) with (if neg then ["-"%char] else []).
  destruct ((k <=? n) && (n <=? 21)) eqn:C1.
  { apply andb_prop in C1 as [C1 _]. apply Z.leb_le in C1.
    rewrite scan_integer.
    - eexists. split; [reflexivity|]. unfold numeral_has_digit. cbn [nexp ndot nint nfrac].
      assert (Hne' : nonempty (s ++ repeat "0"%char (Z.to_nat (n - k))) = true)
        by (apply nonempty_true; now destruct s).
      rewrite Hne'. repeat split.
      rewrite Hx. unfold numeral_value. cbn [nneg nint nfrac nexp length].
      rewrite app_nil_r, digits_val_app, digits_val_zeros, repeat_length,
        Z2Nat.id, Z.add_0_r by lia.
      rewrite signed_mul, Qval_pow by lia.
      now replace (0 - Z.of_nat 0 + (n - k)) with (n - k) by lia.
    - rewrite forallb_app, Hdig. now apply forallb_repeat.
    - now destruct s. }
  destruct ((0 <? n) && (n <=? 21)) eqn:C2.
  { apply andb_prop in C2 as [C2 _]. apply Z.ltb_lt in C2.
    apply andb_false_iff in C1.
    assert (Hnk : n < k) by (destruct C1 as [C1|C1]; [apply Z.leb_gt in C1 | apply Z.leb_gt in C1]; lia).
    rewrite scan_fraction.
    - eexists. split; [reflexivity|]. unfold numeral_has_digit. cbn [nexp ndot nint nfrac].
      assert (Hsk : nonempty (skipn (Z.to_nat n) s) = true).
      { apply nonempty_true. intro E. apply (f_equal (@length ascii)) in E.
        rewrite length_skipn in E. cbn [length] in E. unfold k in Hnk. lia. }
      rewrite Hsk, orb_true_r. repeat split.
      rewrite Hx. unfold numeral_value. cbn [nneg nint nfrac nexp].
      rewrite firstn_skipn, length_skipn.
      replace (0 - Z.of_nat (length s - Z.to_nat n)) with (n - k) by (unfold k; lia).
      reflexivity.
    - now apply forallb_firstn.
    - now apply forallb_skipn.
    - apply firstn_nonempty; [lia | exact Hne]. }
  destruct ((-6 <? n) && (n <=? 0)) eqn:C3.
  { apply andb_prop in C3 as [_ C3]. apply Z.leb_le in C3.
    change ("0"%char :: "."%char :: repeat "0"%char (Z.to_nat (- n)) ++ s)
      with (["0"%char] ++ "."%char :: repeat "0"%char (Z.to_nat (- n)) ++ s).
    rewrite (scan_fraction neg ["0"%char]).
    - eexists. split; [reflexivity|]. unfold numeral_has_digit. cbn [nexp ndot nint nfrac].
      assert (Hfr : nonempty (repeat "0"%char (Z.to_nat (- n)) ++ s) = true).
      { apply nonempty_true. intro E. apply app_eq_nil in E as [_ E]. congruence. }
      rewrite Hfr. repeat split.
      rewrite Hx. unfold numeral_value. cbn [nneg nint nfrac nexp].
      rewrite !digits_val_app, digits_val_zeros, length_app, repeat_length.
      change (digits_val ["0"%char]) with 0.
      replace (0 - Z.of_nat (Z.to_nat (- n) + length s)) with (n - k) by (unfold k; lia).
      now rewrite !Z.mul_0_l, !Z.add_0_l.
    - reflexivity.
    - rewrite forallb_app, Hdig. now rewrite forallb_repeat.
    - discriminate. }
  exfalso.
  apply andb_false_iff in C2. apply andb_false_iff in C3.
  destruct C2 as [C2|C2], C3 as [C3|C3];
    try apply Z.ltb_ge in C2; try apply Z.leb_gt in C2;
    try apply Z.ltb_ge in C3; try apply Z.leb_gt in C3; lia.
Qed.

(** A number printed with an exponent is not a plain numeral. *)
Lemma number_toString_exponent (x : number) :
  plain_position x = false -> isNumeric (number_toString x) = false.
Proof.
  unfold plain_position, number_toString, position, isNumeric.
  destruct (coef x =? 0) eqn:E0; [discriminate|].
  apply Z.eqb_neq in E0. cbn [orb]. intro Hplain.
  rewrite list_ascii_of_string_of_list_ascii.
  assert (Ha : 0 < Z.abs (coef x)) by lia.
  destruct (significant_digits _ Ha) as (Hne & Hdig & Hlen & _).
  set (all := digit_chars (Z.abs (coef x))) in *.
  set (s := strip_trailing_zeros all) in *.
  set (k := Z.of_nat (length s)) in *.
  set (n := Z.of_nat (length all) + expo x) in *.
  assert (Hk : 1 <= k).
  { unfold k. destruct s; [congruence | cbn [length]; lia]. }
  assert (Hn : n <= -6 \/ 21 < n).
  { apply andb_false_iff in Hplain as [H|H];
      [apply Z.ltb_ge in H | apply Z.leb_gt in H]; lia. }
  assert (C1 : (k <=? n) && (n <=? 21) = false).
  { apply andb_false_iff. destruct Hn; [left; apply Z.leb_gt | right; apply Z.leb_gt]; lia. }
  assert (C2 : (0 <? n) && (n <=? 21) = false).
  { apply andb_false_iff. destruct Hn; [left; apply Z.ltb_ge | right; apply Z.leb_gt]; lia. }
  assert (C3 : (-6 <? n) && (n <=? 0) = false).
  { apply andb_false_iff. destruct Hn; [left; apply Z.ltb_ge | right; apply Z.leb_gt]; lia. }
  rewrite C1, C2, C3.
  set (es := (if n - 1 <? 0 then "-"%char else "+"%char) :: digit_chars (Z.abs (n - 1))).
  destruct s as [|d [|d' r]]; [congruence| |].
  - cbn [forallb] in Hdig. apply andb_prop in Hdig as [Hd _].
    unfold scan. rewrite (scan_sign_signed _ d _ Hd).
    assert (Hsp : span_digits (d :: "e"%char :: es) = ([d], "e"%char :: es)).
    { apply (span_digits_app [d]); [cbn; now rewrite Hd | reflexivity]. }
    rewrite Hsp.
    pose proof (scan_exp_e es) as He.
    destruct (scan_exp ("e"%char :: es)) as [[e|]|]; [reflexivity|congruence|reflexivity].
  - cbn [forallb] in Hdig. apply andb_prop in Hdig as [Hd Hr].
    unfold scan. rewrite (scan_sign_signed _ d _ Hd).
    assert (Hsp : span_digits (d :: "."%char :: (d' :: r) ++ "e"%char :: es)
                  = ([d], "."%char :: (d' :: r) ++ "e"%char :: es)).
    { apply (span_digits_app [d]); [cbn; now rewrite Hd | reflexivity]. }
    rewrite Hsp.
    rewrite (span_digits_app (d' :: r) ("e"%char :: es)); [|exact Hr|reflexivity].
    pose proof (scan_exp_e es) as He.
    destruct (scan_exp ("e"%char :: es)) as [[e|]|]; [reflexivity|congruence|reflexivity].
Qed.

(** [isNumeric] accepts exactly the numbers printed without exponent. *)
Lemma isNumeric_number (x : number) :
  isNumeric (number_toString x) = plain_position x.
Proof.
  destruct (plain_position x) eqn:E.
  - destruct (number_toString_plain x E) as (nm & Hs & He & Hd & _).
    unfold isNumeric. now rewrite Hs, He.
  - now apply number_toString_exponent.
Qed.

(** decimal.js reads a number through its string form; for the numbers the
    validator lets through, that gives back the value of the number. *)
Lemma new_Decimal_number_string (x : number) :
  plain_position x = true ->
  exists d, new_Decimal (JStr (number_toString x)) = Return d /\
            (Qval d == Qval x)%Q.
Proof.
  intro E. destruct (number_toString_plain x E) as (nm & Hs & He & Hd & _ & Hv).
  exists (numeral_value nm). split; [|exact Hv].
  unfold new_Decimal. rewrite Hs.
  destruct (ndot nm); rewrite Hd; [rewrite orb_true_r|]; reflexivity.
Qed.

Lemma Qle_bool_Qeq_r (a q q' : Q) : (q == q')%Q -> Qle_bool a q = Qle_bool a q'.
Proof.
  intro H. destruct (Qle_bool a q') eqn:E.
  - apply Qle_bool_iff. rewrite H. now apply Qle_bool_iff.
  - apply not_true_iff_false. intro E'. apply Qle_bool_iff in E'.
    rewrite H in E'. apply Qle_bool_iff in E'. congruence.
Qed.

(** [isFloat({ min: 0 })] tests the value against [- tiny]. *)
Lemma isFloat_value (s : string) (nm : numeral) :
  scan (list_ascii_of_string s) = Some nm ->
  numeral_has_digit nm = true ->
  isFloat 0 s = Qle_bool (- tiny) (Qval (numeral_value nm)).
Proof.
  intros Hs Hh. unfold isFloat, parseFloat. rewrite Hs, Hh.
  apply to_number_geb.
Qed.

(** No number that is printed without exponent lies between [- tiny] and 0. *)
Lemma plain_sign (x : number) :
  in_plain_range x = true -> Qle_bool (- tiny) (Qval x) = Qle_bool 0 (Qval x).
Proof.
  intro H. destruct (Qle_bool 0 (Qval x)) eqn:E.
  - apply Qle_bool_iff. apply Qle_bool_iff in E.
    apply Qle_trans with 0%Q; [|exact E]. vm_compute. discriminate.
  - apply not_true_iff_false. intro E'. apply Qle_bool_iff in E'.
    assert (Hn : (Qval x < 0)%Q).
    { apply Qnot_le_lt. intro H0. apply Qle_bool_iff in H0. congruence. }
    unfold in_plain_range in H. apply orb_true_iff in H. destruct H as [H|H].
    + apply Qeq_bool_iff in H. rewrite H in Hn. now apply Qlt_irrefl in Hn.
    + apply andb_true_iff in H. destruct H as [H _]. apply Qle_bool_iff in H.
      rewrite Qabs_neg in H by now apply Qlt_le_weak.
      assert (Ht : (tiny < pow10 (-6))%Q) by (vm_compute; reflexivity).
      assert (Hc : (pow10 (-6) <= tiny)%Q).
      { apply Qle_trans with (- Qval x)%Q; [exact H|].
        apply Qopp_le_compat in E'. now rewrite Qopp_involutive in E'. }
      apply (Qlt_irrefl tiny). now apply Qlt_le_trans with (pow10 (-6)).
Qed.

(** For those numbers [isFloat({ min: 0 })] tests the sign of the value. *)
Lemma isFloat_number (x : number) :
  plain_position x = true ->
  isFloat 0 (number_toString x) = Qle_bool 0 (Qval x).
Proof.
  intro E. destruct (number_toString_plain x E) as (nm & Hs & _ & _ & Hh & Hv).
  rewrite (isFloat_value _ nm Hs Hh), (Qle_bool_Qeq_r _ _ _ Hv).
  apply plain_sign. now rewrite <- plain_position_range.
Qed.

(* ------------------------------------------------------------------ *)
(** ** The loop *)

Lemma convertible_inv (t : jsval) :
  convertible t = true ->
  exists a, new_Decimal (amount_of t) = Return a /\
            decimal_value (amount_of t) = Qval a /\
            destructure "type" "amount" "transaction" t = Return (type_of t, amount_of t).
Proof.
  unfold convertible, decimal_value. intro H.
  destruct (new_Decimal (amount_of t)) as [a|e] eqn:E; [|discriminate].
  exists a. repeat split.
  destruct t; try reflexivity; discriminate.
Qed.

Lemma kinds_exclusive (t : jsval) : is_credit t = true -> is_debit t = false.
Proof.
  unfold is_credit, is_debit, strict_eq_string.
  destruct (type_of t); try discriminate.
  intro E. apply String.eqb_eq in E. now subst.
Qed.

Lemma process_credit_debit (d a : Decimal) (t : jsval) :
  new_Decimal (amount_of t) = Return a ->
  (is_credit t = true -> process d t = Return (plus d a)) /\
  (is_debit t = true -> process d t = Return (minus d a)).
Proof.
  intro Ha.
  assert (Hc : convertible t = true) by (unfold convertible; now rewrite Ha).
  destruct (convertible_inv t Hc) as (_ & _ & _ & Hx).
  unfold process. rewrite Hx. cbn [bind fst snd]. rewrite Ha. cbn [bind].
  split; intro H.
  - unfold is_credit in H. now rewrite H.
  - pose proof H as H'. unfold is_debit in H'. rewrite H'.
    destruct (strict_eq_string (type_of t) "credit") eqn:E; [|reflexivity].
    fold (is_credit t) in E. rewrite (kinds_exclusive t E) in H. discriminate.
Qed.

(** One turn of the loop computes the exact update when it fits. *)
Lemma process_exact (b : Decimal) (t : jsval) :
  convertible t = true ->
  fits (Qval b + signed_amount t) ->
  exists b', process b t = Return b' /\ (Qval b' == Qval b + signed_amount t)%Q.
Proof.
  intros Hc Hfit.
  destruct (convertible_inv t Hc) as (a & Ha & Hv & Hd).
  unfold process. rewrite Hd. cbn [bind fst snd]. rewrite Ha. cbn [bind].
  unfold signed_amount, is_credit, is_debit in *. rewrite Hv in *.
  destruct (strict_eq_string (type_of t) "credit").
  - eexists. split; [reflexivity|]. now apply Qval_plus.
  - destruct (strict_eq_string (type_of t) "debit").
    + eexists. split; [reflexivity|]. now apply Qval_minus.
    + eexists. split; [reflexivity|]. ring.
Qed.

Lemma net_cons (t : jsval) (l : list jsval) :
  net (t :: l) = (signed_amount t + net l)%Q.
Proof. reflexivity. Qed.

Lemma net_app (l1 l2 : list jsval) : (net (l1 ++ l2) == net l1 + net l2)%Q.
Proof.
  induction l1 as [|t l1 IH]; cbn [app].
  - unfold net at 2; cbn [fold_right]. ring.
  - rewrite !net_cons, IH. ring.
Qed.

Lemma process_all_exact (l : list jsval) :
  forall b : Decimal,
    forallb convertible l = true ->
    within_precision (Qval b) l ->
    exists b', process_all b l = Return b' /\ (Qval b' == Qval b + net l)%Q.
Proof.
  induction l as [|t l IH]; intros b Hc Hw; cbn [process_all].
  - exists b. split; [reflexivity | unfold net; cbn [fold_right]; ring].
  - cbn [forallb] in Hc. apply andb_prop in Hc as [Hct Hcl].
    unfold within_precision in Hw. cbn [running_balances] in Hw.
    apply Forall_cons_iff in Hw as [Hfit Hw].
    destruct (process_exact b t Hct Hfit) as (b1 & Hb1 & Hq1).
    rewrite Hb1. cbn [bind].
    destruct (IH b1 Hcl) as (b' & Hb' & Hq').
    { unfold within_precision.
      revert Hw. generalize (Qval b + signed_amount t)%Q (Qval b1) Hq1.
      clear. intros q q'. revert q q'.
      induction l as [|u l IH]; intros q q' Hq Hw; cbn [running_balances] in *.
      - constructor.
      - apply Forall_cons_iff in Hw as [H1 H2]. constructor.
        + destruct H1 as (c & e & Hc & He). exists c, e. split; [exact Hc|].
          now rewrite Hq.
        + apply (IH (q + signed_amount u)%Q); [now rewrite Hq | exact H2]. }
    exists b'. split; [exact Hb'|].
    change (net (t :: l)) with (signed_amount t + net l)%Q.
    rewrite Hq', Hq1. ring.
Qed.

Lemma net_credits_debits (l : list jsval) :
  forallb (fun t => is_credit t || is_debit t) l = true ->
  (net l == sum_amounts is_credit l - sum_amounts is_debit l)%Q.
Proof.
  induction l as [|t l IH]; intro H.
  - unfold net, sum_amounts; cbn [fold_right]. ring.
  - cbn [forallb] in H. apply andb_prop in H as [Ht Hl]. specialize (IH Hl).
    change (net (t :: l)) with (signed_amount t + net l)%Q.
    change (sum_amounts is_credit (t :: l))
      with (if is_credit t then (decimal_value (amount_of t) + sum_amounts is_credit l)%Q
            else sum_amounts is_credit l).
    change (sum_amounts is_debit (t :: l))
      with (if is_debit t then (decimal_value (amount_of t) + sum_amounts is_debit l)%Q
            else sum_amounts is_debit l).
    rewrite IH. unfold signed_amount.
    assert (Hex : is_credit t = true -> is_debit t = false).
    { unfold is_credit, is_debit, strict_eq_string.
      destruct (type_of t); try discriminate.
      intro E. apply String.eqb_eq in E. now subst. }
    destruct (is_credit t) eqn:Ec.
    + rewrite (Hex eq_refl). ring.
    + destruct (is_debit t); [ring | discriminate].
Qed.

Lemma process_all_app (l1 l2 : list jsval) :
  forall b, process_all b (l1 ++ l2) = (b' <- process_all b l1 ;; process_all b' l2).
Proof.
  induction l1 as [|t l1 IH]; intro b; cbn [app process_all bind].
  - reflexivity.
  - destruct (process b t) as [b1|e]; cbn [bind]; [apply IH | reflexivity].
Qed.

(** The loop is total on transactions whose amounts [new Decimal] accepts. *)
Lemma process_all_returns (l : list jsval) :
  forall b, forallb convertible l = true -> exists b', process_all b l = Return b'.
Proof.
  induction l as [|t l IH]; intros b H; cbn [process_all forallb] in *.
  - eauto.
  - apply andb_prop in H as [Ht Hl].
    destruct (convertible_inv t Ht) as (a & Ha & _ & Hd).
    unfold process. rewrite Hd. cbn [bind fst snd]. rewrite Ha. cbn [bind].
    destruct (strict_eq_string (type_of t) "credit");
      [|destruct (strict_eq_string (type_of t) "debit")]; cbn [bind]; now apply IH.
Qed.

(** The loop is the left fold of [process] over the array, in array order. *)
Lemma process_all_fold_left (l : list jsval) :
  forall acc : result Decimal,
    (b <- acc ;; process_all b l)
    = fold_left (fun acc t => b <- acc ;; process b t) l acc.
Proof.
  induction l as [|t l IH]; intro acc; cbn [fold_left process_all].
  - now destruct acc.
  - rewrite <- IH. destruct acc as [b|e]; cbn [bind]; reflexivity.
Qed.

(* ------------------------------------------------------------------ *)
(** ** The route *)

Lemma dispatch_chains (cs : list ValidationChain) (rest : list middleware) :
  forall b errs,
    dispatch (map chain_middleware cs ++ rest) (mkRequest b errs)
    = if existsb (fun c => chain_throws c b) cs then None
      else dispatch rest (mkRequest b (errs ++ flat_map (fun c => run_chain c b) cs)).
Proof.
  induction cs as [|c cs IH]; intros b errs; cbn [map app dispatch flat_map existsb].
  - now rewrite app_nil_r.
  - unfold chain_middleware at 1. cbn [body errors].
    destruct (chain_throws c b); cbn [orb]; [reflexivity|].
    rewrite IH. now rewrite <- app_assoc.
Qed.

(** The route does not answer when a check throws; it answers 400 on any
    recorded error, and otherwise hands the request to its last handler. *)
Lemma dispatch_route (h : middleware) (b : jsval) :
  dispatch (route h) (mkRequest b [])
  = match validation_errors b with
    | Throw _ => None
    | Return ds =>
        if nonempty ds then
          Some (mkResponse 400
            (ErrorBody (mkErrorResponse "Validation failed" None (Some ds))))
        else match h (mkRequest b ds) with
             | Respond res => Some res
             | _ => None
             end
    end.
Proof.
  unfold route. rewrite dispatch_chains. cbn [app].
  unfold validation_errors. fold (validation_throws b). fold (recorded_errors b).
  destruct (validation_throws b); [reflexivity|].
  cbn [dispatch]. unfold handleValidationErrors at 1. cbn [errors].
  destruct (nonempty (recorded_errors b)); [reflexivity|].
  cbn [dispatch]. now destruct (h _).
Qed.

Lemma handler_responds (req : Request) :
  handler req =
  Respond match calculate (body req) with
          | Return r => mkResponse 200 (BalanceBody r)
          | Throw (ErrorObject m) =>
              mkResponse 500
                (ErrorBody (mkErrorResponse "Internal server error" (Some m) None))
          | Throw (Thrown _) =>
              mkResponse 500
                (ErrorBody (mkErrorResponse "Internal server error"
                              (Some "Unknown error") None))
          end.
Proof.
  unfold handler. destruct (calculate (body req)) as [r|[m|v]]; reflexivity.
Qed.

(** What the route answers, by the outcome of the validation. *)
Lemma post_refused (b : jsval) (ds : list ValidationError) :
  validation_errors b = Return ds -> ds <> [] ->
  forall h, is400 (dispatch (route h) (mkRequest b [])) ds.
Proof.
  intros H Hn h. unfold is400. rewrite dispatch_route, H.
  destruct ds; [congruence|reflexivity].
Qed.

Lemma post_accepted (b : jsval) :
  validation_errors b = Return [] ->
  post_calculate_balance b
  = Some match calculate b with
         | Return r => mkResponse 200 (BalanceBody r)
         | Throw (ErrorObject m) =>
             mkResponse 500
               (ErrorBody (mkErrorResponse "Internal server error" (Some m) None))
         | Throw (Thrown _) =>
             mkResponse 500
               (ErrorBody (mkErrorResponse "Internal server error"
                             (Some "Unknown error") None))
         end.
Proof.
  intro H. unfold post_calculate_balance. rewrite dispatch_route, H.
  cbn [nonempty]. now rewrite handler_responds.
Qed.

(** A 200 answer carries the result of a completed computation. *)
Lemma post_200_inv (b : jsval) (r : CalculateBalanceResponse) :
  is200 (post_calculate_balance b) r -> calculate b = Return r.
Proof.
  unfold is200, post_calculate_balance. rewrite dispatch_route.
  destruct (validation_errors b) as [ds|]; [|discriminate].
  destruct (nonempty ds); [discriminate|].
  rewrite handler_responds. cbn [body].
  destruct (calculate b) as [r'|[m|v]]; intro H; now inversion H.
Qed.

(** The balance of a computed result is a number read off a [Decimal], and
    its status is read off the sign of that number. *)
Lemma calculate_status (b : jsval) (r : CalculateBalanceResponse) :
  calculate b = Return r ->
  (exists d, finalBalance r = toNumber d) /\
  status r = (if number_geb (finalBalance r) (Finite (of_Z 0)) then 1 else 2).
Proof.
  unfold calculate.
  destruct (destructure "initialBalance" "transactions" "req.body" b) as [it|]; [|discriminate].
  cbn [bind]. destruct (new_Decimal (fst it)) as [d0|]; [|discriminate].
  cbn [bind]. destruct (iterate (snd it)) as [l|]; [|discriminate].
  cbn [bind]. destruct (process_all d0 l) as [d|]; [|discriminate].
  cbn [bind]. intro H. injection H as <-. split; [now exists d|reflexivity].
Qed.

Lemma item_errors_cons b name prop r i t l :
  item_errors b name prop r i (t :: l)
  = run_rule (fst (select_below b (name ++ "[" ++ nat_string i ++ "]")%string prop t))
             (snd (select_below b (name ++ "[" ++ nat_string i ++ "]")%string prop t)) r
    ++ item_errors b name prop r (S i) l.
Proof. reflexivity. Qed.

(** The recorded errors, chain by chain and rule by rule. *)
Lemma recorded_errors_eq (b : jsval) :
  recorded_errors b
  = map (mkError "body" "initialBalance" "initialBalance must be a number")
        (refused IsNumeric (initialBalance_of b))
    ++ (map (mkError "body" "transactions" "transactions must be an array")
            (refused IsArray (get_prop b "transactions"))
        ++ map (mkError "body" "transactions" "transactions array cannot be empty")
               (refused NotEmpty (get_prop b "transactions")))
    ++ match get_prop b "transactions" with
       | JArr l => item_errors b "transactions" "type" type_rule 0 l
                   ++ item_errors b "transactions" "amount" numeric_rule 0 l
                   ++ item_errors b "transactions" "amount" float_rule 0 l
       | JObj fs =>
           flat_map (fun pv => run_rule (fst pv) (snd pv) type_rule)
             (map (fun kv => select_below b (key_path "transactions" (fst kv))
                               "type" (snd kv)) fs)
           ++ flat_map (fun pv => run_rule (fst pv) (snd pv) numeric_rule)
                (map (fun kv => select_below b (key_path "transactions" (fst kv))
                                  "amount" (snd kv)) fs)
           ++ flat_map (fun pv => run_rule (fst pv) (snd pv) float_rule)
                (map (fun kv => select_below b (key_path "transactions" (fst kv))
                                  "amount" (snd kv)) fs)
       | _ => []
       end.
Proof.
  unfold recorded_errors, calculateBalanceValidation. cbn [flat_map].
  unfold run_chain. cbn [fields rules select flat_map fst snd].
  unfold run_rule at 1 2 3. cbn [check withMessage].
  fold (initialBalance_of b). rewrite !app_nil_r.
  f_equal. f_equal.
  destruct (get_prop b "transactions"); reflexivity.
Qed.

Lemma in_run_chain (c : ValidationChain) (b : jsval) pv r x :
  In pv (select (fields c) b) -> In r (rules c) -> In x (refused (check r) (snd pv)) ->
  In (mkError "body" (fst pv) (withMessage r) x) (run_chain c b).
Proof.
  intros Hpv Hr Hx. unfold run_chain.
  apply in_flat_map. exists r. split; [exact Hr|].
  apply in_flat_map. exists pv. split; [exact Hpv|].
  unfold run_rule. now apply in_map.
Qed.

(* ------------------------------------------------------------------ *)
(** ** Ordinary bodies *)

Lemma list_ascii_of_string_app (a b : string) :
  list_ascii_of_string (a ++ b) = list_ascii_of_string a ++ list_ascii_of_string b.
Proof. induction a as [|c a IH]; cbn; [reflexivity|now rewrite IH]. Qed.

Lemma path_like_app (a b : string) : path_like (a ++ b) = path_like a || path_like b.
Proof. unfold path_like. now rewrite list_ascii_of_string_app, existsb_app. Qed.

Lemma has_key_path_like (p : string) (fs : list (string * jsval)) :
  forallb (fun kv => negb (path_like (fst kv))) fs = true ->
  path_like p = true -> has_key p fs = false.
Proof.
  induction fs as [|[k v] fs IH]; cbn [forallb has_key fst]; [reflexivity|].
  intros H Hp. apply andb_prop in H as [Hk Hr]. rewrite (IH Hr Hp), orb_false_r.
  destruct (String.eqb p k) eqn:E; [|reflexivity].
  apply String.eqb_eq in E. subst. rewrite Hp in Hk. discriminate.
Qed.

(** In an ordinary body a field is read at its path. *)
Lemma get_path_ordinary (b : jsval) (p : string) (v : jsval) :
  ordinary b = true -> path_like p = true -> get_path b p v = v.
Proof.
  unfold ordinary, get_path. destruct b; try reflexivity.
  intros H Hp. apply andb_prop in H as [_ H].
  now rewrite (has_key_path_like _ _ H Hp).
Qed.

Lemma select_below_ordinary (b : jsval) (p prop : string) (e : jsval) :
  ordinary b = true ->
  select_below b p prop e = ((p ++ "." ++ prop)%string, get_prop e prop).
Proof.
  intro H. unfold select_below. rewrite get_path_ordinary; [reflexivity|exact H|].
  rewrite path_like_app. apply orb_true_iff. right. reflexivity.
Qed.

Lemma item_errors_ordinary b name prop r i t l :
  ordinary b = true ->
  item_errors b name prop r i (t :: l)
  = run_rule ((name ++ "[" ++ nat_string i ++ "]") ++ "." ++ prop)%string
             (get_prop t prop) r
    ++ item_errors b name prop r (S i) l.
Proof. intro H. rewrite item_errors_cons. now rewrite select_below_ordinary. Qed.

Lemma plain_data_cons (k : string) (x : jsval) (fs : list (string * jsval)) :
  plain_data (JObj ((k, x) :: fs))
  = negb (printing_name k) && plain_data x && plain_data (JObj fs).
Proof. reflexivity. Qed.

Lemma plain_data_lookup (k : string) (fs : list (string * jsval)) :
  plain_data (JObj fs) = true -> plain_data (lookup k fs) = true.
Proof.
  induction fs as [|[k' v] fs IH]; [reflexivity|].
  rewrite plain_data_cons. intro H.
  apply andb_prop in H as [H Hr]. apply andb_prop in H as [_ Hv].
  cbn [lookup]. destruct (String.eqb k k'); [exact Hv|now apply IH].
Qed.

Lemma plain_data_get_prop (v : jsval) (k : string) :
  plain_data v = true -> plain_data (get_prop v k) = true.
Proof. destruct v; try reflexivity. apply plain_data_lookup. Qed.

Lemma plain_data_get_path (b : jsval) (p : string) (v : jsval) :
  plain_data b = true -> plain_data v = true -> plain_data (get_path b p v) = true.
Proof.
  intros Hb Hv. unfold get_path. destruct b; try exact Hv.
  destruct (has_key p fields0); [now apply plain_data_lookup|exact Hv].
Qed.

Lemma plain_no_toString_key (fs : list (string * jsval)) :
  plain_data (JObj fs) = true -> has_key "toString" fs = false.
Proof.
  induction fs as [|[k v] fs IH]; [reflexivity|].
  rewrite plain_data_cons. intro H.
  apply andb_prop in H as [H Hr]. apply andb_prop in H as [Hk _].
  cbn [has_key]. rewrite (IH Hr), orb_false_r.
  unfold printing_name in Hk. apply negb_true_iff, orb_false_iff in Hk.
  destruct Hk as [Hk _]. rewrite String.eqb_sym. exact Hk.
Qed.

(** Plain data is printed without an exception. *)
Lemma plain_prints : forall v : jsval, plain_data v = true -> String_throws v = false.
Proof.
  fix IH 1. intros [| | | | |l|fs] H; try reflexivity.
  - cbn [String_throws]. cbn [plain_data] in H.
    induction l as [|x l IHl]; [reflexivity|].
    cbn [forallb existsb] in *. apply andb_prop in H as [Hx Hl].
    rewrite (IH x Hx). cbn [orb]. exact (IHl Hl).
  - cbn [String_throws]. now apply plain_no_toString_key.
Qed.

Lemma plain_toString (v : jsval) : plain_data v = true -> toString_throws v = false.
Proof.
  intro H. destruct v; try reflexivity.
  - now apply plain_prints.
  - cbn [toString_throws]. now rewrite (plain_no_toString_key _ H).
Qed.

Lemma plain_standard_values (v : jsval) :
  plain_data v = true -> existsb toString_throws (standard_values v) = false.
Proof.
  intro H.
  assert (Hs : forallb plain_data (standard_values v) = true).
  { destruct v; cbn [standard_values forallb]; try reflexivity; try exact H.
    now rewrite H. }
  induction (standard_values v) as [|x l IHl]; [reflexivity|].
  cbn [forallb existsb] in *. apply andb_prop in Hs as [Hx Hl].
  now rewrite (plain_toString x Hx), (IHl Hl).
Qed.

Lemma select_items_plain (b : jsval) (name prop : string) (l : list jsval) :
  plain_data b = true -> forallb plain_data l = true ->
  forall i, Forall (fun pv => plain_data (snd pv) = true) (select_items b name prop i l).
Proof.
  intros Hb. induction l as [|e l IH]; intros Hl i; cbn [select_items]; [constructor|].
  cbn [forallb] in Hl. apply andb_prop in Hl as [He Hl].
  constructor; [|now apply IH].
  unfold select_below. cbn [snd].
  apply plain_data_get_path; [exact Hb|now apply plain_data_get_prop].
Qed.

Lemma select_plain (sel : selector) (b : jsval) :
  plain_data b = true ->
  Forall (fun pv => plain_data (snd pv) = true) (select sel b).
Proof.
  intro Hb. destruct sel as [name|name prop]; cbn [select].
  - constructor; [|constructor]. cbn [snd]. now apply plain_data_get_prop.
  - pose proof (plain_data_get_prop b name Hb) as Hn.
    destruct (get_prop b name) as [| | | | |l|fs]; try constructor.
    + now apply select_items_plain.
    + induction fs as [|[k x] fs IH]; cbn [map]; [constructor|].
      rewrite plain_data_cons in Hn.
      apply andb_prop in Hn as [Hn Hr]. apply andb_prop in Hn as [_ Hx].
      constructor; [|now apply IH].
      unfold select_below. cbn [snd fst].
      apply plain_data_get_path; [exact Hb|now apply plain_data_get_prop].
Qed.

(** No check throws on an ordinary body: the validation records its errors. *)
Lemma validation_errors_ordinary (b : jsval) :
  ordinary b = true -> validation_errors b = Return (recorded_errors b).
Proof.
  intro H. unfold validation_errors.
  assert (Hb : plain_data b = true).
  { unfold ordinary in H. now apply andb_prop in H as [H _]. }
  assert (Hc : forall c, chain_throws c b = false).
  { intro c. unfold chain_throws. apply andb_false_iff. right.
    pose proof (select_plain (fields c) b Hb) as Hs.
    induction Hs as [|pv l Hpv _ IHl]; [reflexivity|].
    cbn [existsb]. now rewrite (plain_standard_values _ Hpv), IHl. }
  unfold validation_throws, calculateBalanceValidation. cbn [existsb].
  now rewrite !Hc.
Qed.

(* ------------------------------------------------------------------ *)
(** ** What the validator accepts *)

(** On numbers and strings, [plain_numeric] and [non_negative] are what the
    rules [isNumeric()] and [isFloat({ min: 0 })] decide on the string form. *)
Lemma plain_numeric_isNumeric (v : jsval) :
  not_array v = true ->
  isNumeric (validator_toString v) = plain_numeric v.
Proof.
  destruct v as [| |[|]|x|s| |]; intro H; try reflexivity; try discriminate.
  cbn [validator_toString js_String plain_numeric].
  now rewrite isNumeric_number, plain_position_range.
Qed.

Lemma non_negative_isFloat (v : jsval) :
  plain_numeric v = true ->
  isFloat 0 (validator_toString v) = non_negative v.
Proof.
  destruct v as [| |[|]|x|s| |]; intro H; try discriminate; [|reflexivity].
  cbn [validator_toString js_String plain_numeric non_negative] in *.
  apply isFloat_number. now rewrite plain_position_range.
Qed.

Lemma plain_numeric_inv (v : jsval) :
  plain_numeric v = true ->
  standard_values v = [v] /\ isNumeric (validator_toString v) = true.
Proof.
  intro H. assert (Ha : not_array v = true) by (destruct v; try reflexivity; discriminate).
  split.
  - destruct v; try reflexivity; discriminate.
  - now rewrite plain_numeric_isNumeric.
Qed.

Lemma isNumeric_decimal (s : string) :
  isNumeric s = true -> exists d, new_Decimal (JStr s) = Return d.
Proof.
  unfold isNumeric, new_Decimal.
  destruct (scan (list_ascii_of_string s)) as [n|]; [|discriminate].
  destruct (nexp n); [discriminate|].
  destruct (ndot n), (nonempty (nint n)), (nonempty (nfrac n));
    try discriminate; cbn; eauto.
Qed.

Lemma plain_numeric_decimal (v : jsval) :
  plain_numeric v = true -> exists d, new_Decimal v = Return d.
Proof.
  destruct v; try discriminate; intro H.
  - eexists; reflexivity.
  - now apply isNumeric_decimal.
Qed.

Lemma is_credit_or_debit_inv (t : jsval) :
  is_credit t || is_debit t = true ->
  exists fs, t = JObj fs /\
    (lookup "type" fs = JStr "credit" \/ lookup "type" fs = JStr "debit").
Proof.
  unfold is_credit, is_debit, type_of, strict_eq_string.
  destruct t; try discriminate. cbn [get_prop].
  destruct (lookup "type" fields0) eqn:E; try discriminate.
  intro H. exists fields0. split; [reflexivity|].
  apply orb_prop in H as [H|H]; apply String.eqb_eq in H; subst; auto.
Qed.

Lemma valid_transaction_kind (t : jsval) :
  valid_transaction t = true -> is_credit t || is_debit t = true.
Proof.
  unfold valid_transaction. intro H.
  apply andb_prop in H as [H _]. now apply andb_prop in H as [H _].
Qed.

Lemma valid_transactions_kind (l : list jsval) :
  forallb valid_transaction l = true ->
  forallb (fun t => is_credit t || is_debit t) l = true.
Proof.
  induction l as [|t l IH]; cbn [forallb]; [reflexivity|].
  intro H. apply andb_prop in H as [Ht Hl].
  now rewrite (valid_transaction_kind t Ht), IH.
Qed.

Lemma valid_transaction_convertible (t : jsval) :
  valid_transaction t = true -> convertible t = true.
Proof.
  unfold valid_transaction, convertible. intro H.
  apply andb_prop in H as [H _]. apply andb_prop in H as [_ H].
  destruct (plain_numeric_decimal _ H) as [d Hd]. now rewrite Hd.
Qed.

Lemma valid_transactions_convertible (l : list jsval) :
  forallb valid_transaction l = true -> forallb convertible l = true.
Proof.
  induction l as [|t l IH]; cbn [forallb]; [reflexivity|].
  intro H. apply andb_prop in H as [Ht Hl].
  now rewrite (valid_transaction_convertible t Ht), IH.
Qed.

Lemma refused_IsNumeric_plain (v : jsval) :
  plain_numeric v = true -> refused IsNumeric v = [].
Proof.
  intro H. destruct (plain_numeric_inv v H) as [Hs Hn].
  unfold refused. rewrite Hs. cbn [filter standard_check]. now rewrite Hn.
Qed.

Lemma refused_IsFloat_nonneg (v : jsval) :
  plain_numeric v = true -> non_negative v = true -> refused (IsFloat 0) v = [].
Proof.
  intros H Hn. destruct (plain_numeric_inv v H) as [Hs _].
  unfold refused. rewrite Hs. cbn [filter standard_check].
  now rewrite (non_negative_isFloat v H), Hn.
Qed.

Lemma refused_IsIn_kind (v : jsval) :
  v = JStr "credit" \/ v = JStr "debit" -> refused (IsIn ["credit"; "debit"]) v = [].
Proof. intros [-> | ->]; reflexivity. Qed.

(** [notEmpty()] passes an array of objects, and the empty array. *)
Lemma refused_NotEmpty_objects (l : list jsval) :
  forallb is_object l = true -> refused NotEmpty (JArr l) = [].
Proof.
  unfold refused. cbn [standard_values standard_check].
  induction l as [|u l IH]; cbn [forallb filter]; [reflexivity|].
  intro H. apply andb_prop in H as [Hu Hl].
  destruct u; try discriminate. cbn. now apply IH.
Qed.

Lemma kinds_are_objects (l : list jsval) :
  forallb (fun t => is_credit t || is_debit t) l = true -> forallb is_object l = true.
Proof.
  induction l as [|t l IH]; cbn [forallb]; [reflexivity|].
  intro H. apply andb_prop in H as [Ht Hl].
  destruct (is_credit_or_debit_inv t Ht) as (fs & -> & _). cbn. now apply IH.
Qed.

Lemma type_errors_valid (b : jsval) (l : list jsval) :
  ordinary b = true ->
  forall i, forallb valid_transaction l = true ->
    item_errors b "transactions" "type" type_rule i l = [].
Proof.
  intro Hb. induction l as [|t l IH]; intros i H; [reflexivity|].
  cbn [forallb] in H. apply andb_prop in H as [Ht Hl].
  rewrite (item_errors_ordinary _ _ _ _ _ _ _ Hb), (IH _ Hl), app_nil_r.
  destruct (is_credit_or_debit_inv t (valid_transaction_kind t Ht)) as (fs & -> & Hk).
  unfold run_rule, type_rule. cbn [check get_prop].
  rewrite (refused_IsIn_kind _ Hk). reflexivity.
Qed.

Lemma amount_errors_valid (b : jsval) (l : list jsval) :
  ordinary b = true ->
  forall i, forallb valid_transaction l = true ->
    item_errors b "transactions" "amount" numeric_rule i l = [] /\
    item_errors b "transactions" "amount" float_rule i l = [].
Proof.
  intro Hb. induction l as [|t l IH]; intros i H; [split; reflexivity|].
  cbn [forallb] in H. apply andb_prop in H as [Ht Hl].
  rewrite !(item_errors_ordinary _ _ _ _ _ _ _ Hb).
  destruct (IH (S i) Hl) as [-> ->]. rewrite !app_nil_r.
  unfold valid_transaction, amount_of in Ht.
  apply andb_prop in Ht as [Ht Hn]. apply andb_prop in Ht as [_ Hp].
  unfold run_rule, numeric_rule, float_rule. cbn [check].
  rewrite (refused_IsNumeric_plain _ Hp), (refused_IsFloat_nonneg _ Hp Hn).
  split; reflexivity.
Qed.

Lemma valid_request_inv (b : jsval) :
  valid_request b = true ->
  ordinary b = true /\
  plain_numeric (initialBalance_of b) = true /\
  exists t l, get_prop b "transactions" = JArr (t :: l) /\
              forallb valid_transaction (t :: l) = true.
Proof.
  unfold valid_request. intro H. apply andb_prop in H as [H Ht].
  apply andb_prop in H as [Ho Hi].
  split; [exact Ho|]. split; [exact Hi|].
  destruct (get_prop b "transactions") as [| | | | |[|t l]|]; try discriminate.
  eauto.
Qed.

(** The validator accepts every valid request. *)
Lemma valid_request_accepted (b : jsval) :
  valid_request b = true -> validation_errors b = Return [].
Proof.
  intro H. destruct (valid_request_inv b H) as (Ho & Hi & t & l & Ht & Hv).
  rewrite (validation_errors_ordinary b Ho). f_equal.
  rewrite recorded_errors_eq, Ht.
  rewrite (refused_IsNumeric_plain _ Hi).
  rewrite (refused_NotEmpty_objects _ (kinds_are_objects _ (valid_transactions_kind _ Hv))).
  rewrite (type_errors_valid b _ Ho 0%nat Hv).
  destruct (amount_errors_valid b _ Ho 0%nat Hv) as [-> ->]. reflexivity.
Qed.

(** A valid request is answered 200 with the balance the loop computes. *)
Lemma valid_request_200 (b : jsval) :
  valid_request b = true ->
  exists d0 d,
    new_Decimal (initialBalance_of b) = Return d0 /\
    process_all d0 (transactions_of b) = Return d /\
    is200 (post_calculate_balance b)
          (mkBalance (toNumber d)
                     (if number_geb (toNumber d) (Finite (of_Z 0)) then 1 else 2)).
Proof.
  intro H. pose proof (valid_request_accepted b H) as Hacc.
  destruct (valid_request_inv b H) as (_ & Hi & t & l & Ht & Hv).
  destruct (plain_numeric_decimal _ Hi) as [d0 Hd0].
  assert (Htr : transactions_of b = t :: l) by (unfold transactions_of; now rewrite Ht).
  destruct (process_all_returns (t :: l) d0 (valid_transactions_convertible _ Hv)) as [d Hd].
  exists d0, d. rewrite Htr. repeat split; try assumption.
  unfold is200. rewrite (post_accepted b Hacc).
  unfold calculate.
  assert (Hb : destructure "initialBalance" "transactions" "req.body" b
               = Return (initialBalance_of b, get_prop b "transactions")).
  { destruct b; try reflexivity; discriminate. }
  rewrite Hb. cbn [bind fst snd]. rewrite Hd0, Ht.
  cbn [bind iterate]. rewrite Hd. reflexivity.
Qed.

Lemma decimal_value_Return (v : jsval) (d : Decimal) :
  new_Decimal v = Return d -> decimal_value v = Qval d.
Proof. unfold decimal_value. now intros ->. Qed.

Lemma valid_request_kinds (b : jsval) :
  valid_request b = true ->
  forallb (fun t => is_credit t || is_debit t) (transactions_of b) = true /\
  forallb convertible (transactions_of b) = true.
Proof.
  intro H. destruct (valid_request_inv b H) as (_ & _ & t & l & Ht & Hv).
  unfold transactions_of. rewrite Ht.
  split; [now apply valid_transactions_kind | now apply valid_transactions_convertible].
Qed.

(** A valid request whose running balances fit the precision is answered
    with the number nearest to the exact total. *)
Lemma valid_request_exact (b : jsval) :
  valid_request b = true ->
  within_precision (decimal_value (initialBalance_of b)) (transactions_of b) ->
  exists r, is200 (post_calculate_balance b) r /\
    finalBalance r
    = to_number (decimal_value (initialBalance_of b) + credits b - debits b) /\
    status r = (if number_geb (finalBalance r) (Finite (of_Z 0)) then 1 else 2).
Proof.
  intros H Hw.
  destruct (valid_request_200 b H) as (d0 & d & Hd0 & Hd & Hres).
  destruct (valid_request_kinds b H) as [Hk Hc].
  rewrite (decimal_value_Return _ _ Hd0) in *.
  destruct (process_all_exact (transactions_of b) d0 Hc Hw) as (d' & Hd' & Hq).
  rewrite Hd in Hd'. injection Hd' as <-.
  eexists. split; [exact Hres|]. cbn [finalBalance status]. unfold toNumber. split.
  - apply to_number_Qeq.
    rewrite Hq, (net_credits_debits _ Hk). unfold credits, debits. ring.
  - reflexivity.
Qed.

Lemma valid_request_permuted (b b' : jsval) (l l' : list jsval) :
  valid_request b = true ->
  ordinary b' = true ->
  get_prop b "transactions" = JArr l ->
  initialBalance_of b' = initialBalance_of b ->
  get_prop b' "transactions" = JArr l' ->
  Permutation l l' ->
  valid_request b' = true.
Proof.
  intros H Ho Hl Hi Hl' Hp.
  destruct (valid_request_inv b H) as (_ & Hn & t & r & Ht & Hv).
  rewrite Hl in Ht. injection Ht as ->.
  unfold valid_request. rewrite Ho, Hi, Hn, Hl'. cbn [andb].
  destruct l' as [|t' r'].
  - apply Permutation_sym, Permutation_nil in Hp. discriminate.
  - now rewrite <- (forallb_Permutation valid_transaction _ _ Hp).
Qed.

(* ------------------------------------------------------------------ *)
(** ** What the validator refuses *)

Lemma standard_values_not_array (v : jsval) :
  not_array v = true -> standard_values v = [v].
Proof. destruct v; try reflexivity; discriminate. Qed.

Lemma refused_IsNumeric_other (v : jsval) :
  not_array v = true -> plain_numeric v = false -> refused IsNumeric v = [v].
Proof.
  intros Ha Hp. unfold refused. rewrite (standard_values_not_array v Ha).
  cbn [filter standard_check].
  now rewrite (plain_numeric_isNumeric v Ha), Hp.
Qed.

Lemma refused_IsFloat_negative (v : jsval) :
  plain_numeric v = true -> non_negative v = false -> refused (IsFloat 0) v = [v].
Proof.
  intros Hp Hn. destruct (plain_numeric_inv v Hp) as [Hs _].
  unfold refused. rewrite Hs. cbn [filter standard_check].
  now rewrite (non_negative_isFloat v Hp), Hn.
Qed.

Lemma refused_IsIn_other (t : jsval) :
  not_array (type_of t) = true ->
  is_credit t || is_debit t = false ->
  refused (IsIn ["credit"; "debit"]) (type_of t) = [type_of t].
Proof.
  intros Ha Hk. unfold is_credit, is_debit in *.
  unfold refused. rewrite (standard_values_not_array _ Ha).
  cbn [filter standard_check].
  destruct (type_of t) as [| |[|]|n|s| |]; try reflexivity; try discriminate.
  - cbn [validator_toString js_String]. now rewrite number_not_kind.
  - cbn [validator_toString js_String strict_eq_string] in *.
    unfold isIn. cbn [existsb]. rewrite orb_false_r. now rewrite Hk.
Qed.

(** The paths of the errors of one rule over the items of an array. *)
Lemma item_errors_paths (b : jsval) (prop : string) (r : rule) (t : jsval)
  (l : list jsval) (i : nat) :
  ordinary b = true ->
  map path (item_errors b "transactions" prop r i (t :: l))
  = map (fun _ => item_path i prop) (refused (check r) (get_prop t prop))
    ++ map path (item_errors b "transactions" prop r (S i) l).
Proof.
  intro Hb. rewrite (item_errors_ordinary _ _ _ _ _ _ _ Hb), map_app.
  unfold run_rule. now rewrite map_map.
Qed.

Lemma violated_items_reported (b : jsval) (l : list jsval) :
  ordinary b = true ->
  forall i,
    forallb shaped_transaction l = true ->
    incl (violated_items i l)
         (map path (item_errors b "transactions" "type" type_rule i l
                    ++ item_errors b "transactions" "amount" numeric_rule i l
                    ++ item_errors b "transactions" "amount" float_rule i l)).
Proof.
  intro Hb. induction l as [|t l IH]; intros i Hs; [intros p []|].
  cbn [forallb] in Hs. apply andb_prop in Hs as [Ht Hl].
  specialize (IH (S i) Hl).
  rewrite !map_app, !(item_errors_paths _ _ _ _ _ _ Hb). cbn [violated_items check].
  unfold shaped_transaction in Ht. apply andb_prop in Ht as [Hty Ham].
  fold (type_of t). fold (amount_of t).
  unfold type_rule at 1, numeric_rule at 1, float_rule at 1. cbn [check].
  repeat apply incl_app.
  - destruct (is_credit t || is_debit t) eqn:Ek; [intros p []|].
    rewrite (refused_IsIn_other t Hty Ek).
    intros p [<-|[]]. apply in_or_app. left. now left.
  - destruct (plain_numeric (amount_of t)) eqn:En; cbn [andb].
    + destruct (non_negative (amount_of t)) eqn:Eg; [intros p []|].
      rewrite (refused_IsFloat_negative _ En Eg).
      intros p [<-|[]]. apply in_or_app. right. apply in_or_app. right. now left.
    + rewrite (refused_IsNumeric_other _ Ham En).
      intros p [<-|[]]. apply in_or_app. right. apply in_or_app. left. now left.
  - intros p Hp. apply IH in Hp. rewrite !map_app in Hp.
    apply in_app_or in Hp as [Hp|Hp]; apply in_or_app.
    + left. apply in_or_app. now right.
    + right. apply in_app_or in Hp as [Hp|Hp]; apply in_or_app.
      * left. apply in_or_app. now right.
      * right. apply in_or_app. now right.
Qed.

(** In an ordinary request in which no property holds an array and
    [transactions] is not the empty array, every field that breaks a rule
    of the specification has an entry among the recorded errors. *)
Lemma violated_fields_reported (b : jsval) :
  ordinary b = true ->
  well_shaped b = true ->
  get_prop b "transactions" <> JArr [] ->
  incl (violated_fields b) (map path (recorded_errors b)).
Proof.
  unfold well_shaped, violated_fields. intros Hb Hs He.
  apply andb_prop in Hs as [Hi Hs].
  rewrite recorded_errors_eq, !map_app, !map_map. cbn [path].
  apply incl_app.
  - destruct (plain_numeric (initialBalance_of b)) eqn:En; [intros p []|].
    rewrite (refused_IsNumeric_other _ Hi En).
    intros p [<-|[]]. apply in_or_app. left. now left.
  - unfold transactions_of in Hs.
    destruct (get_prop b "transactions") as [| | | | |[|t l]|] eqn:E;
      try (intros p [<-|[]]; apply in_or_app; right; apply in_or_app; left;
           apply in_or_app; left; now left).
    + congruence.
    + intros p Hp. apply in_or_app. right. apply in_or_app. right.
      now apply (violated_items_reported b (t :: l) Hb 0%nat Hs).
Qed.

Lemma bad_items_violated (l : list jsval) :
  forall i, existsb bad_transaction l = true -> violated_items i l <> [].
Proof.
  induction l as [|t l IH]; intros i H; [discriminate|].
  cbn [existsb violated_items] in *.
  destruct (bad_transaction t) eqn:Eb.
  - unfold bad_transaction in Eb.
    destruct (is_credit t || is_debit t); [|discriminate].
    destruct (plain_numeric (amount_of t)), (non_negative (amount_of t));
      cbn in Eb; try discriminate Eb; discriminate.
  - cbn [orb] in H. apply app_not_nil_r, app_not_nil_r. now apply IH.
Qed.

Lemma violation_violated (b : jsval) :
  violation b = true -> violated_fields b <> [].
Proof.
  unfold violation, violated_fields. intro H.
  destruct (plain_numeric (initialBalance_of b)); [|discriminate].
  cbn [negb orb app] in *.
  destruct (get_prop b "transactions") as [| | | | |[|t l]|]; try discriminate.
  now apply bad_items_violated.
Qed.

(** The validator refuses every such request with a violation. *)
Lemma violation_refused (b : jsval) :
  ordinary b = true ->
  well_shaped b = true ->
  get_prop b "transactions" <> JArr [] ->
  violation b = true -> recorded_errors b <> [].
Proof.
  intros Hb Hs He Hv.
  pose proof (violated_fields_reported b Hb Hs He) as Hi.
  pose proof (violation_violated b Hv) as Hn.
  destruct (violated_fields b) as [|p ps]; [congruence|].
  intro E. rewrite E in Hi. exact (Hi p (or_introl eq_refl)).
Qed.

Lemma violation_valid (b : jsval) :
  ordinary b = true -> violation b = negb (valid_request b).
Proof.
  intro Hb. unfold violation, valid_request. rewrite Hb. cbn [andb].
  rewrite negb_andb. f_equal.
  destruct (get_prop b "transactions") as [| | | | |[|t l]|]; try reflexivity.
  generalize (t :: l). clear. intro l.
  induction l as [|u l IH]; cbn [existsb forallb]; [reflexivity|].
  rewrite negb_andb, IH. f_equal.
  unfold bad_transaction, valid_transaction. now rewrite !negb_andb.
Qed.

(* ------------------------------------------------------------------ *)
(** ** Exceptions of the computation *)

Lemma new_Decimal_throws (v : jsval) (e : thrown) :
  new_Decimal v = Throw e -> exists m, e = ErrorObject m.
Proof.
  unfold new_Decimal.
  destruct v; try (destruct (String_throws _); intro H; injection H as <-; eauto; fail).
  - discriminate.
  - destruct (scan (list_ascii_of_string s)) as [n|];
      [destruct (nonempty (nint n) || ndot n && nonempty (nfrac n))|];
      try discriminate; cbn [String_throws]; intro H; injection H as <-; eauto.
Qed.

Lemma process_throws (d : Decimal) (t : jsval) (e : thrown) :
  process d t = Throw e -> exists m, e = ErrorObject m.
Proof.
  unfold process.
  destruct (destructure "type" "amount" "transaction" t) as [ta|e0] eqn:E; cbn [bind].
  - destruct (new_Decimal (snd ta)) as [a|e1] eqn:Ea; cbn [bind].
    + destruct (strict_eq_string (fst ta) "credit");
        [|destruct (strict_eq_string (fst ta) "debit")]; discriminate.
    + intro H. injection H as <-. eapply new_Decimal_throws; eauto.
  - intro H. injection H as <-.
    destruct t; cbn in E; try discriminate; injection E as <-; eauto.
Qed.

Lemma process_all_throws (l : list jsval) :
  forall d e, process_all d l = Throw e -> exists m, e = ErrorObject m.
Proof.
  induction l as [|t l IH]; intros d e; cbn [process_all]; [discriminate|].
  destruct (process d t) as [d1|e1] eqn:E; cbn [bind].
  - apply IH.
  - intro H. injection H as <-. eapply process_throws; eauto.
Qed.

(** Whatever the computation throws is an [Error] with a message. *)
Lemma calculate_throws (b : jsval) (e : thrown) :
  calculate b = Throw e -> exists m, e = ErrorObject m.
Proof.
  unfold calculate.
  destruct (destructure "initialBalance" "transactions" "req.body" b) as [it|e'] eqn:Eb;
    cbn [bind].
  2:{ intro H. injection H as <-.
      destruct b; cbn in Eb; try discriminate; injection Eb as <-; eauto. }
  destruct (new_Decimal (fst it)) as [d0|e0] eqn:E0; cbn [bind].
  - destruct (iterate (snd it)) as [l|e1] eqn:E1; cbn [bind].
    + destruct (process_all d0 l) as [d|e2] eqn:E2; cbn [bind]; [discriminate|].
      intro H. injection H as <-. eapply process_all_throws; eauto.
    + intro H. injection H as <-.
      destruct (snd it); cbn in E1; try discriminate;
        injection E1 as <-; eauto.
  - intro H. injection H as <-. eapply new_Decimal_throws; eauto.
Qed.

(* ------------------------------------------------------------------ *)
(** ** Inverse transactions and permutations *)

Lemma amount_of_inverse (t : jsval) : amount_of (inverse t) = amount_of t.
Proof. reflexivity. Qed.

Lemma kind_of_inverse (t : jsval) :
  is_credit (inverse t) = is_debit t /\ is_debit (inverse t) = is_credit t.
Proof.
  unfold inverse. destruct (is_credit t) eqn:Ec.
  - rewrite (kinds_exclusive t Ec). split; reflexivity.
  - destruct (is_debit t) eqn:Ed.
    + split; reflexivity.
    + unfold is_credit, is_debit, type_of in *. cbn. now rewrite Ec, Ed.
Qed.

Lemma signed_amount_inverse (t : jsval) :
  (signed_amount (inverse t) == - signed_amount t)%Q.
Proof.
  unfold signed_amount.
  destruct (kind_of_inverse t) as [-> ->]. rewrite amount_of_inverse.
  destruct (is_credit t) eqn:Ec.
  - rewrite (kinds_exclusive t Ec). reflexivity.
  - destruct (is_debit t); ring.
Qed.

Lemma net_inverse (l : list jsval) : (net (map inverse l) == - net l)%Q.
Proof.
  induction l as [|t l IH]; cbn [map].
  - reflexivity.
  - rewrite !net_cons, IH, signed_amount_inverse. ring.
Qed.

Lemma convertible_inverse (l : list jsval) :
  forallb convertible (map inverse l) = forallb convertible l.
Proof.
  induction l as [|t l IH]; cbn [map forallb]; [reflexivity|].
  now rewrite IH.
Qed.

Lemma sum_amounts_cons (p : jsval -> bool) (t : jsval) (l : list jsval) :
  sum_amounts p (t :: l)
  = if p t then (decimal_value (amount_of t) + sum_amounts p l)%Q else sum_amounts p l.
Proof. reflexivity. Qed.

Lemma sum_amounts_Permutation (p : jsval -> bool) (l l' : list jsval) :
  Permutation l l' -> (sum_amounts p l == sum_amounts p l')%Q.
Proof.
  induction 1 as [|t l l' _ IH|t u l|l1 l2 l3 _ IH1 _ IH2].
  - reflexivity.
  - rewrite !sum_amounts_cons. destruct (p t); now rewrite IH.
  - rewrite !sum_amounts_cons. destruct (p t), (p u); try reflexivity. ring.
  - now rewrite IH1.
Qed.

(* ------------------------------------------------------------------ *)
(** ** The scenarios of the test suite (server.test.ts) *)

Example test_credit_transactions :
  post_calculate_balance
    (request (JNum (of_Z 1000))
       [transaction "credit" (JNum (of_Z 500)); transaction "credit" (JNum (of_Z 200))])
  = Some (mkResponse 200 (BalanceBody (mkBalance (Finite (of_Z 1700)) 1))).
Proof. vm_compute. reflexivity. Qed.

Example test_mixed_transactions :
  post_calculate_balance
    (request (JNum (of_Z 1000))
       [transaction "credit" (JNum (of_Z 500)); transaction "debit" (JNum (of_Z 300));
        transaction "credit" (JNum (of_Z 200)); transaction "debit" (JNum (of_Z 150))])
  = Some (mkResponse 200 (BalanceBody (mkBalance (Finite (of_Z 1250)) 1))).
Proof. vm_compute. reflexivity. Qed.

Example test_decimal_amounts :
  post_calculate_balance
    (request (JNum (mkDec 10005 (-1)))
       [transaction "credit" (JNum (mkDec 9999 (-2)));
        transaction "debit" (JNum (mkDec 5025 (-2)))])
  = Some (mkResponse 200 (BalanceBody (mkBalance (Finite (mkDec 105024 (-2))) 1))).
Proof. vm_compute. reflexivity. Qed.

Example test_overdraft :
  post_calculate_balance
    (request (JNum (of_Z 1000)) [transaction "debit" (JNum (of_Z 1500))])
  = Some (mkResponse 200 (BalanceBody (mkBalance (Finite (of_Z (-500))) 2))).
Proof. vm_compute. reflexivity. Qed.

Example test_zero_balance :
  post_calculate_balance
    (request (JNum (of_Z 1000)) [transaction "debit" (JNum (of_Z 1000))])
  = Some (mkResponse 200 (BalanceBody (mkBalance (Finite (of_Z 0)) 1))).
Proof. vm_compute. reflexivity. Qed.

Example test_validation_errors :
  let refused b :=
    code_of (post_calculate_balance b) = Some 400 /\
    error_of (post_calculate_balance b) = Some "Validation failed" in
  let credit100 := [transaction "credit" (JNum (of_Z 100))] in
  (* initialBalance is missing *)
  refused (JObj [("transactions", JArr credit100)]) /\
  (* initialBalance is not a number *)
  refused (request (JStr "not-a-number") credit100) /\
  (* transactions is missing *)
  refused (JObj [("initialBalance", JNum (of_Z 1000))]) /\
  (* transactions is not an array *)
  refused (JObj [("initialBalance", JNum (of_Z 1000));
                 ("transactions", JStr "not-an-array")]) /\
  (* transaction type is invalid *)
  refused (request (JNum (of_Z 1000)) [transaction "invalid" (JNum (of_Z 100))]) /\
  (* transaction amount is missing *)
  refused (request (JNum (of_Z 1000)) [JObj [("type", JStr "credit")]]) /\
  (* transaction amount is negative *)
  refused (request (JNum (of_Z 1000)) [transaction "credit" (JNum (of_Z (-100)))]) /\
  (* transaction amount is not a number *)
  refused (request (JNum (of_Z 1000)) [transaction "credit" (JStr "not-a-number")]).
Proof. vm_compute. repeat split. Qed.

(** The test 'should return 400 if transactions array is empty' expects a
    400.  The chain [isArray().notEmpty()] does not give it: an empty array
    is an array, and [notEmpty()], a standard validator, checks the items
    of an array, of which there are none.  The request is answered 200 with
    the initial balance. *)
Example test_empty_transactions :
  let b := request (JNum (of_Z 1000)) [] in
  validation_errors b = Return [] /\
  post_calculate_balance b
  = Some (mkResponse 200 (BalanceBody (mkBalance (Finite (of_Z 1000)) 1))).
Proof. vm_compute. split; reflexivity. Qed.

(** Items that are no objects are refused: their [type] and [amount] are
    selected and read as [undefined]. *)
Example primitive_transaction :
  exists ds, is400 (post_calculate_balance (request (JNum (of_Z 0)) [JNum (of_Z 5)])) ds
             /\ map path ds = ["transactions[0].type"; "transactions[0].amount";
                               "transactions[0].amount"].
Proof. eexists. split; [vm_compute; reflexivity|reflexivity]. Qed.

(** An empty array in place of a number passes [isNumeric()] and is refused
    by [new Decimal]. *)
Example empty_initialBalance :
  is500 (post_calculate_balance
           (request (JArr []) [transaction "credit" (JNum (of_Z 1))]))
        "[DecimalError] Invalid argument: ".
Proof. vm_compute. reflexivity. Qed.

(** Each check of a chain runs over all the transactions before the next
    check does. *)
Example details_order :
  exists ds,
    is400 (post_calculate_balance
             (request (JNum (of_Z 0))
                [transaction "credit" (JStr "x"); transaction "credit" (JStr "y")])) ds
    /\ map msg ds
       = ["Transaction amount must be a number";
          "Transaction amount must be a number";
          "Transaction amount must be a non-negative number";
          "Transaction amount must be a non-negative number"].
Proof. eexists. split; [vm_compute; reflexivity|reflexivity]. Qed.

(** What [toNumber] does to a balance that is no binary64 number: it is
    rounded to 53 bits, to zero, or to an infinity ([res.json] then writes
    [null]). *)
Example toNumber_rounds :
  toNumber (mkDec 11234567890123456789 (-19)) = Finite (mkDec 11234567890123457 (-16)) /\
  toNumber (of_Z 9007199254740993) = Finite (of_Z 9007199254740992) /\
  toNumber (mkDec (-1) (-330)) = Finite (of_Z 0) /\
  toNumber (mkDec 1 400) = Infinity false.
Proof. vm_compute. repeat split. Qed.

(** A body outside the ordinary ones: a property of the body named like the
    path of a field is what the validator reads for that field, while the
    handler reads the field. *)
Example shadowed_amount :
  let b := JObj [("initialBalance", JNum (of_Z 0));
                 ("transactions", JArr [transaction "credit" (JStr "abc")]);
                 ("transactions[0].amount", JNum (of_Z 5))] in
  ordinary b = false /\
  is500 (post_calculate_balance b) "[DecimalError] Invalid argument: abc".
Proof. vm_compute. split; reflexivity. Qed.

(** Another one: a transaction with a property [toString] that is [null]
    cannot be printed by [notEmpty()]: the check throws, the rest of the
    route is skipped, and the answer is left to Express's error handler. *)
Example unprintable_transaction :
  let b := request (JNum (of_Z 0))
             [JObj [("type", JStr "credit"); ("amount", JNum (of_Z 1));
                    ("toString", JNull)]] in
  ordinary b = false /\ post_calculate_balance b = None.
Proof. vm_compute. split; reflexivity. Qed.

(* ------------------------------------------------------------------ *)
(** ** The claims *)

(** C1, as stated, fails, in three ways.  With initialBalance 1, a credit of
    1e20 and a debit of 1e20 the answer is 0, not 1: the intermediate sum
    has 21 significant digits and [plus] rounds it to 20.  With
    initialBalance 9007199254740992 and a credit of 1 the decimal sum is
    exact, but the answer is again 9007199254740992: [toNumber] rounds the
    sum to binary64.  And a credit of the number 1e-7, which is numeric and
    not negative, is refused with 400: the validator checks the string
    1e-7. *)
Lemma C1_counterexample :
  let total b := (decimal_value (initialBalance_of b) + credits b - debits b)%Q in
  let b1 := request (JNum (of_Z 1))
              [transaction "credit" (JNum (mkDec 1 20));
               transaction "debit" (JNum (mkDec 1 20))] in
  let b2 := request (JNum (of_Z 9007199254740992))
              [transaction "credit" (JNum (of_Z 1))] in
  let b3 := request (JNum (of_Z 0)) [transaction "credit" (JNum (mkDec 1 (-7)))] in
  (valid_request b1 = true /\ (total b1 == 1)%Q /\
   is200 (post_calculate_balance b1) (mkBalance (Finite (of_Z 0)) 1)) /\
  (valid_request b2 = true /\
   within_precision (decimal_value (initialBalance_of b2)) (transactions_of b2) /\
   (total b2 == 9007199254740993 # 1)%Q /\
   is200 (post_calculate_balance b2) (mkBalance (Finite (of_Z 9007199254740992)) 1)) /\
  (claimed_violation b3 = false /\
   exists ds, is400 (post_calculate_balance b3) ds).
Proof.
  split; [|split].
  - split; [vm_compute; reflexivity|]. split; vm_compute; reflexivity.
  - split; [vm_compute; reflexivity|]. split; [|split; vm_compute; reflexivity].
    repeat constructor.
    exists 9007199254740993, 0. split; [reflexivity | vm_compute; reflexivity].
  - split; [vm_compute; reflexivity|]. eexists. vm_compute. reflexivity.
Qed.

(** C1 (amended): for every request that is valid as the validator has it
    ([valid_request]) and in which no running balance needs more than 20
    significant digits (the default precision of decimal.js), POST
    /calculate-balance answers 200 and finalBalance is the JavaScript number
    nearest to initialBalance plus the sum of the credit amounts minus the
    sum of the debit amounts: the decimal accumulation is exact, and
    [toNumber] rounds its result once, to binary64. *)
Theorem C1_final_balance_exact (b : jsval) :
  valid_request b = true ->
  within_precision (decimal_value (initialBalance_of b)) (transactions_of b) ->
  exists r, is200 (post_calculate_balance b) r /\
    finalBalance r
    = to_number (decimal_value (initialBalance_of b) + credits b - debits b).
Proof.
  intros H Hw. destruct (valid_request_exact b H Hw) as (r & Hr & Hq & _).
  exists r. now split.
Qed.

Lemma C1_witness :
  let b := request (JNum (mkDec 100050 (-2)))
             [transaction "credit" (JNum (mkDec 9999 (-2)));
              transaction "debit" (JNum (mkDec 5025 (-2)))] in
  valid_request b = true /\
  within_precision (decimal_value (initialBalance_of b)) (transactions_of b) /\
  exists r, is200 (post_calculate_balance b) r /\
    finalBalance r
    = to_number (decimal_value (initialBalance_of b) + credits b - debits b) /\
    finalBalance r = Finite (mkDec 105024 (-2)).
Proof.
  intro b.
  assert (Hv : valid_request b = true) by (vm_compute; reflexivity).
  assert (Hw : within_precision (decimal_value (initialBalance_of b)) (transactions_of b)).
  { repeat constructor.
    - exists 110049, (-2). split; [reflexivity | vm_compute; reflexivity].
    - exists 105024, (-2). split; [reflexivity | vm_compute; reflexivity]. }
  split; [exact Hv|]. split; [exact Hw|].
  destruct (C1_final_balance_exact b Hv Hw) as (r & Hr & Hq).
  exists r. split; [exact Hr|]. split; [exact Hq|].
  rewrite Hq. vm_compute. reflexivity.
Defined.

Lemma negative_not_negative (n : js_number) : negative n -> not_negative n -> False.
Proof.
  destruct n as [|neg|x]; cbn [negative not_negative].
  - tauto.
  - congruence.
  - intros H1 H2. exact (Qlt_not_le _ _ H1 H2).
Qed.

(** C2: every valid request is answered 200, and in every 200 answer the
    status is 2 exactly when the returned finalBalance is negative and 1
    exactly when it is greater than or equal to zero (so a final balance of
    zero is status 1). *)
Theorem C2_status_from_sign (b : jsval) :
  (valid_request b = true -> exists r, is200 (post_calculate_balance b) r) /\
  (forall r, is200 (post_calculate_balance b) r ->
     (status r = 2 <-> negative (finalBalance r)) /\
     (status r = 1 <-> not_negative (finalBalance r))).
Proof.
  split.
  - intro H. destruct (valid_request_200 b H) as (d0 & d & _ & _ & Hres). eauto.
  - intros r Hr.
    destruct (calculate_status b r (post_200_inv b r Hr)) as [[d Hd] Hs].
    rewrite Hs.
    assert (Hn : finalBalance r <> NaN) by (rewrite Hd; apply to_number_not_NaN).
    destruct (number_geb (finalBalance r) (Finite (of_Z 0))) eqn:E.
    + apply not_negative_geb in E. split; split; intro G.
      * discriminate.
      * exfalso. exact (negative_not_negative _ G E).
      * exact E.
      * reflexivity.
    + apply (negative_geb _ Hn) in E. split; split; intro G.
      * exact E.
      * reflexivity.
      * discriminate.
      * exfalso. exact (negative_not_negative _ E G).
Qed.

Lemma C2_witness :
  let b := request (JNum (of_Z 1000)) [transaction "debit" (JNum (of_Z 1000))] in
  valid_request b = true /\
  exists r, is200 (post_calculate_balance b) r /\
    finalBalance r = Finite (of_Z 0) /\ status r = 1.
Proof.
  intro b.
  assert (Hv : valid_request b = true) by (vm_compute; reflexivity).
  split; [exact Hv|].
  destruct (C2_status_from_sign b) as [Hex Hsign].
  destruct (Hex Hv) as [r Hr]. exists r. split; [exact Hr|].
  assert (Hp : post_calculate_balance b
               = Some (mkResponse 200 (BalanceBody (mkBalance (Finite (of_Z 0)) 1))))
    by (vm_compute; reflexivity).
  assert (Hf : finalBalance r = Finite (of_Z 0)).
  { unfold is200 in Hr. rewrite Hp in Hr. now injection Hr as <-. }
  split; [exact Hf|].
  apply (proj2 (Hsign r Hr)). rewrite Hf. vm_compute. discriminate.
Defined.

(** C3, as stated, fails in both directions.  A request whose initialBalance
    is the number 1e21 has none of the listed violations, yet it is refused
    with 400: the validator checks the string form, JavaScript prints the
    number as 1e+21 and [isNumeric] accepts no exponent.  A request whose
    initialBalance is the array [[1]] has a non-numeric initialBalance, yet
    it passes the validator ([isNumeric] checks the item 1) and
    [new Decimal] then throws: the answer is 500, not 400.  A request with
    the negative amount -1e-330 is answered 200: [isFloat] compares
    [parseFloat] of the string, the number -0, with 0.  And a request with
    no transaction is answered 200 (see [test_empty_transactions]). *)
Lemma C3_counterexample :
  let b1 := request (JNum (mkDec 1 21)) [transaction "credit" (JNum (of_Z 1))] in
  let b2 := request (JArr [JNum (of_Z 1)]) [transaction "credit" (JNum (of_Z 1))] in
  let b3 := request (JNum (of_Z 0))
              [transaction "credit" (JStr (small_numeral "-" 329))] in
  let b4 := request (JNum (of_Z 1000)) [] in
  (claimed_violation b1 = false /\
   is400 (post_calculate_balance b1)
     [mkError "body" "initialBalance" "initialBalance must be a number"
              (JNum (mkDec 1 21))]) /\
  (claimed_violation b2 = true /\
   is500 (post_calculate_balance b2) "[DecimalError] Invalid argument: 1") /\
  (claimed_violation b3 = true /\
   is200 (post_calculate_balance b3) (mkBalance (Finite (of_Z 0)) 1)) /\
  (claimed_violation b4 = true /\
   is200 (post_calculate_balance b4) (mkBalance (Finite (of_Z 1000)) 1)).
Proof. vm_compute. repeat split. Qed.

(** C3 (amended): for every ordinary request body in which initialBalance
    and the type and amount of each transaction are not arrays, and
    transactions is not the empty array: if initialBalance is missing or is
    neither a number that is zero or of magnitude at least 1e-6 and below
    1e21 nor a string holding a plain decimal numeral (optional sign,
    digits, optional fraction, no exponent), or transactions is missing or
    not an array, or some transaction's type is not 'credit' or 'debit', or
    some amount is missing, not numeric in that sense, or negative (a
    string below -2^-1075, a number below 0), then the answer is HTTP 400
    with error "Validation failed" and details that are not empty; and a
    request with none of these violations passes the validator and is
    computed and answered 200.  Nothing is stated of a request whose
    transactions is the empty array. *)
Theorem C3_validation (b : jsval) :
  ordinary b = true ->
  well_shaped b = true ->
  get_prop b "transactions" <> JArr [] ->
  (violation b = true ->
     exists ds, ds <> [] /\ is400 (post_calculate_balance b) ds) /\
  (violation b = false ->
     validation_errors b = Return [] /\
     exists r, is200 (post_calculate_balance b) r).
Proof.
  intros Ho Hs He. split; intro Hv.
  - exists (recorded_errors b).
    pose proof (violation_refused b Ho Hs He Hv) as Hne. split; [exact Hne|].
    apply post_refused; [now apply validation_errors_ordinary|exact Hne].
  - rewrite (violation_valid b Ho) in Hv. apply negb_false_iff in Hv. split.
    + now apply valid_request_accepted.
    + destruct (valid_request_200 b Hv) as (d0 & d & _ & _ & H). eauto.
Qed.

Lemma C3_witness :
  let bad := request (JStr "not-a-number") [transaction "credit" (JNum (of_Z (-100)))] in
  let good := request (JNum (of_Z 1000)) [transaction "credit" (JNum (of_Z 500))] in
  (ordinary bad = true /\ well_shaped bad = true /\
   get_prop bad "transactions" <> JArr [] /\ violation bad = true /\
   exists ds, ds <> [] /\ is400 (post_calculate_balance bad) ds) /\
  (ordinary good = true /\ well_shaped good = true /\
   get_prop good "transactions" <> JArr [] /\ violation good = false /\
   exists r, is200 (post_calculate_balance good) r).
Proof.
  intros bad good.
  assert (Hob : ordinary bad = true) by (vm_compute; reflexivity).
  assert (Hb : well_shaped bad = true) by (vm_compute; reflexivity).
  assert (Heb : get_prop bad "transactions" <> JArr []) by (vm_compute; discriminate).
  assert (Hvb : violation bad = true) by (vm_compute; reflexivity).
  assert (Hog : ordinary good = true) by (vm_compute; reflexivity).
  assert (Hg : well_shaped good = true) by (vm_compute; reflexivity).
  assert (Heg : get_prop good "transactions" <> JArr []) by (vm_compute; discriminate).
  assert (Hvg : violation good = false) by (vm_compute; reflexivity).
  split.
  - split; [exact Hob|]. split; [exact Hb|]. split; [exact Heb|]. split; [exact Hvb|].
    exact (proj1 (C3_validation bad Hob Hb Heb) Hvb).
  - split; [exact Hog|]. split; [exact Hg|]. split; [exact Heg|]. split; [exact Hvg|].
    exact (proj2 (proj2 (C3_validation good Hog Hg Heg) Hvg)).
Defined.

(** C4, as stated, fails: a request whose initialBalance is the array [[1]],
    with a transaction of type 'x' and amount -1, breaks three rules, and
    the details of the 400 answer name the type and the amount only:
    [isNumeric] has checked the item 1 of the array and found no fault with
    initialBalance. *)
Lemma C4_counterexample :
  let b := request (JArr [JNum (of_Z 1)]) [transaction "x" (JNum (of_Z (-1)))] in
  claimed_violated_fields b
  = ["initialBalance"; "transactions[0].type"; "transactions[0].amount"] /\
  exists ds, is400 (post_calculate_balance b) ds /\
             map path ds = ["transactions[0].type"; "transactions[0].amount"] /\
             ~ In "initialBalance" (map path ds).
Proof.
  split; [vm_compute; reflexivity|].
  eexists. split; [vm_compute; reflexivity|]. split; [reflexivity|].
  cbn. intros [H|[H|[]]]; discriminate.
Qed.

(** C4 (amended): for every ordinary request body in which initialBalance
    and the type and amount of each transaction are not arrays, and
    transactions is not the empty array: if the request breaks a rule, the
    answer is 400 and its details name every field that breaks one, not
    only the first (initialBalance when it is not numeric as the validator
    has it, transactions when it is not an array, the type of a transaction
    when it is not 'credit' or 'debit', its amount when it is not numeric
    or is negative); and the answer is the same whatever handler ends the
    route, so the balance computation has not run. *)
Theorem C4_all_violations_reported (b : jsval) :
  ordinary b = true ->
  well_shaped b = true ->
  get_prop b "transactions" <> JArr [] ->
  violation b = true ->
  exists ds,
    is400 (post_calculate_balance b) ds /\
    incl (violated_fields b) (map path ds) /\
    (forall h : middleware, is400 (dispatch (route h) (mkRequest b [])) ds).
Proof.
  intros Ho Hs He Hv. exists (recorded_errors b).
  pose proof (violation_refused b Ho Hs He Hv) as Hne.
  pose proof (validation_errors_ordinary b Ho) as Hr.
  split; [|split].
  - now apply post_refused.
  - now apply violated_fields_reported.
  - intro h. now apply post_refused.
Qed.

Lemma C4_witness :
  let b := JObj [("transactions",
                  JArr [transaction "invalid" (JNum (of_Z (-100)))])] in
  ordinary b = true /\ well_shaped b = true /\
  get_prop b "transactions" <> JArr [] /\ violation b = true /\
  violated_fields b
  = ["initialBalance"; "transactions[0].type"; "transactions[0].amount"] /\
  exists ds,
    is400 (post_calculate_balance b) ds /\
    incl (violated_fields b) (map path ds).
Proof.
  intro b.
  assert (Ho : ordinary b = true) by (vm_compute; reflexivity).
  assert (Hs : well_shaped b = true) by (vm_compute; reflexivity).
  assert (He : get_prop b "transactions" <> JArr []) by (vm_compute; discriminate).
  assert (Hv : violation b = true) by (vm_compute; reflexivity).
  split; [exact Ho|]. split; [exact Hs|]. split; [exact He|]. split; [exact Hv|].
  split; [vm_compute; reflexivity|].
  destruct (C4_all_violations_reported b Ho Hs He Hv) as (ds & H400 & Hincl & _).
  exists ds. split; [exact H400|exact Hincl].
Defined.

(** C5, as stated, fails: from balance 1, a credit of 1e20 followed by its
    inverse, a debit of 1e20, leaves 0: the intermediate sum is rounded to 20
    significant digits. *)
Lemma C5_counterexample :
  let l := [transaction "credit" (JNum (mkDec 1 20))] in
  exists b1 b2,
    process_all (of_Z 1) l = Return b1 /\
    process_all b1 (map inverse l) = Return b2 /\
    ~ (Qval b2 == Qval (of_Z 1))%Q.
Proof.
  exists (mkDec (10 ^ 19) 1), (mkDec 0 1).
  split; [vm_compute; reflexivity|]. split; [vm_compute; reflexivity|].
  intro H. vm_compute in H. discriminate H.
Qed.

(** C5 (amended): for every balance and every list of transactions whose
    amounts [new Decimal] accepts, if no running balance of the list followed
    by its pointwise inverse needs more than 20 significant digits, then
    applying the list and then the inverse list returns a balance equal in
    value to the initial one. *)
Theorem C5_round_trip (b0 : Decimal) (l : list jsval) :
  forallb convertible l = true ->
  within_precision (Qval b0) (l ++ map inverse l) ->
  exists b1 b2,
    process_all b0 l = Return b1 /\
    process_all b1 (map inverse l) = Return b2 /\
    (Qval b2 == Qval b0)%Q.
Proof.
  intros Hc Hw.
  assert (Hc' : forallb convertible (l ++ map inverse l) = true).
  { rewrite forallb_app, convertible_inverse, Hc. reflexivity. }
  destruct (process_all_exact _ b0 Hc' Hw) as (b2 & Hb2 & Hq).
  rewrite process_all_app in Hb2.
  destruct (process_all b0 l) as [b1|e]; cbn [bind] in Hb2; [|discriminate].
  exists b1, b2. repeat split; [exact Hb2|].
  rewrite Hq, net_app, net_inverse. ring.
Qed.

Lemma C5_witness :
  let l := [transaction "credit" (JNum (of_Z 500)); transaction "debit" (JNum (of_Z 200))] in
  forallb convertible l = true /\
  within_precision (Qval (of_Z 1000)) (l ++ map inverse l) /\
  exists b1 b2,
    process_all (of_Z 1000) l = Return b1 /\
    process_all b1 (map inverse l) = Return b2 /\
    (Qval b2 == Qval (of_Z 1000))%Q.
Proof.
  intro l.
  assert (Hc : forallb convertible l = true) by (vm_compute; reflexivity).
  assert (Hw : within_precision (Qval (of_Z 1000)) (l ++ map inverse l)).
  { repeat constructor.
    - exists 1500, 0. split; [reflexivity | vm_compute; reflexivity].
    - exists 1300, 0. split; [reflexivity | vm_compute; reflexivity].
    - exists 800, 0. split; [reflexivity | vm_compute; reflexivity].
    - exists 1000, 0. split; [reflexivity | vm_compute; reflexivity]. }
  split; [exact Hc|]. split; [exact Hw|].
  exact (C5_round_trip (of_Z 1000) l Hc Hw).
Defined.

(** C6, as stated, fails in its second half: from initialBalance 0 the
    transactions credit 1e20, credit 1, debit 1e20 give 0, while the
    permutation credit 1e20, debit 1e20, credit 1 gives 1. *)
Lemma C6_counterexample :
  let l := [transaction "credit" (JNum (mkDec 1 20));
            transaction "credit" (JNum (of_Z 1));
            transaction "debit" (JNum (mkDec 1 20))] in
  let l' := [transaction "credit" (JNum (mkDec 1 20));
             transaction "debit" (JNum (mkDec 1 20));
             transaction "credit" (JNum (of_Z 1))] in
  valid_request (request (JNum (of_Z 0)) l) = true /\
  Permutation l l' /\
  is200 (post_calculate_balance (request (JNum (of_Z 0)) l))
        (mkBalance (Finite (of_Z 0)) 1) /\
  is200 (post_calculate_balance (request (JNum (of_Z 0)) l'))
        (mkBalance (Finite (of_Z 1)) 1).
Proof.
  split; [vm_compute; reflexivity|]. split.
  - apply perm_skip. apply perm_swap.
  - split; vm_compute; reflexivity.
Qed.

(** C6 (amended): the loop is the left fold of the processing step over the
    transactions in array order, a credit adding its amount to the running
    balance and a debit subtracting it; and for every valid request, any
    permutation of its transactions yields the same final balance and status
    provided that in both orders no running balance needs more than 20
    significant digits. *)
Theorem C6_order_and_permutation (b b' : jsval) (l l' : list jsval) :
  valid_request b = true ->
  ordinary b' = true ->
  get_prop b "transactions" = JArr l ->
  initialBalance_of b' = initialBalance_of b ->
  get_prop b' "transactions" = JArr l' ->
  Permutation l l' ->
  within_precision (decimal_value (initialBalance_of b)) l ->
  within_precision (decimal_value (initialBalance_of b)) l' ->
  (forall d, process_all d l
             = fold_left (fun acc t => x <- acc ;; process x t) l (Return d)) /\
  (forall d a t, new_Decimal (amount_of t) = Return a ->
     (is_credit t = true -> process d t = Return (plus d a)) /\
     (is_debit t = true -> process d t = Return (minus d a))) /\
  exists r r',
    is200 (post_calculate_balance b) r /\
    is200 (post_calculate_balance b') r' /\
    finalBalance r = finalBalance r' /\
    status r = status r'.
Proof.
  intros H Ho Hl Hi Hl' Hp Hw Hw'.
  split; [|split].
  - intro d. now rewrite <- process_all_fold_left.
  - intros d a t. apply process_credit_debit.
  - pose proof (valid_request_permuted b b' l l' H Ho Hl Hi Hl' Hp) as H'.
    assert (Ht : transactions_of b = l) by (unfold transactions_of; now rewrite Hl).
    assert (Ht' : transactions_of b' = l') by (unfold transactions_of; now rewrite Hl').
    destruct (valid_request_exact b H) as (r & Hr & Hq & Hs); [now rewrite Ht|].
    destruct (valid_request_exact b' H') as (r' & Hr' & Hq' & Hs'); [now rewrite Hi, Ht'|].
    assert (Heq : finalBalance r = finalBalance r').
    { rewrite Hq, Hq'. apply to_number_Qeq.
      rewrite Hi. unfold credits, debits. rewrite Ht, Ht'.
      now rewrite (sum_amounts_Permutation is_credit l l' Hp),
                  (sum_amounts_Permutation is_debit l l' Hp). }
    exists r, r'. repeat split; try assumption.
    rewrite Hs, Hs'. now rewrite Heq.
Qed.

Lemma C6_witness :
  let l := [transaction "debit" (JNum (of_Z 800));
            transaction "credit" (JNum (of_Z 500))] in
  let l' := [transaction "credit" (JNum (of_Z 500));
             transaction "debit" (JNum (of_Z 800))] in
  let b := request (JNum (of_Z 1000)) l in
  let b' := request (JNum (of_Z 1000)) l' in
  valid_request b = true /\ ordinary b' = true /\ Permutation l l' /\
  within_precision (decimal_value (initialBalance_of b)) l /\
  within_precision (decimal_value (initialBalance_of b)) l' /\
  exists r r',
    is200 (post_calculate_balance b) r /\
    is200 (post_calculate_balance b') r' /\
    finalBalance r = finalBalance r' /\
    status r = status r'.
Proof.
  intros l l' b b'.
  assert (Hv : valid_request b = true) by (vm_compute; reflexivity).
  assert (Ho : ordinary b' = true) by (vm_compute; reflexivity).
  assert (Hp : Permutation l l') by apply perm_swap.
  assert (Hw : within_precision (decimal_value (initialBalance_of b)) l).
  { repeat constructor.
    - exists 200, 0. split; [reflexivity | vm_compute; reflexivity].
    - exists 700, 0. split; [reflexivity | vm_compute; reflexivity]. }
  assert (Hw' : within_precision (decimal_value (initialBalance_of b)) l').
  { repeat constructor.
    - exists 1500, 0. split; [reflexivity | vm_compute; reflexivity].
    - exists 700, 0. split; [reflexivity | vm_compute; reflexivity]. }
  split; [exact Hv|]. split; [exact Ho|]. split; [exact Hp|].
  split; [exact Hw|]. split; [exact Hw'|].
  exact (proj2 (proj2
    (C6_order_and_permutation b b' l l' Hv Ho eq_refl eq_refl eq_refl Hp Hw Hw'))).
Defined.

(** C7, as stated, fails, in three ways.  From initialBalance 0, a credit
    of 1e20, a debit of 0.4 and a debit of 1e20 (a valid request whose
    debits exceed balance plus credits by 0.4) give finalBalance 0 and
    status 1: 1e20 - 0.4 has 21 significant digits and [minus] rounds it
    back to 1e20.  From initialBalance 0, a debit of 1e-330 gives the
    balance -1e-330, which [toNumber] rounds to the number -0: the answer is
    finalBalance 0 and status 1.  And a debit of the number 1e21 is refused
    with 400: the validator checks the string 1e+21. *)
Lemma C7_counterexample :
  let overdrawn b :=
    (decimal_value (initialBalance_of b) + credits b < debits b)%Q in
  let b1 := request (JNum (of_Z 0))
              [transaction "credit" (JNum (mkDec 1 20));
               transaction "debit" (JNum (mkDec 4 (-1)));
               transaction "debit" (JNum (mkDec 1 20))] in
  let b2 := request (JNum (of_Z 0))
              [transaction "debit" (JStr (small_numeral "" 329))] in
  let b3 := request (JNum (of_Z 0)) [transaction "debit" (JNum (mkDec 1 21))] in
  (valid_request b1 = true /\ overdrawn b1 /\
   is200 (post_calculate_balance b1) (mkBalance (Finite (of_Z 0)) 1)) /\
  (valid_request b2 = true /\ overdrawn b2 /\
   within_precision (decimal_value (initialBalance_of b2)) (transactions_of b2) /\
   is200 (post_calculate_balance b2) (mkBalance (Finite (of_Z 0)) 1)) /\
  (claimed_violation b3 = false /\ overdrawn b3 /\
   exists ds, is400 (post_calculate_balance b3) ds).
Proof.
  split; [|split].
  - split; [vm_compute; reflexivity|]. split; vm_compute; reflexivity.
  - split; [vm_compute; reflexivity|]. split; [vm_compute; reflexivity|].
    split; [|vm_compute; reflexivity].
    repeat constructor.
    exists (-1), (-330). split; [reflexivity | vm_compute; reflexivity].
  - split; [vm_compute; reflexivity|]. split; [vm_compute; reflexivity|].
    eexists. vm_compute. reflexivity.
Qed.

(** C7 (amended): every request that is valid as the validator has it
    ([valid_request]) and whose debits exceed the initial balance plus the
    credits by more than 2^-1075 is answered 200, neither refused nor
    clamped; and when no running balance needs more than 20 significant
    digits, its finalBalance is the JavaScript number nearest to the exact
    total, a negative number, and its status is 2 (overdraft). *)
Theorem C7_overdraft_reported (b : jsval) :
  valid_request b = true ->
  (decimal_value (initialBalance_of b) + credits b + tiny < debits b)%Q ->
  exists r, is200 (post_calculate_balance b) r /\
    (within_precision (decimal_value (initialBalance_of b)) (transactions_of b) ->
     finalBalance r
     = to_number (decimal_value (initialBalance_of b) + credits b - debits b) /\
     negative (finalBalance r) /\
     status r = 2).
Proof.
  intros H Hlt.
  destruct (valid_request_200 b H) as (d0 & d & _ & _ & Hres).
  eexists. split; [exact Hres|]. intro Hw.
  destruct (valid_request_exact b H Hw) as (r & Hr & Hq & Hs).
  unfold is200 in Hr, Hres. rewrite Hres in Hr. injection Hr as <-.
  cbn [finalBalance status] in *.
  assert (Hneg : negative (toNumber d)).
  { rewrite Hq. apply to_number_negative.
    setoid_replace (decimal_value (initialBalance_of b) + credits b - debits b)%Q
      with ((decimal_value (initialBalance_of b) + credits b + tiny)
            + (- debits b - tiny))%Q by ring.
    setoid_replace (- tiny)%Q with (debits b + (- debits b - tiny))%Q by ring.
    apply Qplus_lt_l. exact Hlt. }
  repeat split; try assumption.
  apply negative_geb in Hneg; [now rewrite Hneg|].
  unfold toNumber. apply to_number_not_NaN.
Qed.

Lemma C7_witness :
  let b := request (JNum (of_Z 1000)) [transaction "debit" (JNum (of_Z 1500))] in
  valid_request b = true /\
  (decimal_value (initialBalance_of b) + credits b + tiny < debits b)%Q /\
  within_precision (decimal_value (initialBalance_of b)) (transactions_of b) /\
  exists r, is200 (post_calculate_balance b) r /\
    negative (finalBalance r) /\ status r = 2.
Proof.
  intro b.
  assert (Hv : valid_request b = true) by (vm_compute; reflexivity).
  assert (Hlt : (decimal_value (initialBalance_of b) + credits b + tiny < debits b)%Q)
    by (vm_compute; reflexivity).
  assert (Hw : within_precision (decimal_value (initialBalance_of b)) (transactions_of b)).
  { repeat constructor.
    exists (-500), 0. split; [reflexivity | vm_compute; reflexivity]. }
  split; [exact Hv|]. split; [exact Hlt|]. split; [exact Hw|].
  destruct (C7_overdraft_reported b Hv Hlt) as (r & Hr & Hrest).
  exists r. split; [exact Hr|]. exact (proj2 (Hrest Hw)).
Defined.

(** C8: once validation has passed, every exception thrown by the balance
    computation is an error whose message the handler reports in a 500
    answer with error "Internal server error"; a computation that completes
    is answered 200 with the complete result; the route always answers, with
    one of the two. *)
Theorem C8_exceptions_reported (b : jsval) :
  validation_errors b = Return [] ->
  (forall e, calculate b = Throw e ->
     exists m, e = ErrorObject m /\ is500 (post_calculate_balance b) m) /\
  (forall r, calculate b = Return r -> is200 (post_calculate_balance b) r) /\
  ((exists r, is200 (post_calculate_balance b) r) \/
   (exists m, is500 (post_calculate_balance b) m)).
Proof.
  intro Hv. pose proof (post_accepted b Hv) as Hpost.
  split; [|split].
  - intros e He. destruct (calculate_throws b e He) as [m ->].
    exists m. split; [reflexivity|]. unfold is500. now rewrite Hpost, He.
  - intros r Hr. unfold is200. now rewrite Hpost, Hr.
  - destruct (calculate b) as [r|e] eqn:E.
    + left. exists r. unfold is200. now rewrite Hpost.
    + destruct (calculate_throws b e E) as [m ->].
      right. exists m. unfold is500. now rewrite Hpost.
Qed.

Lemma C8_witness :
  let b := request (JArr [JNum (of_Z 1)]) [transaction "credit" (JNum (of_Z 1))] in
  validation_errors b = Return [] /\
  is500 (post_calculate_balance b) "[DecimalError] Invalid argument: 1".
Proof.
  intro b.
  assert (Hv : validation_errors b = Return []) by (vm_compute; reflexivity).
  split; [exact Hv|].
  destruct (proj1 (C8_exceptions_reported b Hv)
              (ErrorObject "[DecimalError] Invalid argument: 1") eq_refl)
    as (m & Hm & H).
  injection Hm as <-. exact H.
Defined.

(** C9: a request whose initialBalance and amount are strings holding
    numerals passes the validator and is answered 200, computed from the
    numeric values of the strings: "100" plus a credit of "50.5" is 150.5. *)
Theorem C9_numeric_strings_accepted :
  let b := request (JStr "100") [transaction "credit" (JStr "50.5")] in
  validation_errors b = Return [] /\
  exists r, is200 (post_calculate_balance b) r /\
    finalBalance r = Finite (mkDec 1505 (-1)) /\ status r = 1.
Proof.
  split; [vm_compute; reflexivity|].
  eexists. split; [vm_compute; reflexivity|]. split; reflexivity.
Qed.

(** C10, as stated, fails: the amount is converted before the type is
    looked at, so a transaction of unknown type whose amount [new Decimal]
    refuses is not skipped: the step throws.  A transaction whose type is
    the array [['debit']] and whose amount is the array [[5]] passes the
    validator, which checks the items of the two arrays; its type is
    neither the string 'credit' nor the string 'debit'; the request is
    answered 500. *)
Lemma C10_counterexample :
  let t := JObj [("type", JArr [JStr "debit"]); ("amount", JArr [JNum (of_Z 5)])] in
  let b := request (JNum (of_Z 0)) [t] in
  is_credit t = false /\ is_debit t = false /\
  validation_errors b = Return [] /\
  (forall d, process d t = Throw (ErrorObject "[DecimalError] Invalid argument: 5")) /\
  is500 (post_calculate_balance b) "[DecimalError] Invalid argument: 5".
Proof. vm_compute. repeat split. Qed.

(** C10 (amended): for every transaction whose type is neither 'credit' nor
    'debit': when its amount is one that [new Decimal] accepts (a number,
    or a string holding a decimal literal), the processing step returns the
    running balance unchanged; when its amount is missing, null, a boolean
    or an array, the step throws an error. *)
Theorem C10_unknown_type_skipped (b : Decimal) (t : jsval) :
  is_credit t = false -> is_debit t = false ->
  (convertible t = true -> process b t = Return b) /\
  (no_decimal (amount_of t) = true -> exists m, process b t = Throw (ErrorObject m)).
Proof.
  intros Hc Hd. unfold is_credit, is_debit in *. split; intro H.
  - destruct (convertible_inv t H) as (a & Ha & _ & Hx).
    unfold process. rewrite Hx. cbn [bind fst snd]. rewrite Ha. cbn [bind].
    now rewrite Hc, Hd.
  - destruct (process b t) as [d|e] eqn:E.
    + exfalso. unfold process in E.
      destruct (destructure "type" "amount" "transaction" t) as [[ty am]|e] eqn:Ed;
        cbn [bind] in E; [|discriminate].
      assert (am = amount_of t) as ->.
      { destruct t; cbn in Ed; try discriminate; now injection Ed as _ <-. }
      cbn [snd] in E. unfold new_Decimal in E.
      destruct (amount_of t); try discriminate H;
        destruct (String_throws _); discriminate E.
    + destruct (process_throws b t e E) as [m ->]. now exists m.
Qed.

Lemma C10_witness :
  let t := transaction "transfer" (JStr "7") in
  let u := JObj [("type", JStr "transfer")] in
  is_credit t = false /\ is_debit t = false /\ convertible t = true /\
  process (of_Z 5) t = Return (of_Z 5) /\
  is_credit u = false /\ is_debit u = false /\ no_decimal (amount_of u) = true /\
  exists m, process (of_Z 5) u = Throw (ErrorObject m).
Proof.
  intros t u.
  assert (Hc : is_credit t = false) by (vm_compute; reflexivity).
  assert (Hd : is_debit t = false) by (vm_compute; reflexivity).
  assert (Hv : convertible t = true) by (vm_compute; reflexivity).
  assert (Hc' : is_credit u = false) by (vm_compute; reflexivity).
  assert (Hd' : is_debit u = false) by (vm_compute; reflexivity).
  assert (Hn : no_decimal (amount_of u) = true) by (vm_compute; reflexivity).
  split; [exact Hc|]. split; [exact Hd|]. split; [exact Hv|].
  split; [exact (proj1 (C10_unknown_type_skipped (of_Z 5) t Hc Hd) Hv)|].
  split; [exact Hc'|]. split; [exact Hd'|]. split; [exact Hn|].
  exact (proj2 (C10_unknown_type_skipped (of_Z 5) u Hc' Hd') Hn).
Defined.

(* ------------------------------------------------------------------ *)
(** ** Requests that pass the validator *)

Lemma new_Decimal_message (v : jsval) (e : thrown) :
  String_throws v = false ->
  new_Decimal v = Throw e -> e = ErrorObject (invalid_argument v).
Proof.
  unfold new_Decimal, invalid_argument. intros Hs H. rewrite Hs in H.
  destruct v as [| | |x|s|l|fs]; try (now injection H as <-); [discriminate|].
  destruct (scan (list_ascii_of_string s)) as [n|]; [|now injection H as <-].
  destruct (nonempty (nint n) || ndot n && nonempty (nfrac n));
    [discriminate | now injection H as <-].
Qed.

Lemma map_eq_nil_inv {A B : Type} (f : A -> B) (l : list A) : map f l = [] -> l = [].
Proof. destruct l; [reflexivity | discriminate]. Qed.

Lemma item_errors_nil (b : jsval) (prop : string) (r : rule) (l : list jsval) :
  ordinary b = true ->
  forall i, item_errors b "transactions" prop r i l = [] ->
            Forall (fun t => refused (check r) (get_prop t prop) = []) l.
Proof.
  intro Hb. induction l as [|t l IH]; intros i H; [constructor|].
  rewrite (item_errors_ordinary _ _ _ _ _ _ _ Hb) in H.
  apply app_eq_nil in H. destruct H as [Ht Hl].
  constructor; [|exact (IH (S i) Hl)].
  unfold run_rule in Ht. now apply map_eq_nil_inv in Ht.
Qed.

(** What an empty list of errors says: [transactions] is an array of
    objects, and no check has refused [initialBalance], a [type] or an
    [amount]. *)
Lemma accepted_inv (b : jsval) :
  ordinary b = true ->
  recorded_errors b = [] ->
  refused IsNumeric (initialBalance_of b) = [] /\
  exists fs l,
    b = JObj fs /\ lookup "transactions" fs = JArr l /\
    Forall (fun t => is_object t = true /\
                     refused (IsIn ["credit"; "debit"]) (type_of t) = [] /\
                     refused IsNumeric (amount_of t) = [] /\
                     refused (IsFloat 0) (amount_of t) = []) l.
Proof.
  intros Hb H. rewrite recorded_errors_eq in H.
  apply app_eq_nil in H. destruct H as [Hi H].
  apply app_eq_nil in H. destruct H as [H Hw].
  apply app_eq_nil in H. destruct H as [Ha _].
  apply map_eq_nil_inv in Hi. apply map_eq_nil_inv in Ha.
  split; [exact Hi|].
  destruct b as [| | | | | |fs]; try discriminate Ha.
  cbn [get_prop] in *.
  destruct (lookup "transactions" fs) as [| | | | |l|] eqn:El; try discriminate Ha.
  exists fs, l. split; [reflexivity|]. split; [exact El|].
  apply app_eq_nil in Hw. destruct Hw as [Ht Hw].
  apply app_eq_nil in Hw. destruct Hw as [Hn Hf].
  pose proof (item_errors_nil _ _ _ _ Hb _ Ht) as Ft.
  pose proof (item_errors_nil _ _ _ _ Hb _ Hn) as Fn.
  pose proof (item_errors_nil _ _ _ _ Hb _ Hf) as Ff.
  cbn [check type_rule numeric_rule float_rule] in Ft, Fn, Ff.
  rewrite Forall_forall in *. intros t Hin.
  specialize (Ft t Hin). specialize (Fn t Hin). specialize (Ff t Hin).
  fold (type_of t) in Ft. fold (amount_of t) in Fn, Ff.
  repeat split; try assumption.
  destruct t; try reflexivity; discriminate Ft.
Qed.

Lemma process_returns (d : Decimal) (t : jsval) :
  convertible t = true -> exists d', process d t = Return d'.
Proof.
  intro H. destruct (convertible_inv t H) as (a & Ha & _ & Hx).
  unfold process. rewrite Hx. cbn [bind fst snd]. rewrite Ha. cbn [bind].
  destruct (strict_eq_string (type_of t) "credit"); [eauto|].
  destruct (strict_eq_string (type_of t) "debit"); eauto.
Qed.

Lemma process_inconvertible (d : Decimal) (t : jsval) :
  is_object t = true -> plain_data t = true -> convertible t = false ->
  process d t = Throw (ErrorObject (invalid_argument (amount_of t))).
Proof.
  intros Ho Hp Hc. unfold convertible in Hc. unfold process.
  assert (Hx : destructure "type" "amount" "transaction" t
               = Return (type_of t, amount_of t)).
  { destruct t; try reflexivity; discriminate Ho. }
  rewrite Hx. cbn [bind fst snd].
  destruct (new_Decimal (amount_of t)) as [a|e] eqn:E; [discriminate|].
  cbn [bind]. rewrite (new_Decimal_message (amount_of t) e); [reflexivity| |exact E].
  apply plain_prints. now apply plain_data_get_prop.
Qed.

(** The loop stops at the first amount that [new Decimal] refuses. *)
Lemma process_all_inconvertible (l : list jsval) :
  Forall (fun t => is_object t = true /\ plain_data t = true) l ->
  forallb convertible l = false ->
  forall d, exists t,
    In t l /\ convertible t = false /\
    process_all d l = Throw (ErrorObject (invalid_argument (amount_of t))).
Proof.
  induction 1 as [|t l [Ho Hp] _ IH]; [discriminate|].
  cbn [forallb]. intros Hc d.
  destruct (convertible t) eqn:E.
  - destruct (process_returns d t E) as [d' Hd'].
    destruct (IH Hc d') as (t' & Hin & Hc' & Hq).
    exists t'. split; [now right|]. split; [exact Hc'|].
    cbn [process_all]. now rewrite Hd'.
  - exists t. split; [now left|]. split; [exact E|].
    cbn [process_all]. now rewrite (process_inconvertible d t Ho Hp E).
Qed.

(** A value that the validator takes for numeric and [new Decimal] refuses
    is an array. *)
Lemma refused_by_Decimal_only (v : jsval) (e : thrown) :
  refused IsNumeric v = [] -> new_Decimal v = Throw e -> is_array v = true.
Proof.
  intros Hr Hd. destruct (is_array v) eqn:Ea; [reflexivity|].
  assert (Hna : not_array v = true) by (unfold not_array; now rewrite Ea).
  destruct (plain_numeric v) eqn:Ep.
  - destruct (plain_numeric_decimal v Ep) as [d Hd']. congruence.
  - rewrite (refused_IsNumeric_other v Hna Ep) in Hr. discriminate Hr.
Qed.

Lemma plain_data_items (l : list jsval) (t : jsval) :
  plain_data (JArr l) = true -> In t l -> plain_data t = true.
Proof.
  cbn [plain_data]. intros H Hin. rewrite forallb_forall in H. now apply H.
Qed.

(** X1: once the validator has let an ordinary request through, the answer
    is 200 when [new Decimal] accepts [initialBalance] and the amount of
    every transaction.  Otherwise it is 500: the value refused is an array,
    [initialBalance] or the amount of a transaction, whose items the
    validator has checked one by one (it may be empty), and the message is
    that of the [DecimalError] for it.  No other exception reaches the
    [catch]. *)
Theorem X1_accepted_request_outcome (b : jsval) :
  ordinary b = true ->
  validation_errors b = Return [] ->
  (computable b = true -> exists r, is200 (post_calculate_balance b) r) /\
  (computable b = false ->
     exists v,
       (v = initialBalance_of b \/
        exists t, In t (transactions_of b) /\ v = amount_of t) /\
       is_array v = true /\
       new_Decimal v = Throw (ErrorObject (invalid_argument v)) /\
       is500 (post_calculate_balance b) (invalid_argument v)).
Proof.
  intros Ho Hv.
  assert (Hr : recorded_errors b = []).
  { rewrite (validation_errors_ordinary b Ho) in Hv. now injection Hv. }
  assert (Hp : plain_data b = true).
  { unfold ordinary in Ho. now apply andb_prop in Ho as [Ho _]. }
  destruct (accepted_inv b Ho Hr) as (Hni & fs & l & -> & Hl & Hall).
  pose proof (plain_data_get_prop _ "initialBalance" Hp) as Hpi.
  pose proof (plain_data_get_prop _ "transactions" Hp) as Hpl.
  rewrite (post_accepted _ Hv).
  unfold computable, initialBalance_of, transactions_of, calculate in *.
  cbn [destructure get_prop bind fst snd] in *. rewrite Hl in *. cbn [iterate bind].
  assert (Hobj : Forall (fun t => is_object t = true /\ plain_data t = true) l).
  { rewrite Forall_forall in *. intros t Hin. split; [apply (Hall t Hin)|].
    exact (plain_data_items l t Hpl Hin). }
  destruct (new_Decimal (lookup "initialBalance" fs)) as [d0|e] eqn:E0;
    cbn [bind andb].
  - split; intro Hc.
    + destruct (process_all_returns l d0 Hc) as [d Hd].
      rewrite Hd. cbn [bind]. eexists. reflexivity.
    + destruct (process_all_inconvertible l Hobj Hc d0) as (t' & Hin & Hc' & Hq).
      exists (amount_of t'). split; [right; now exists t'|].
      unfold convertible in Hc'.
      destruct (new_Decimal (amount_of t')) as [a|e] eqn:E; [discriminate|].
      rewrite Forall_forall in Hall, Hobj.
      destruct (Hall t' Hin) as (_ & _ & Hnum & _).
      destruct (Hobj t' Hin) as (_ & Hpt).
      split; [exact (refused_by_Decimal_only _ e Hnum E)|].
      split.
      * rewrite (new_Decimal_message _ _ (plain_prints _ (plain_data_get_prop _ "amount" Hpt)) E).
        reflexivity.
      * rewrite Hq. reflexivity.
  - split; intro Hc; [discriminate|].
    exists (lookup "initialBalance" fs). split; [now left|].
    split; [exact (refused_by_Decimal_only _ e Hni E0)|].
    pose proof (new_Decimal_message _ _ (plain_prints _ Hpi) E0) as ->.
    split; [exact E0 | reflexivity].
Qed.

Lemma X1_witness :
  let good := request (JStr ".5") [transaction "debit" (JStr "1")] in
  let bad := request (JNum (of_Z 1))
               [transaction "credit" (JArr [JNum (of_Z 2); JStr "3"])] in
  let none := request (JArr []) [] in
  (ordinary good = true /\ validation_errors good = Return [] /\
   computable good = true /\
   exists r, is200 (post_calculate_balance good) r) /\
  (ordinary bad = true /\ validation_errors bad = Return [] /\
   computable bad = false /\
   exists v, is500 (post_calculate_balance bad) (invalid_argument v)) /\
  (ordinary none = true /\ validation_errors none = Return [] /\
   computable none = false /\
   exists v, is500 (post_calculate_balance none) (invalid_argument v)).
Proof.
  intros good bad none.
  assert (Hog : ordinary good = true) by (vm_compute; reflexivity).
  assert (Hob : ordinary bad = true) by (vm_compute; reflexivity).
  assert (Hon : ordinary none = true) by (vm_compute; reflexivity).
  assert (Hg : validation_errors good = Return []) by (vm_compute; reflexivity).
  assert (Hb : validation_errors bad = Return []) by (vm_compute; reflexivity).
  assert (Hn : validation_errors none = Return []) by (vm_compute; reflexivity).
  assert (Hcg : computable good = true) by (vm_compute; reflexivity).
  assert (Hcb : computable bad = false) by (vm_compute; reflexivity).
  assert (Hcn : computable none = false) by (vm_compute; reflexivity).
  split; [|split].
  - split; [exact Hog|]. split; [exact Hg|]. split; [exact Hcg|].
    exact (proj1 (X1_accepted_request_outcome good Hog Hg) Hcg).
  - split; [exact Hob|]. split; [exact Hb|]. split; [exact Hcb|].
    destruct (proj2 (X1_accepted_request_outcome bad Hob Hb) Hcb) as (v & _ & _ & _ & H).
    now exists v.
  - split; [exact Hon|]. split; [exact Hn|]. split; [exact Hcn|].
    destruct (proj2 (X1_accepted_request_outcome none Hon Hn) Hcn) as (v & _ & _ & _ & H).
    now exists v.
Defined.

(* ------------------------------------------------------------------ *)
(** ** What the validator guarantees to the handler *)

(** X2: the last branch of the loop, which skips a transaction, is not
    reached through a [type] of the wrong spelling, nor through an item
    that is no object: in an ordinary request that the validator lets
    through, every transaction is an object, and is a credit or a debit
    for the handler unless its [type] is an array. *)
Theorem X2_accepted_kinds_are_read (b : jsval) :
  ordinary b = true ->
  validation_errors b = Return [] ->
  Forall (fun t => is_object t = true /\
                   (not_array (type_of t) = true ->
                    is_credit t || is_debit t = true))
         (transactions_of b).
Proof.
  intros Ho Hv.
  assert (Hr : recorded_errors b = []).
  { rewrite (validation_errors_ordinary b Ho) in Hv. now injection Hv. }
  destruct (accepted_inv b Ho Hr) as (_ & fs & l & -> & Hl & Hall).
  unfold transactions_of. cbn [get_prop]. rewrite Hl.
  rewrite Forall_forall in *. intros t Hin.
  destruct (Hall t Hin) as (Hobj & Hk & _).
  split; [exact Hobj|]. intro Hna.
  destruct (is_credit t || is_debit t) eqn:E; [reflexivity|].
  rewrite (refused_IsIn_other t Hna E) in Hk. discriminate Hk.
Qed.

Lemma X2_witness :
  let b := request (JNum (of_Z 10))
             [transaction "debit" (JStr "2.50"); transaction "credit" (JNum (of_Z 1))] in
  ordinary b = true /\ validation_errors b = Return [] /\
  Forall (fun t => is_credit t || is_debit t = true) (transactions_of b).
Proof.
  intro b.
  assert (Ho : ordinary b = true) by (vm_compute; reflexivity).
  assert (Hv : validation_errors b = Return []) by (vm_compute; reflexivity).
  split; [exact Ho|]. split; [exact Hv|].
  pose proof (X2_accepted_kinds_are_read b Ho Hv) as H.
  apply Forall_forall. intros t Ht.
  rewrite Forall_forall in H. specialize (H t Ht).
  destruct Ht as [<-|[<-|[]]]; now apply H.
Defined.

(* ------------------------------------------------------------------ *)
(** ** What the details blame *)







(* ------------------------------------------------------------------ *)
(** ** A [type] that is an array *)

Lemma kind_list_not_refused (v : jsval) :
  kind_list v = true -> refused (IsIn ["credit"; "debit"]) v = [].
Proof.
  destruct v as [| | | | |l|]; try discriminate.
  destruct l as [|x l]; [discriminate|].
  unfold kind_list, refused. cbn [standard_values].
  induction (x :: l) as [|y r IH]; [reflexivity|].
  cbn [forallb]. intro H. apply andb_true_iff in H. destruct H as [Hy H].
  cbn [filter].
  assert (E : standard_check (IsIn ["credit"; "debit"]) (validator_toString y) = true).
  { destruct y as [| | | |s| |]; try discriminate Hy.
    cbn [strict_eq_string] in Hy. cbn [validator_toString js_String standard_check].
    unfold isIn. cbn [existsb]. now rewrite orb_false_r. }
  rewrite E. cbn [negb]. now apply IH.
Qed.

Lemma unread_transaction_inv (t : jsval) :
  unread_transaction t = true ->
  is_object t = true /\ plain_data t = true /\ kind_list (type_of t) = true /\
  plain_numeric (amount_of t) = true /\ non_negative (amount_of t) = true.
Proof.
  unfold unread_transaction. intro H.
  apply andb_true_iff in H. destruct H as [H Hnn].
  apply andb_true_iff in H. destruct H as [H Hpn].
  apply andb_true_iff in H. destruct H as [H Hk].
  apply andb_true_iff in H. destruct H as [Ho Hp].
  now repeat split.
Qed.

Lemma unread_items_accepted (b : jsval) (l : list jsval) :
  ordinary b = true ->
  forall i, forallb unread_transaction l = true ->
    item_errors b "transactions" "type" type_rule i l = [] /\
    item_errors b "transactions" "amount" numeric_rule i l = [] /\
    item_errors b "transactions" "amount" float_rule i l = [].
Proof.
  intro Hb. induction l as [|t l IH]; intros i H; [now repeat split|].
  cbn [forallb] in H. apply andb_true_iff in H. destruct H as [Ht H].
  destruct (unread_transaction_inv t Ht) as (_ & _ & Hk & Hpn & Hnn).
  destruct (IH (S i) H) as (IH1 & IH2 & IH3).
  rewrite !(item_errors_ordinary _ _ _ _ _ _ _ Hb), IH1, IH2, IH3.
  unfold run_rule, type_rule, numeric_rule, float_rule. cbn [check].
  fold (type_of t). fold (amount_of t).
  rewrite (kind_list_not_refused _ Hk), (refused_IsNumeric_plain _ Hpn),
    (refused_IsFloat_nonneg _ Hpn Hnn).
  now repeat split.
Qed.

Lemma unread_items_skipped (l : list jsval) :
  forallb unread_transaction l = true ->
  forall d, process_all d l = Return d.
Proof.
  induction l as [|t l IH]; intros H d; [reflexivity|].
  cbn [forallb] in H. apply andb_true_iff in H. destruct H as [Ht H].
  destruct (unread_transaction_inv t Ht) as (Ho & _ & Hk & Hpn & _).
  destruct t as [| | | | | |fs]; try discriminate Ho.
  destruct (plain_numeric_decimal _ Hpn) as [a Ha].
  cbn [process_all]. unfold process.
  change (destructure "type" "amount" "transaction" (JObj fs))
    with (Return (type_of (JObj fs), amount_of (JObj fs))).
  cbn [bind fst snd]. rewrite Ha. cbn [bind].
  destruct (type_of (JObj fs)) as [| | | | |k|]; try discriminate Hk.
  cbn [strict_eq_string]. now apply IH.
Qed.

Lemma unread_items_objects (l : list jsval) :
  forallb unread_transaction l = true ->
  forallb is_object l = true /\ forallb plain_data l = true.
Proof.
  induction l as [|t l IH]; [now split|].
  cbn [forallb]. intro H. apply andb_true_iff in H. destruct H as [Ht H].
  destruct (IH H) as [-> ->].
  destruct (unread_transaction_inv t Ht) as (-> & -> & _). now split.
Qed.

Lemma plain_numeric_plain_data (v : jsval) : plain_numeric v = true -> plain_data v = true.
Proof. destruct v; try discriminate; reflexivity. Qed.

(** X4: the validator checks an array item by item, and the handler
    compares [type] with [===]: transactions whose [type] is an array such
    as [['credit']] pass the validator and are all skipped.  The request is
    answered 200 with [initialBalance] as [finalBalance], whatever the
    amounts. *)
Theorem X4_array_kinds_pass_unread (initialBalance : jsval) (l : list jsval) :
  plain_numeric initialBalance = true ->
  l <> [] ->
  forallb unread_transaction l = true ->
  validation_errors (request initialBalance l) = Return [] /\
  exists d0,
    new_Decimal initialBalance = Return d0 /\
    is200 (post_calculate_balance (request initialBalance l))
          (mkBalance (toNumber d0)
                     (if number_geb (toNumber d0) (Finite (of_Z 0)) then 1 else 2)).
Proof.
  intros Hi Hl H.
  destruct (unread_items_objects l H) as [Hobj Hpl].
  assert (Ho : ordinary (request initialBalance l) = true).
  { unfold ordinary, request. rewrite !plain_data_cons.
    cbn [plain_data printing_name String.eqb Ascii.eqb Bool.eqb negb andb orb
         forallb fst path_like list_ascii_of_string existsb].
    rewrite (plain_numeric_plain_data _ Hi), Hpl. reflexivity. }
  assert (Hv : validation_errors (request initialBalance l) = Return []).
  { rewrite (validation_errors_ordinary _ Ho). f_equal.
    rewrite recorded_errors_eq.
    change (get_prop (request initialBalance l) "transactions") with (JArr l).
    change (initialBalance_of (request initialBalance l)) with initialBalance.
    rewrite (refused_IsNumeric_plain _ Hi).
    destruct (unread_items_accepted _ l Ho 0%nat H) as (-> & -> & ->).
    rewrite (refused_NotEmpty_objects l Hobj).
    reflexivity. }
  split; [exact Hv|].
  destruct (plain_numeric_decimal _ Hi) as [d0 Hd0].
  exists d0. split; [exact Hd0|].
  unfold is200. rewrite (post_accepted _ Hv). unfold calculate.
  change (destructure "initialBalance" "transactions" "req.body" (request initialBalance l))
    with (Return (initialBalance, JArr l)).
  cbn [bind fst snd iterate]. rewrite Hd0. cbn [bind].
  rewrite (unread_items_skipped l H). reflexivity.
Qed.

Lemma X4_witness :
  let l := [JObj [("type", JArr [JStr "debit"]); ("amount", JNum (of_Z 5000))]] in
  plain_numeric (JNum (of_Z 100)) = true /\ l <> [] /\
  forallb unread_transaction l = true /\
  is200 (post_calculate_balance (request (JNum (of_Z 100)) l))
        (mkBalance (Finite (of_Z 100)) 1).
Proof.
  intro l.
  assert (Hi : plain_numeric (JNum (of_Z 100)) = true) by (vm_compute; reflexivity).
  assert (Hl : l <> []) by discriminate.
  assert (H : forallb unread_transaction l = true) by (vm_compute; reflexivity).
  split; [exact Hi|]. split; [exact Hl|]. split; [exact H|].
  destruct (X4_array_kinds_pass_unread (JNum (of_Z 100)) l Hi Hl H) as (_ & d0 & Hd0 & Hr).
  injection Hd0 as <-.
  assert (E : toNumber (of_Z 100) = Finite (of_Z 100)) by (vm_compute; reflexivity).
  rewrite E in Hr. exact Hr.
Defined.

(* ------------------------------------------------------------------ *)
(** ** The sign of an amount *)

Lemma Qval_zero : (Qval (of_Z 0) == 0)%Q.
Proof. reflexivity. Qed.

Lemma non_negative_iff (v : jsval) :
  plain_numeric v = true ->
  (non_negative v = true <-> (- tiny <= decimal_value v)%Q).
Proof.
  destruct v as [| | |x|s|l|fs]; try discriminate; cbn [plain_numeric non_negative].
  - intro H. unfold decimal_value. cbn [new_Decimal].
    rewrite <- (plain_sign x H). apply Qle_bool_iff.
  - unfold isNumeric, decimal_value, new_Decimal.
    destruct (scan (list_ascii_of_string s)) as [n|] eqn:Es; [|discriminate].
    destruct (nexp n); [discriminate|]. intro Hn.
    assert (Hc : nonempty (nint n) || ndot n && nonempty (nfrac n) = true).
    { destruct (ndot n); rewrite Hn; [apply orb_true_r | reflexivity]. }
    assert (Hd : numeral_has_digit n = true).
    { unfold numeral_has_digit. destruct (ndot n); rewrite Hn;
        [apply orb_true_r | reflexivity]. }
    rewrite Hc, (isFloat_value s n Es Hd). apply Qle_bool_iff.
Qed.

(** X5: among numeric amounts, the check [isFloat({ min: 0 })] refuses those
    that read as a number below zero.  It reads the amount through
    [parseFloat], that is, rounded to binary64: an amount that is a number
    in the printable range or a plain decimal numeral is let through when
    its value is at least -2^-1075 (zero or more, or so little below that
    it reads as the number -0) and reported when it is below that. *)
Theorem X5_amount_sign_check (v : jsval) :
  plain_numeric v = true ->
  ((- tiny <= decimal_value v)%Q -> refused (IsFloat 0) v = []) /\
  ((decimal_value v < - tiny)%Q -> refused (IsFloat 0) v = [v]).
Proof.
  intro H. pose proof (non_negative_iff v H) as Hiff. split; intro Hs.
  - apply refused_IsFloat_nonneg; [exact H | now apply Hiff].
  - apply refused_IsFloat_negative; [exact H|].
    destruct (non_negative v); [|reflexivity].
    exfalso. apply (Qlt_not_le _ _ Hs). now apply Hiff.
Qed.

Lemma X5_witness :
  let small := JStr (small_numeral "-" 329) in
  plain_numeric (JStr "-0.00") = true /\
  refused (IsFloat 0) (JStr "-0.00") = [] /\
  plain_numeric small = true /\
  refused (IsFloat 0) small = [] /\
  plain_numeric (JStr "-.01") = true /\
  refused (IsFloat 0) (JStr "-.01") = [JStr "-.01"].
Proof.
  intro small.
  assert (H1 : plain_numeric (JStr "-0.00") = true) by reflexivity.
  assert (H2 : plain_numeric (JStr "-.01") = true) by reflexivity.
  assert (H3 : plain_numeric small = true) by (vm_compute; reflexivity).
  split; [exact H1|]. split.
  - apply (proj1 (X5_amount_sign_check (JStr "-0.00") H1)). vm_compute. discriminate.
  - split; [exact H3|]. split.
    + apply (proj1 (X5_amount_sign_check small H3)). vm_compute. discriminate.
    + split; [exact H2|].
      apply (proj2 (X5_amount_sign_check (JStr "-.01") H2)). vm_compute. reflexivity.
Defined.

(* ------------------------------------------------------------------ *)
(** ** Numbers by their magnitude *)

(** X6: the validator sees a number through the string JavaScript prints
    for it, and [isNumeric] knows no exponent: a JSON number passes the
    check exactly when it is zero or its magnitude is at least [1e-6] and
    below [1e21]. *)
Theorem X6_number_accepted_by_magnitude (x : number) :
  refused IsNumeric (JNum x) = [] <->
  (Qval x == 0 \/
   (pow10 (-6) <= Qabs (Qval x) /\ Qabs (Qval x) < pow10 21))%Q.
Proof.
  assert (E : refused IsNumeric (JNum x) = [] <-> in_plain_range x = true).
  { unfold refused. cbn [standard_values filter validator_toString js_String standard_check].
    rewrite isNumeric_number, plain_position_range.
    destruct (in_plain_range x); cbn [negb]; split; congruence. }
  rewrite E. unfold in_plain_range.
  rewrite orb_true_iff, andb_true_iff, negb_true_iff, Qeq_bool_iff,
    Qle_bool_iff, Qle_bool_false.
  reflexivity.
Qed.

(* ------------------------------------------------------------------ *)
(** ** Rounding: sign and error *)

Lemma Qval_nonneg (d : Dec) : (0 <= Qval d)%Q <-> 0 <= coef d.
Proof.
  unfold Qval. rewrite (Zle_Qle 0 (coef d)).
  rewrite <- (Qmult_le_r 0 (inject_Z (coef d)) (pow10 (expo d)) (pow10_pos _)).
  now rewrite Qmult_0_l.
Qed.

Lemma Qval_negative (d : Dec) : (Qval d < 0)%Q <-> coef d < 0.
Proof.
  unfold Qval. rewrite (Zlt_Qlt (coef d) 0).
  rewrite <- (Qmult_lt_r (inject_Z (coef d)) 0 (pow10 (expo d)) (pow10_pos _)).
  now rewrite Qmult_0_l.
Qed.

Lemma abs_sgn_nonzero (c : Z) : c <> 0 -> Z.abs (Z.sgn c) = 1.
Proof. destruct c; [congruence | reflexivity | reflexivity]. Qed.

Lemma excess_digits_upper (fuel : nat) :
  forall k c, c < 10 ^ (precision + k + Z.of_nat fuel) ->
    c < 10 ^ (precision + excess_digits fuel k c).
Proof.
  induction fuel as [|fuel IH]; intros k c H; cbn [excess_digits].
  - now replace (precision + k + Z.of_nat 0) with (precision + k) in H by lia.
  - destruct (c <? 10 ^ (precision + k)) eqn:E; [now apply Z.ltb_lt in E|].
    apply IH. now replace (precision + (k + 1) + Z.of_nat fuel)
                with (precision + k + Z.of_nat (S fuel)) by lia.
Qed.

(** The search for the number of digits to drop has fuel enough. *)
Lemma excess_digits_found (a : Z) :
  0 < a -> a < 10 ^ (precision + excess_digits (Z.to_nat (Z.log2 a)) 1 a).
Proof.
  intro Ha. apply excess_digits_upper.
  pose proof (Z.log2_nonneg a) as Hl.
  rewrite Z2Nat.id by exact Hl.
  destruct (Z.log2_spec a Ha) as [_ Hup].
  apply Z.lt_le_trans with (2 ^ Z.succ (Z.log2 a)); [exact Hup|].
  apply Z.le_trans with (10 ^ Z.succ (Z.log2 a)).
  - apply Z.pow_le_mono_l. lia.
  - apply Z.pow_le_mono_r; unfold precision; lia.
Qed.

(** The pieces of a rounding that does round. *)
Lemma finalise_rounds (d : Dec) :
  10 ^ precision <= Z.abs (coef d) ->
  exists k q,
    1 <= k /\
    10 ^ (precision + k - 1) <= Z.abs (coef d) < 10 ^ (precision + k) /\
    finalise d = mkDec (Z.sgn (coef d) * q) (expo d + k) /\
    0 < q /\
    - (5 * 10 ^ (k - 1)) < q * 10 ^ k - Z.abs (coef d) <= 5 * 10 ^ (k - 1).
Proof.
  intro Hbig. unfold finalise.
  apply Z.ltb_ge in Hbig. rewrite Hbig. apply Z.ltb_ge in Hbig.
  set (a := Z.abs (coef d)) in *.
  destruct (excess_digits_spec (Z.to_nat (Z.log2 a)) 1 a) as [Hk Hlow].
  { now replace (precision + 1 - 1) with precision by lia. }
  assert (Hp : 0 < 10 ^ precision) by (apply Z.pow_pos_nonneg; unfold precision; lia).
  pose proof (excess_digits_found a ltac:(lia)) as Hup.
  set (k := excess_digits (Z.to_nat (Z.log2 a)) 1 a) in *.
  exists k, ((a + 5 * 10 ^ (k - 1)) / 10 ^ k).
  assert (Hh : 0 < 10 ^ (k - 1)) by (apply Z.pow_pos_nonneg; lia).
  assert (HP : 10 ^ k = 10 * 10 ^ (k - 1)).
  { rewrite <- Z.pow_succ_r by lia. f_equal. lia. }
  assert (Hka : 10 ^ k <= a).
  { eapply Z.le_trans; [|exact Hlow]. apply Z.pow_le_mono_r; unfold precision; lia. }
  pose proof (Z.div_mod (a + 5 * 10 ^ (k - 1)) (10 ^ k) ltac:(lia)) as Hdm.
  pose proof (Z.mod_pos_bound (a + 5 * 10 ^ (k - 1)) (10 ^ k) ltac:(lia)) as Hr.
  set (q := (a + 5 * 10 ^ (k - 1)) / 10 ^ k) in *.
  set (r := (a + 5 * 10 ^ (k - 1)) mod 10 ^ k) in *.
  repeat split; try assumption; try lia.
Qed.

(** Rounding keeps the sign. *)
Lemma finalise_sgn (d : Dec) : Z.sgn (coef (finalise d)) = Z.sgn (coef d).
Proof.
  destruct (Z_lt_le_dec (Z.abs (coef d)) (10 ^ precision)) as [H|H].
  - unfold finalise. apply Z.ltb_lt in H. now rewrite H.
  - destruct (finalise_rounds d H) as (k & q & _ & _ & -> & Hq & _).
    cbn [coef]. rewrite Z.sgn_mul, (Z.sgn_pos q Hq), Z.sgn_sgn. lia.
Qed.

Lemma finalise_nonneg (d : Dec) : (0 <= Qval d)%Q -> (0 <= Qval (finalise d))%Q.
Proof.
  rewrite !Qval_nonneg. intro H. pose proof (finalise_sgn d) as Hs.
  apply Z.sgn_nonneg. rewrite Hs. now apply Z.sgn_nonneg.
Qed.

Lemma finalise_negative (d : Dec) : (Qval d < 0)%Q -> (Qval (finalise d) < 0)%Q.
Proof.
  rewrite !Qval_negative. intro H. pose proof (finalise_sgn d) as Hs.
  apply Z.sgn_neg_iff. rewrite Hs. now apply Z.sgn_neg_iff.
Qed.

Lemma plus_nonneg (x y : Decimal) :
  (0 <= Qval x)%Q -> (0 <= Qval y)%Q -> (0 <= Qval (plus x y))%Q.
Proof.
  intros Hx Hy. apply finalise_nonneg. rewrite Qval_dadd.
  change 0%Q with (0 + 0)%Q. now apply Qplus_le_compat.
Qed.

Lemma minus_negative (x y : Decimal) :
  (Qval x < 0)%Q -> (0 <= Qval y)%Q -> (Qval (minus x y) < 0)%Q.
Proof.
  intros Hx Hy. apply finalise_negative. rewrite Qval_dsub.
  apply Qle_lt_trans with (Qval x); [|exact Hx].
  setoid_replace (Qval x) with (Qval x + - 0)%Q at 2 by ring.
  unfold Qminus. apply Qplus_le_compat; [apply Qle_refl|].
  now apply Qopp_le_compat.
Qed.

(** A rounding moves a value by at most [unit_roundoff] of its magnitude. *)
Lemma finalise_error (d : Dec) :
  (Qabs (Qval (finalise d) - Qval d) <= unit_roundoff * Qabs (Qval d))%Q.
Proof.
  assert (Hu : (0 <= unit_roundoff)%Q).
  { unfold unit_roundoff. apply Qmult_le_0_compat; [discriminate|].
    apply Qlt_le_weak, pow10_pos. }
  destruct (Z_lt_le_dec (Z.abs (coef d)) (10 ^ precision)) as [H|H].
  - unfold finalise. apply Z.ltb_lt in H. rewrite H.
    setoid_replace (Qval d - Qval d)%Q with 0%Q by ring.
    apply Qmult_le_0_compat; [exact Hu | apply Qabs_nonneg].
  - destruct (finalise_rounds d H) as (k & q & Hk & [Hlow _] & -> & Hq & Herr).
    set (c := coef d) in *. set (a := Z.abs c) in *.
    assert (Hdiff : (Qval (mkDec (Z.sgn c * q) (expo d + k)) - Qval d
                     == inject_Z (Z.sgn c * (q * 10 ^ k - a)) * pow10 (expo d))%Q).
    { rewrite <- (Qval_pow (Z.sgn c * q) k (expo d)) by lia.
      unfold Qval. cbn [coef expo]. fold c.
      replace (Z.sgn c * (q * 10 ^ k - a)) with (Z.sgn c * q * 10 ^ k - c).
      - unfold Z.sub. rewrite inject_Z_plus, inject_Z_opp. ring.
      - unfold a. rewrite Z.mul_sub_distr_l, (Z.mul_comm (Z.sgn c) (Z.abs c)), Z.abs_sgn.
        ring. }
    rewrite Hdiff, Qabs_Qmult, Qabs_Qval. fold c a.
    rewrite (Qabs_pos (pow10 (expo d))) by (apply Qlt_le_weak, pow10_pos).
    rewrite Qmult_assoc.
    apply Qmult_le_compat_r; [|apply Qlt_le_weak, pow10_pos].
    unfold unit_roundoff.
    assert (Hz : Z.abs (Z.sgn c * (q * 10 ^ k - a)) * 10 ^ precision <= 5 * a).
    { rewrite Z.abs_mul.
      assert (Hs : Z.abs (Z.sgn c) = 1).
      { assert (0 < 10 ^ precision) by (apply Z.pow_pos_nonneg; unfold precision; lia).
        apply abs_sgn_nonzero. unfold a in H. lia. }
      rewrite Hs, Z.mul_1_l.
      assert (Hp : 10 ^ (precision + k - 1) = 10 ^ (k - 1) * 10 ^ precision).
      { rewrite <- Z.pow_add_r by (unfold precision; lia). f_equal. lia. }
      assert (Hp0 : 0 < 10 ^ precision) by (apply Z.pow_pos_nonneg; unfold precision; lia).
      assert (Hb : Z.abs (q * 10 ^ k - a) <= 5 * 10 ^ (k - 1)) by lia.
      apply Z.le_trans with (5 * 10 ^ (k - 1) * 10 ^ precision); [|lia].
      apply Z.mul_le_mono_nonneg_r; lia. }
    rewrite Zle_Qle in Hz. rewrite !inject_Z_mult in Hz.
    change (Qabs (inject_Z (Z.sgn c * (q * 10 ^ k - a))))
      with (inject_Z (Z.abs (Z.sgn c * (q * 10 ^ k - a)))).
    set (u := inject_Z (Z.abs (Z.sgn c * (q * 10 ^ k - a)))) in *.
    assert (Hpp : (pow10 (- precision) * inject_Z (10 ^ precision) == 1)%Q).
    { rewrite <- pow10_nonneg by (unfold precision; lia).
      rewrite <- pow10_add. replace (- precision + precision) with 0 by lia. reflexivity. }
    setoid_replace u with (u * inject_Z (10 ^ precision) * pow10 (- precision))%Q
      by (rewrite <- Qmult_assoc, (Qmult_comm (inject_Z _)), Hpp; ring).
    setoid_replace (inject_Z 5 * pow10 (- precision) * inject_Z a)%Q
      with (inject_Z 5 * inject_Z a * pow10 (- precision))%Q by ring.
    apply Qmult_le_compat_r; [exact Hz | apply Qlt_le_weak, pow10_pos].
Qed.

(** Rounding does not bring a negative value closer to zero than a power
    of ten that it is below. *)
Lemma finalise_keeps_bound (d : Dec) (j : Z) :
  (Qval d <= - pow10 j)%Q -> (Qval (finalise d) <= - pow10 j)%Q.
Proof.
  intro Hv.
  destruct (Z_lt_le_dec (Z.abs (coef d)) (10 ^ precision)) as [H|H].
  { unfold finalise. apply Z.ltb_lt in H. now rewrite H. }
  assert (Hneg : coef d < 0).
  { apply Qval_negative. apply Qle_lt_trans with (- pow10 j)%Q; [exact Hv|].
    setoid_replace 0%Q with (- 0)%Q by ring.
    apply Qopp_lt_compat. apply pow10_pos. }
  destruct (finalise_rounds d H) as (k & q & Hk & [Hlow Hup] & -> & Hq & [Herr _]).
  set (a := Z.abs (coef d)) in *. set (e := expo d) in *.
  assert (Habs : (Qval d == - (inject_Z a * pow10 e))%Q).
  { unfold Qval, a. fold e. rewrite Z.abs_neq by lia. rewrite inject_Z_opp. ring. }
  assert (Hmag : (pow10 j <= inject_Z a * pow10 e)%Q).
  { rewrite Habs in Hv. apply Qopp_le_compat in Hv.
    now rewrite !Qopp_involutive in Hv. }
  assert (HT : 0 < 10 ^ (k - 1)) by (apply Z.pow_pos_nonneg; lia).
  assert (HP : 10 ^ k = 10 * 10 ^ (k - 1)).
  { rewrite <- Z.pow_succ_r by lia. f_equal. lia. }
  assert (HPK : 10 ^ (precision + k - 1) = 10 ^ precision * 10 ^ (k - 1)).
  { rewrite <- Z.pow_add_r by (unfold precision; lia). f_equal. lia. }
  assert (HP1 : 10 ^ precision = 10 * 10 ^ (precision - 1)) by reflexivity.
  assert (Hqlow : 10 ^ (precision - 1) <= q).
  { set (T := 10 ^ (k - 1)) in *. set (Q1 := 10 ^ (precision - 1)) in *.
    rewrite HPK, HP1 in Hlow. rewrite HP in Herr.
    assert (10 * Q1 * T - 5 * T < q * (10 * T)) by lia.
    assert ((10 * Q1 - 5) * T < (10 * q) * T) by lia.
    assert (10 * Q1 - 5 < 10 * q).
    { apply Z.mul_lt_mono_pos_r with T; assumption. }
    lia. }
  assert (Hj : j <= precision - 1 + e + k).
  { destruct (Z_le_gt_dec j (precision - 1 + e + k)) as [Hle|Hgt]; [exact Hle|exfalso].
    assert (Hlt : (inject_Z a * pow10 e < pow10 (precision + k + e))%Q).
    { replace (precision + k + e) with (e + (precision + k)) by lia.
      rewrite pow10_add, (Qmult_comm (pow10 e)).
      rewrite (pow10_nonneg (precision + k)) by (unfold precision; lia).
      apply Qmult_lt_compat_r; [apply pow10_pos|].
      now rewrite <- Zlt_Qlt. }
    assert (Hle' : (pow10 (precision + k + e) <= pow10 j)%Q) by (apply pow10_le; lia).
    apply (Qlt_irrefl (pow10 j)).
    apply Qle_lt_trans with (inject_Z a * pow10 e)%Q; [exact Hmag|].
    now apply Qlt_le_trans with (pow10 (precision + k + e)). }
  unfold Qval. cbn [coef expo]. fold e.
  rewrite Z.sgn_neg by exact Hneg.
  replace (-1 * q) with (- q) by lia. rewrite inject_Z_opp.
  setoid_replace (- inject_Z q * pow10 (e + k))%Q
    with (- (inject_Z q * pow10 (e + k)))%Q by ring.
  apply Qopp_le_compat.
  apply Qle_trans with (pow10 (precision - 1 + e + k)); [now apply pow10_le|].
  replace (precision - 1 + e + k) with ((e + k) + (precision - 1)) by lia.
  rewrite pow10_add, (Qmult_comm (pow10 (e + k))).
  rewrite (pow10_nonneg (precision - 1)) by (unfold precision; lia).
  apply Qmult_le_compat_r; [|apply Qlt_le_weak, pow10_pos].
  now rewrite <- Zle_Qle.
Qed.

Lemma minus_keeps_bound (x y : Decimal) (j : Z) :
  (Qval x <= - pow10 j)%Q -> (0 <= Qval y)%Q -> (Qval (minus x y) <= - pow10 j)%Q.
Proof.
  intros Hx Hy. apply finalise_keeps_bound. rewrite Qval_dsub.
  apply Qle_trans with (Qval x); [|exact Hx].
  setoid_replace (Qval x) with (Qval x + - 0)%Q at 2 by ring.
  unfold Qminus. apply Qplus_le_compat; [apply Qle_refl|].
  now apply Qopp_le_compat.
Qed.

(* ------------------------------------------------------------------ *)
(** ** Amounts of valid transactions *)

Lemma valid_transaction_amount (t : jsval) :
  valid_transaction t = true ->
  exists a, new_Decimal (amount_of t) = Return a /\
            decimal_value (amount_of t) = Qval a.
Proof.
  intro H. destruct (convertible_inv t (valid_transaction_convertible t H))
    as (a & Ha & Hd & _).
  exists a. now split.
Qed.

Lemma credits_keep_nonneg (l : list jsval) :
  forallb valid_transaction l = true -> forallb is_credit l = true ->
  forallb (fun t => Qle_bool 0 (decimal_value (amount_of t))) l = true ->
  forall d, (0 <= Qval d)%Q ->
    exists d', process_all d l = Return d' /\ (0 <= Qval d')%Q.
Proof.
  induction l as [|t l IH]; intros Hv Hc Hp d Hd; [now exists d|].
  cbn [forallb] in Hv, Hc, Hp.
  apply andb_true_iff in Hv. destruct Hv as [Ht Hv].
  apply andb_true_iff in Hc. destruct Hc as [Hct Hc].
  apply andb_true_iff in Hp. destruct Hp as [Hpt Hp].
  destruct (valid_transaction_amount t Ht) as (a & Ha & Hda).
  rewrite Hda in Hpt. apply Qle_bool_iff in Hpt.
  cbn [process_all].
  rewrite (proj1 (process_credit_debit d a t Ha) Hct). cbn [bind].
  apply IH; try assumption. now apply plus_nonneg.
Qed.

Lemma debits_keep_bound (j : Z) (l : list jsval) :
  forallb valid_transaction l = true -> forallb is_debit l = true ->
  forallb (fun t => Qle_bool 0 (decimal_value (amount_of t))) l = true ->
  forall d, (Qval d <= - pow10 j)%Q ->
    exists d', process_all d l = Return d' /\ (Qval d' <= - pow10 j)%Q.
Proof.
  induction l as [|t l IH]; intros Hv Hc Hp d Hd; [now exists d|].
  cbn [forallb] in Hv, Hc, Hp.
  apply andb_true_iff in Hv. destruct Hv as [Ht Hv].
  apply andb_true_iff in Hc. destruct Hc as [Hct Hc].
  apply andb_true_iff in Hp. destruct Hp as [Hpt Hp].
  destruct (valid_transaction_amount t Ht) as (a & Ha & Hda).
  rewrite Hda in Hpt. apply Qle_bool_iff in Hpt.
  cbn [process_all].
  rewrite (proj2 (process_credit_debit d a t Ha) Hct). cbn [bind].
  apply IH; try assumption. now apply minus_keeps_bound.
Qed.

Lemma valid_request_transactions (b : jsval) :
  valid_request b = true -> forallb valid_transaction (transactions_of b) = true.
Proof.
  intro H. destruct (valid_request_inv b H) as (_ & _ & t & l & Hl & Hv).
  unfold transactions_of. now rewrite Hl.
Qed.

(** X9: whatever the rounding to 20 digits does, it never turns an account
    around.  A valid request in which no amount is below zero is answered
    with a [finalBalance] that is not negative and status 1 when its
    [initialBalance] is not negative and it has credits only, and with a
    negative [finalBalance] and status 2 when its [initialBalance] is
    -1e-323 or less and it has debits only (a negative balance closer to
    zero may reach the answer as the number -0, with status 1); no
    precision is assumed. *)
Theorem X9_one_sided_requests (b : jsval) :
  valid_request b = true ->
  no_negative_amount b = true ->
  ((0 <= decimal_value (initialBalance_of b))%Q ->
   forallb is_credit (transactions_of b) = true ->
   exists r, is200 (post_calculate_balance b) r /\
             not_negative (finalBalance r) /\ status r = 1) /\
  ((decimal_value (initialBalance_of b) <= - pow10 (-323))%Q ->
   forallb is_debit (transactions_of b) = true ->
   exists r, is200 (post_calculate_balance b) r /\
             negative (finalBalance r) /\ status r = 2).
Proof.
  intros H Hp.
  destruct (valid_request_200 b H) as (d0 & d & Hd0 & Hd & Hres).
  pose proof (valid_request_transactions b H) as Hv.
  rewrite (decimal_value_Return _ _ Hd0).
  unfold no_negative_amount in Hp.
  split; intros Hsign Hkind; eexists; (split; [exact Hres|]);
    cbn [finalBalance status]; unfold toNumber.
  - destruct (credits_keep_nonneg _ Hv Hkind Hp d0 Hsign) as (d' & Hd' & Hpos).
    rewrite Hd in Hd'. injection Hd' as <-.
    assert (Hn : not_negative (to_number (Qval d))).
    { apply to_number_not_negative. apply Qle_trans with 0%Q; [|exact Hpos].
      vm_compute. discriminate. }
    split; [exact Hn|]. apply not_negative_geb in Hn. now rewrite Hn.
  - destruct (debits_keep_bound _ _ Hv Hkind Hp d0 Hsign) as (d' & Hd' & Hneg).
    rewrite Hd in Hd'. injection Hd' as <-.
    assert (Hn : negative (to_number (Qval d))).
    { apply to_number_negative. apply Qle_lt_trans with (- pow10 (-323))%Q; [exact Hneg|].
      vm_compute. reflexivity. }
    split; [exact Hn|].
    apply negative_geb in Hn; [now rewrite Hn | apply to_number_not_NaN].
Qed.

Lemma X9_witness :
  let up := request (JNum (of_Z 1))
              [transaction "credit" (JNum (mkDec 1 20));
               transaction "credit" (JNum (mkDec 4 (-1)))] in
  let down := request (JNum (mkDec (-1) (-3)))
                [transaction "debit" (JNum (mkDec 1 20));
                 transaction "debit" (JNum (of_Z 0))] in
  (valid_request up = true /\ no_negative_amount up = true /\
   exists r, is200 (post_calculate_balance up) r /\
             not_negative (finalBalance r) /\ status r = 1) /\
  (valid_request down = true /\ no_negative_amount down = true /\
   exists r, is200 (post_calculate_balance down) r /\
             negative (finalBalance r) /\ status r = 2).
Proof.
  intros up down.
  assert (Hu : valid_request up = true) by (vm_compute; reflexivity).
  assert (Hd : valid_request down = true) by (vm_compute; reflexivity).
  assert (Hpu : no_negative_amount up = true) by (vm_compute; reflexivity).
  assert (Hpd : no_negative_amount down = true) by (vm_compute; reflexivity).
  split; (split; [assumption|]); (split; [assumption|]).
  - apply (proj1 (X9_one_sided_requests up Hu Hpu)).
    + vm_compute. discriminate.
    + vm_compute. reflexivity.
  - apply (proj2 (X9_one_sided_requests down Hd Hpd)).
    + vm_compute. discriminate.
    + vm_compute. reflexivity.
Defined.

(** X10: one step of the loop is accurate to half a unit of the twentieth
    significant digit: the balance after a credit (a debit) differs from
    the exact sum (difference) of the balance before and the amount by at
    most [5e-20] times the magnitude of that sum (difference). *)
Theorem X10_step_rounding_error (balance a : Decimal) (t : jsval) :
  new_Decimal (amount_of t) = Return a ->
  (is_credit t = true ->
   exists b', process balance t = Return b' /\
     (Qabs (Qval b' - (Qval balance + Qval a))
      <= unit_roundoff * Qabs (Qval balance + Qval a))%Q) /\
  (is_debit t = true ->
   exists b', process balance t = Return b' /\
     (Qabs (Qval b' - (Qval balance - Qval a))
      <= unit_roundoff * Qabs (Qval balance - Qval a))%Q).
Proof.
  intro Ha. destruct (process_credit_debit balance a t Ha) as [Hc Hd].
  split; intro Hk.
  - exists (plus balance a). split; [now apply Hc|].
    unfold plus. rewrite <- Qval_dadd. apply finalise_error.
  - exists (minus balance a). split; [now apply Hd|].
    unfold minus. rewrite <- Qval_dsub. apply finalise_error.
Qed.

Lemma X10_witness :
  let t := transaction "credit" (JNum (mkDec 1 20)) in
  new_Decimal (amount_of t) = Return (mkDec 1 20) /\
  exists b', process (of_Z 1) t = Return b' /\
    (Qabs (Qval b' - (Qval (of_Z 1) + Qval (mkDec 1 20)))
     <= unit_roundoff * Qabs (Qval (of_Z 1) + Qval (mkDec 1 20)))%Q.
Proof.
  intro t.
  assert (Ha : new_Decimal (amount_of t) = Return (mkDec 1 20)) by reflexivity.
  split; [exact Ha|].
  exact (proj1 (X10_step_rounding_error (of_Z 1) (mkDec 1 20) t Ha) eq_refl).
Defined.

(* ------------------------------------------------------------------ *)
(** ** Amounts on a common grid *)

Lemma on_grid_plus (e : Z) (p q : Q) : on_grid e p -> on_grid e q -> on_grid e (p + q).
Proof.
  intros [c Hc] [c' Hc']. exists (c + c').
  rewrite Hc, Hc', inject_Z_plus. ring.
Qed.

(** A multiple of [10 ^ e] below [10 ^ (precision + e)] has at most
    [precision] significant digits. *)
Lemma on_grid_fits (e : Z) (q : Q) :
  on_grid e q -> (Qabs q < pow10 (precision + e))%Q -> fits q.
Proof.
  intros [c Hc] Hlt. exists c, e. split; [|exact Hc].
  rewrite Hc, Qabs_Qmult, (Qabs_pos (pow10 e)) in Hlt
    by (apply Qlt_le_weak, pow10_pos).
  rewrite pow10_add in Hlt.
  apply Qmult_lt_r in Hlt; [|apply pow10_pos].
  rewrite pow10_nonneg in Hlt by (unfold precision; lia).
  change (Qabs (inject_Z c)) with (inject_Z (Z.abs c)) in Hlt.
  now rewrite <- Zlt_Qlt in Hlt.
Qed.

Lemma signed_amount_valid (t : jsval) :
  valid_transaction t = true ->
  (signed_amount t == decimal_value (amount_of t)
   \/ signed_amount t == - decimal_value (amount_of t))%Q.
Proof.
  intro H. unfold signed_amount.
  pose proof (valid_transaction_kind t H) as Hk.
  destruct (is_credit t); [left; reflexivity|].
  destruct (is_debit t); [right; reflexivity | discriminate].
Qed.

Lemma magnitudes_nonneg (l : list jsval) : (0 <= magnitudes l)%Q.
Proof.
  induction l as [|t l IH]; [apply Qle_refl|].
  cbn [magnitudes fold_right]. fold (magnitudes l).
  change 0%Q with (0 + 0)%Q. apply Qplus_le_compat; [apply Qabs_nonneg|exact IH].
Qed.

Lemma Qabs_step (b s a : Q) :
  (s == a \/ s == - a)%Q -> (Qabs (b + s) <= Qabs b + Qabs a)%Q.
Proof.
  intros Hs. eapply Qle_trans; [apply Qabs_triangle|].
  apply Qplus_le_compat; [apply Qle_refl|].
  destruct Hs as [-> | ->].
  - apply Qle_refl.
  - rewrite Qabs_opp. apply Qle_refl.
Qed.

Lemma running_balances_fit (e : Z) (l : list jsval) :
  forall b0 : Q,
    on_grid e b0 ->
    forallb valid_transaction l = true ->
    Forall (fun t => on_grid e (decimal_value (amount_of t))) l ->
    (Qabs b0 + magnitudes l < pow10 (precision + e))%Q ->
    within_precision b0 l.
Proof.
  unfold within_precision.
  induction l as [|t l IH]; intros b0 Hg Hv Ha Hlt; [constructor|].
  cbn [forallb] in Hv. apply andb_true_iff in Hv. destruct Hv as [Ht Hv].
  inversion Ha as [|? ? Hat Hal]; subst.
  pose proof (signed_amount_valid t Ht) as Hs.
  cbn [magnitudes fold_right] in Hlt. fold (magnitudes l) in Hlt.
  assert (Hg1 : on_grid e (b0 + signed_amount t)).
  { apply on_grid_plus; [exact Hg|].
    destruct Hs as [Hs|Hs]; destruct Hat as [c Hc].
    - exists c. now rewrite Hs.
    - exists (- c). rewrite Hs, Hc, inject_Z_opp. ring. }
  assert (Hb1 : (Qabs (b0 + signed_amount t) + magnitudes l
                 < pow10 (precision + e))%Q).
  { eapply Qle_lt_trans; [|exact Hlt].
    rewrite Qplus_assoc. apply Qplus_le_compat; [|apply Qle_refl].
    now apply Qabs_step. }
  cbn [running_balances]. constructor.
  - apply (on_grid_fits e); [exact Hg1|].
    eapply Qle_lt_trans; [|exact Hb1].
    rewrite <- (Qplus_0_r (Qabs (b0 + signed_amount t))) at 1.
    apply Qplus_le_compat; [apply Qle_refl | apply magnitudes_nonneg].
  - now apply IH.
Qed.

(** X11: money stays exact while it stays small, up to the last step.  If
    [initialBalance] and all the amounts of a valid request are whole
    multiples of [10 ^ e] (of a cent for [e = -2]) and the magnitude of
    [initialBalance] plus the magnitudes of all the amounts is below
    [10 ^ (20 + e)], no rounding takes place in the loop: the balance it
    ends with is exactly [initialBalance] plus the credits minus the
    debits, and [finalBalance] is the JavaScript number nearest to it. *)
Theorem X11_exact_below_bound (e : Z) (b : jsval) :
  valid_request b = true ->
  on_grid e (decimal_value (initialBalance_of b)) ->
  Forall (fun t => on_grid e (decimal_value (amount_of t))) (transactions_of b) ->
  (Qabs (decimal_value (initialBalance_of b)) + turnover b < pow10 (precision + e))%Q ->
  exists r, is200 (post_calculate_balance b) r /\
    finalBalance r
    = to_number (decimal_value (initialBalance_of b) + credits b - debits b).
Proof.
  intros H Hg Ha Hlt.
  assert (Hw : within_precision (decimal_value (initialBalance_of b)) (transactions_of b)).
  { apply (running_balances_fit e); try assumption.
    now apply valid_request_transactions. }
  destruct (valid_request_exact b H Hw) as (r & Hr & Hq & _).
  exists r. now split.
Qed.

Lemma X11_witness :
  let b := request (JStr "123456789012345678.91")
             [transaction "credit" (JStr "0.01");
              transaction "debit" (JNum (mkDec 5025 (-2)))] in
  valid_request b = true /\
  exists r, is200 (post_calculate_balance b) r /\
    finalBalance r = to_number (12345678901234562867 # 100) /\
    finalBalance r = Finite (of_Z 123456789012345630).
Proof.
  intro b.
  assert (Hv : valid_request b = true) by (vm_compute; reflexivity).
  split; [exact Hv|].
  assert (Hg : on_grid (-2) (decimal_value (initialBalance_of b)))
    by (exists 12345678901234567891; vm_compute; reflexivity).
  assert (Ha : Forall (fun t => on_grid (-2) (decimal_value (amount_of t)))
                      (transactions_of b)).
  { repeat constructor.
    - exists 1. vm_compute. reflexivity.
    - exists 5025. vm_compute. reflexivity. }
  assert (Hlt : (Qabs (decimal_value (initialBalance_of b)) + turnover b
                 < pow10 (precision + -2))%Q) by (vm_compute; reflexivity).
  destruct (X11_exact_below_bound (-2) b Hv Hg Ha Hlt) as (r & Hr & Hq).
  exists r. split; [exact Hr|].
  assert (E : to_number (decimal_value (initialBalance_of b) + credits b - debits b)
              = to_number (12345678901234562867 # 100)).
  { apply to_number_Qeq. vm_compute. reflexivity. }
  rewrite Hq, E. split; [reflexivity|]. vm_compute. reflexivity.
Defined.

(* ------------------------------------------------------------------ *)
(** ** Exact answers *)

Lemma net_on_grid (e : Z) (l : list jsval) :
  forallb valid_transaction l = true ->
  Forall (fun t => on_grid e (decimal_value (amount_of t))) l ->
  on_grid e (net l).
Proof.
  induction l as [|t l IH]; intros Hv Ha.
  - exists 0. unfold net; cbn [fold_right]. ring.
  - cbn [forallb] in Hv. apply andb_true_iff in Hv. destruct Hv as [Ht Hv].
    inversion Ha as [|? ? Hat Hal]; subst.
    change (net (t :: l)) with (signed_amount t + net l)%Q.
    apply on_grid_plus; [|now apply IH].
    destruct Hat as [c Hc].
    destruct (signed_amount_valid t Ht) as [Hs|Hs].
    + exists c. now rewrite Hs.
    + exists (- c). rewrite Hs, Hc, inject_Z_opp. ring.
Qed.

Lemma net_bound (b0 : Q) (l : list jsval) :
  forallb valid_transaction l = true ->
  (Qabs (b0 + net l) <= Qabs b0 + magnitudes l)%Q.
Proof.
  revert b0. induction l as [|t l IH]; intros b0 Hv.
  - unfold net, magnitudes; cbn [fold_right]. rewrite !Qplus_0_r. apply Qle_refl.
  - cbn [forallb] in Hv. apply andb_true_iff in Hv. destruct Hv as [Ht Hv].
    change (net (t :: l)) with (signed_amount t + net l)%Q.
    cbn [magnitudes fold_right]. fold (magnitudes l).
    rewrite Qplus_assoc. eapply Qle_trans; [apply (IH _ Hv)|].
    rewrite Qplus_assoc. apply Qplus_le_compat; [|apply Qle_refl].
    apply Qabs_step. now apply signed_amount_valid.
Qed.

(** The total of a valid request on the grid [10 ^ e], as a multiple of it. *)
Lemma total_on_grid (e : Z) (b : jsval) :
  valid_request b = true ->
  on_grid e (decimal_value (initialBalance_of b)) ->
  Forall (fun t => on_grid e (decimal_value (amount_of t))) (transactions_of b) ->
  exists n : Z,
    (decimal_value (initialBalance_of b) + credits b - debits b
     == inject_Z n * pow10 e)%Q /\
    (inject_Z (Z.abs n) * pow10 e
     <= Qabs (decimal_value (initialBalance_of b)) + turnover b)%Q.
Proof.
  intros H Hg Ha.
  pose proof (valid_request_transactions b H) as Hv.
  destruct (valid_request_kinds b H) as [Hk _].
  assert (Hn : (decimal_value (initialBalance_of b) + credits b - debits b
                == decimal_value (initialBalance_of b) + net (transactions_of b))%Q).
  { rewrite (net_credits_debits _ Hk). unfold credits, debits. ring. }
  destruct (on_grid_plus e _ _ Hg (net_on_grid e _ Hv Ha)) as [n Hgn].
  exists n. split; [now rewrite Hn|].
  change (inject_Z (Z.abs n)) with (Qabs (inject_Z n)).
  rewrite <- (Qabs_pos (pow10 e)) at 1 by (apply Qlt_le_weak, pow10_pos).
  rewrite <- Qabs_Qmult, <- Hgn. apply (net_bound _ _ Hv).
Qed.

Lemma status_of_value (d : Dec) (q : Q) :
  (Qval d == q)%Q ->
  (if number_geb (Finite d) (Finite (of_Z 0)) then 1 else 2)
  = (if Qle_bool 0 q then 1 else 2).
Proof.
  intro H. cbn [number_geb].
  destruct (Qle_bool (Qval (of_Z 0)) (Qval d)) eqn:E1; destruct (Qle_bool 0 q) eqn:E2;
    try reflexivity; exfalso.
  - apply Qle_bool_iff in E1. rewrite H, Qval_zero in E1.
    apply Qle_bool_iff in E1. congruence.
  - apply Qle_bool_iff in E2. rewrite <- H, <- Qval_zero in E2.
    apply Qle_bool_iff in E2. congruence.
Qed.

(** X16: whole numbers are answered exactly.  If [initialBalance] and all
    the amounts of a valid request are integers and the magnitude of
    [initialBalance] plus the magnitudes of all the amounts is below
    [2 ^ 53], nothing is rounded, neither in the loop nor by [toNumber]:
    [finalBalance] is [initialBalance] plus the credits minus the debits,
    and the status is 2 exactly when that total is negative. *)
Theorem X16_whole_numbers_exact (b : jsval) :
  valid_request b = true ->
  on_grid 0 (decimal_value (initialBalance_of b)) ->
  Forall (fun t => on_grid 0 (decimal_value (amount_of t))) (transactions_of b) ->
  (Qabs (decimal_value (initialBalance_of b)) + turnover b < inject_Z (2 ^ 53))%Q ->
  exists r n,
    is200 (post_calculate_balance b) r /\
    (decimal_value (initialBalance_of b) + credits b - debits b == inject_Z n)%Q /\
    finalBalance r = Finite (of_Z n) /\
    status r = (if 0 <=? n then 1 else 2).
Proof.
  intros H Hg Ha Hlt.
  pose proof (valid_request_transactions b H) as Hv.
  assert (Hw : within_precision (decimal_value (initialBalance_of b)) (transactions_of b)).
  { apply (running_balances_fit 0); try assumption.
    eapply Qlt_trans; [exact Hlt|]. vm_compute. reflexivity. }
  destruct (valid_request_exact b H Hw) as (r & Hr & Hq & Hst).
  destruct (total_on_grid 0 b H Hg Ha) as (n & En & Hbn).
  change (pow10 0) with 1%Q in En, Hbn. rewrite Qmult_1_r in En, Hbn.
  assert (Hb : Z.abs n < 2 ^ 53).
  { rewrite Zlt_Qlt. eapply Qle_lt_trans; [exact Hbn|exact Hlt]. }
  assert (Ef : finalBalance r = Finite (of_Z n)).
  { rewrite Hq. rewrite <- (to_number_integer n Hb).
    apply to_number_Qeq. rewrite En.
    unfold Qval. cbn [coef expo of_Z]. change (pow10 0) with 1%Q. ring. }
  exists r, n. split; [exact Hr|]. split; [exact En|]. split; [exact Ef|].
  rewrite Hst, Ef. cbn [number_geb]. unfold Qval. cbn [coef expo of_Z].
  change (pow10 0) with 1%Q.
  destruct (0 <=? n) eqn:E.
  - apply Z.leb_le in E.
    replace (Qle_bool (inject_Z 0 * 1) (inject_Z n * 1)) with true; [reflexivity|].
    symmetry. apply Qle_bool_iff. rewrite !Qmult_1_r. now rewrite <- Zle_Qle.
  - apply Z.leb_gt in E.
    replace (Qle_bool (inject_Z 0 * 1) (inject_Z n * 1)) with false; [reflexivity|].
    symmetry. apply Qle_bool_false. rewrite !Qmult_1_r. now rewrite <- Zlt_Qlt.
Qed.

Lemma X16_witness :
  let b := request (JNum (of_Z 9007199254740000))
             [transaction "credit" (JStr "990"); transaction "debit" (JNum (of_Z 1))] in
  valid_request b = true /\
  exists r, is200 (post_calculate_balance b) r /\
            finalBalance r = Finite (of_Z 9007199254740989) /\ status r = 1.
Proof.
  intro b.
  assert (Hv : valid_request b = true) by (vm_compute; reflexivity).
  split; [exact Hv|].
  assert (Hg : on_grid 0 (decimal_value (initialBalance_of b)))
    by (exists 9007199254740000; vm_compute; reflexivity).
  assert (Ha : Forall (fun t => on_grid 0 (decimal_value (amount_of t)))
                      (transactions_of b)).
  { repeat constructor.
    - exists 990. vm_compute. reflexivity.
    - exists 1. vm_compute. reflexivity. }
  assert (Hlt : (Qabs (decimal_value (initialBalance_of b)) + turnover b
                 < inject_Z (2 ^ 53))%Q) by (vm_compute; reflexivity).
  destruct (X16_whole_numbers_exact b Hv Hg Ha Hlt) as (r & n & Hr & En & Hf & Hs).
  exists r. split; [exact Hr|].
  assert (E : n = 9007199254740989).
  { apply inject_Z_injective. rewrite <- En. vm_compute. reflexivity. }
  rewrite Hf, Hs, E. split; reflexivity.
Defined.

(** X17: amounts of up to fifteen digits are answered exactly.  If
    [initialBalance] and all the amounts of a valid request are whole
    multiples of [10 ^ e] (of a cent for [e = -2]) and the magnitude of
    [initialBalance] plus the magnitudes of all the amounts is below
    [10 ^ (15 + e)], then [finalBalance] is a number whose decimal form is
    exactly [initialBalance] plus the credits minus the debits: nothing is
    rounded in the loop, and the double that [toNumber] returns for a
    decimal of at most fifteen digits is printed with the same digits.
    The status is 2 exactly when that total is negative. *)
Theorem X17_fifteen_digits_exact (e : Z) (b : jsval) :
  valid_request b = true ->
  -307 <= e <= 293 ->
  on_grid e (decimal_value (initialBalance_of b)) ->
  Forall (fun t => on_grid e (decimal_value (amount_of t))) (transactions_of b) ->
  (Qabs (decimal_value (initialBalance_of b)) + turnover b < pow10 (15 + e))%Q ->
  exists r d,
    is200 (post_calculate_balance b) r /\
    finalBalance r = Finite d /\
    (Qval d == decimal_value (initialBalance_of b) + credits b - debits b)%Q /\
    status r
    = (if Qle_bool 0 (decimal_value (initialBalance_of b) + credits b - debits b)
       then 1 else 2).
Proof.
  intros H He Hg Ha Hlt.
  assert (Hw : within_precision (decimal_value (initialBalance_of b)) (transactions_of b)).
  { apply (running_balances_fit e); try assumption.
    - now apply valid_request_transactions.
    - eapply Qlt_le_trans; [exact Hlt|]. apply pow10_le. unfold precision. lia. }
  destruct (valid_request_exact b H Hw) as (r & Hr & Hq & Hst).
  destruct (total_on_grid e b H Hg Ha) as (n & En & Hbn).
  assert (Hb : Z.abs n < 10 ^ 15).
  { apply (grid_lt n (10 ^ 15) e).
    rewrite Qabs_scaled by apply pow10_pos.
    change (Qabs (inject_Z n)) with (inject_Z (Z.abs n)).
    eapply Qle_lt_trans; [exact Hbn|].
    rewrite <- pow10_nonneg, <- pow10_add by lia. exact Hlt. }
  destruct (to_number_decimal n e Hb He) as (d & Hd & Hvd).
  assert (Ef : finalBalance r = Finite d).
  { rewrite Hq, <- Hd. apply to_number_Qeq. rewrite En. reflexivity. }
  assert (Ev : (Qval d == decimal_value (initialBalance_of b) + credits b - debits b)%Q).
  { rewrite Hvd, En. reflexivity. }
  exists r, d. split; [exact Hr|]. split; [exact Ef|]. split; [exact Ev|].
  rewrite Hst, Ef. now apply status_of_value.
Qed.

Lemma X17_witness :
  let b := request (JNum (mkDec 1 (-1))) [transaction "credit" (JStr "0.2")] in
  valid_request b = true /\
  exists r, is200 (post_calculate_balance b) r /\
            finalBalance r = Finite (mkDec 3 (-1)) /\ status r = 1.
Proof.
  intro b.
  assert (Hv : valid_request b = true) by (vm_compute; reflexivity).
  split; [exact Hv|].
  assert (He : -307 <= -1 <= 293) by lia.
  assert (Hg : on_grid (-1) (decimal_value (initialBalance_of b)))
    by (exists 1; vm_compute; reflexivity).
  assert (Ha : Forall (fun t => on_grid (-1) (decimal_value (amount_of t)))
                      (transactions_of b)).
  { repeat constructor. exists 2. vm_compute. reflexivity. }
  assert (Hlt : (Qabs (decimal_value (initialBalance_of b)) + turnover b
                 < pow10 (15 + -1))%Q) by (vm_compute; reflexivity).
  destruct (X17_fifteen_digits_exact (-1) b Hv He Hg Ha Hlt) as (r & d & Hr & _).
  exists r. split; [exact Hr|].
  assert (Hp : post_calculate_balance b
               = Some (mkResponse 200 (BalanceBody (mkBalance (Finite (mkDec 3 (-1))) 1))))
    by (vm_compute; reflexivity).
  unfold is200 in Hr. rewrite Hp in Hr. injection Hr as <-.
  split; reflexivity.
Defined.
(* ------------------------------------------------------------------ *)
(** ** The answer depends on values only *)

Lemma fits_Qeq (p q : Q) : (p == q)%Q -> fits p -> fits q.
Proof.
  intros E (c & e & Hc & He). exists c, e. split; [exact Hc|]. now rewrite <- E.
Qed.

Lemma finalise_Qeq_le (d1 d2 : Dec) :
  expo d1 <= expo d2 -> (Qval d1 == Qval d2)%Q ->
  (Qval (finalise d1) == Qval (finalise d2))%Q.
Proof.
  intros Hle E.
  pose proof (Qval_eq_scaled _ _ _ _ E Hle) as Hc.
  set (j := expo d2 - expo d1) in *.
  assert (Hj : 0 <= j) by (unfold j; lia).
  assert (Hpj : 0 < 10 ^ j) by (apply Z.pow_pos_nonneg; lia).
  destruct (Z_lt_le_dec (Z.abs (coef d2)) (10 ^ precision)) as [H2|H2].
  - assert (F2 : fits (Qval d2)).
    { exists (coef d2), (expo d2). split; [exact H2 | reflexivity]. }
    assert (F1 : fits (Qval d1)) by (apply (fits_Qeq (Qval d2)); [now symmetry | exact F2]).
    now rewrite (finalise_exact d1 F1), (finalise_exact d2 F2).
  - assert (Ha : Z.abs (coef d1) = Z.abs (coef d2) * 10 ^ j).
    { rewrite Hc, Z.abs_mul. f_equal. apply Z.abs_eq. lia. }
    assert (H1 : 10 ^ precision <= Z.abs (coef d1)) by nia.
    destruct (finalise_rounds d1 H1) as (k1 & q1 & Hk1 & [Hl1 Hu1] & -> & _ & He1).
    destruct (finalise_rounds d2 H2) as (k2 & q2 & Hk2 & [Hl2 Hu2] & -> & _ & He2).
    set (a2 := Z.abs (coef d2)) in *. rewrite Ha in *.
    assert (Hk : k1 = k2 + j).
    { assert (L : 10 ^ (precision + k1 - 1) < 10 ^ (precision + k2 + j)).
      { rewrite (Z.pow_add_r 10 (precision + k2) j) by (unfold precision; lia). nia. }
      assert (U : 10 ^ (precision + k2 - 1 + j) < 10 ^ (precision + k1)).
      { rewrite (Z.pow_add_r 10 (precision + k2 - 1) j) by (unfold precision; lia). nia. }
      apply Z.pow_lt_mono_r_iff in L; [|lia|unfold precision; lia].
      apply Z.pow_lt_mono_r_iff in U; [|lia|unfold precision; lia].
      lia. }
    subst k1.
    assert (Hp1 : 10 ^ (k2 + j) = 10 ^ k2 * 10 ^ j) by (apply Z.pow_add_r; lia).
    assert (Hp2 : 10 ^ (k2 + j - 1) = 10 ^ (k2 - 1) * 10 ^ j).
    { rewrite <- Z.pow_add_r by lia. f_equal. lia. }
    assert (Hp3 : 10 ^ k2 = 10 * 10 ^ (k2 - 1)).
    { rewrite <- Z.pow_succ_r by lia. f_equal. lia. }
    assert (Hh : 0 < 10 ^ (k2 - 1)) by (apply Z.pow_pos_nonneg; lia).
    rewrite Hp1, Hp2 in He1.
    assert (Hq : q1 = q2).
    { set (h := 10 ^ (k2 - 1)) in *. set (P := 10 ^ j) in *.
      rewrite Hp3 in *.
      assert (B1 : - (5 * h) < q1 * (10 * h) - a2 <= 5 * h) by nia.
      nia. }
    subst q1.
    assert (Hs : Z.sgn (coef d1) = Z.sgn (coef d2)).
    { rewrite Hc, Z.sgn_mul, (Z.sgn_pos (10 ^ j)) by lia. lia. }
    rewrite Hs. replace (expo d1 + (k2 + j)) with (expo d2 + k2) by (unfold j; lia).
    reflexivity.
Qed.

(** Rounding depends on the value only, not on how it is written. *)
Lemma finalise_Qeq (d1 d2 : Dec) :
  (Qval d1 == Qval d2)%Q -> (Qval (finalise d1) == Qval (finalise d2))%Q.
Proof.
  intro E. destruct (Z_le_gt_dec (expo d1) (expo d2)) as [H|H].
  - now apply finalise_Qeq_le.
  - symmetry. apply finalise_Qeq_le; [lia | now symmetry].
Qed.

Lemma plus_Qeq (x x' y y' : Decimal) :
  (Qval x == Qval x')%Q -> (Qval y == Qval y')%Q ->
  (Qval (plus x y) == Qval (plus x' y'))%Q.
Proof.
  intros Hx Hy. apply finalise_Qeq. now rewrite !Qval_dadd, Hx, Hy.
Qed.

Lemma minus_Qeq (x x' y y' : Decimal) :
  (Qval x == Qval x')%Q -> (Qval y == Qval y')%Q ->
  (Qval (minus x y) == Qval (minus x' y'))%Q.
Proof.
  intros Hx Hy. apply finalise_Qeq. now rewrite !Qval_dsub, Hx, Hy.
Qed.

Lemma process_all_values (l l' : list jsval) :
  Forall2 same_transaction l l' ->
  forallb valid_transaction l = true -> forallb valid_transaction l' = true ->
  forall d d', (Qval d == Qval d')%Q ->
    exists r r', process_all d l = Return r /\ process_all d' l' = Return r' /\
                 (Qval r == Qval r')%Q.
Proof.
  induction 1 as [|t t' l l' [Hk Ha] _ IH]; intros Hv Hv' d d' E.
  - exists d, d'. now repeat split.
  - cbn [forallb] in Hv, Hv'.
    apply andb_true_iff in Hv. destruct Hv as [Ht Hv].
    apply andb_true_iff in Hv'. destruct Hv' as [Ht' Hv'].
    destruct (valid_transaction_amount t Ht) as (a & Hna & Hda).
    destruct (valid_transaction_amount t' Ht') as (a' & Hna' & Hda').
    rewrite Hda, Hda' in Ha.
    pose proof (valid_transaction_kind t Ht) as K.
    pose proof (valid_transaction_kind t' Ht') as K'.
    destruct (process_credit_debit d a t Hna) as [Pc Pd].
    destruct (process_credit_debit d' a' t' Hna') as [Pc' Pd'].
    cbn [process_all].
    destruct (is_credit t) eqn:C.
    + rewrite (Pc eq_refl), (Pc' (eq_sym Hk)). cbn [bind].
      apply IH; try assumption. now apply plus_Qeq.
    + destruct (is_debit t) eqn:D; [|discriminate K].
      rewrite <- Hk in K'. cbn [orb] in K'.
      rewrite (Pd eq_refl), (Pd' K'). cbn [bind].
      apply IH; try assumption. now apply minus_Qeq.
Qed.

(** X13: the answer depends on the values only.  Two valid requests whose
    [initialBalance] have the same value and whose transactions are, one by
    one, of the same kind and of amounts of the same value, are answered
    with the same [finalBalance] and the same status, whether a value is
    sent as a number or as a string, and with or without trailing zeros; no
    precision is assumed. *)
Theorem X13_answer_depends_on_values (b b' : jsval) :
  valid_request b = true -> valid_request b' = true ->
  (decimal_value (initialBalance_of b) == decimal_value (initialBalance_of b'))%Q ->
  Forall2 same_transaction (transactions_of b) (transactions_of b') ->
  exists r r',
    is200 (post_calculate_balance b) r /\
    is200 (post_calculate_balance b') r' /\
    finalBalance r = finalBalance r' /\
    status r = status r'.
Proof.
  intros H H' Ei Et.
  destruct (valid_request_200 b H) as (d0 & d & Hd0 & Hd & Hres).
  destruct (valid_request_200 b' H') as (d0' & d' & Hd0' & Hd' & Hres').
  rewrite (decimal_value_Return _ _ Hd0), (decimal_value_Return _ _ Hd0') in Ei.
  destruct (process_all_values _ _ Et (valid_request_transactions b H)
              (valid_request_transactions b' H') d0 d0' Ei) as (r & r' & Hr & Hr' & E).
  rewrite Hd in Hr. injection Hr as <-.
  rewrite Hd' in Hr'. injection Hr' as <-.
  assert (En : toNumber d = toNumber d') by (apply to_number_Qeq; exact E).
  eexists. eexists. split; [exact Hres|]. split; [exact Hres'|].
  cbn [finalBalance status]. split; [exact En|]. now rewrite En.
Qed.

Lemma X13_witness :
  let b := request (JNum (mkDec 15 (-1))) [transaction "debit" (JNum (of_Z 2))] in
  let b' := request (JStr "1.50") [transaction "debit" (JStr "2.0")] in
  valid_request b = true /\ valid_request b' = true /\
  exists r r',
    is200 (post_calculate_balance b) r /\
    is200 (post_calculate_balance b') r' /\
    finalBalance r = finalBalance r' /\
    status r = status r'.
Proof.
  intros b b'.
  assert (H : valid_request b = true) by (vm_compute; reflexivity).
  assert (H' : valid_request b' = true) by (vm_compute; reflexivity).
  split; [exact H|]. split; [exact H'|].
  apply (X13_answer_depends_on_values b b' H H').
  - vm_compute. reflexivity.
  - constructor; [|constructor].
    split; [vm_compute; reflexivity | vm_compute; reflexivity].
Defined.

(* ------------------------------------------------------------------ *)
(** ** Printing and reading integers *)

Lemma drop_zeros_split (l : list ascii) :
  (length (drop_zeros l) <= length l)%nat /\
  l = repeat "0"%char (length l - length (drop_zeros l)) ++ drop_zeros l.
Proof.
  induction l as [|c r [IHl IHs]]; [now split|].
  cbn [drop_zeros]. destruct (Ascii.eqb c "0") eqn:E.
  - apply Ascii.eqb_eq in E. subst c. cbn [length]. split; [lia|].
    replace (S (length r) - length (drop_zeros r))%nat
      with (S (length r - length (drop_zeros r))) by lia.
    cbn [repeat app]. now rewrite <- IHs.
  - split; [lia|]. now rewrite Nat.sub_diag.
Qed.

Lemma strip_trailing_zeros_split (l : list ascii) :
  strip_trailing_zeros l
    ++ repeat "0"%char (length l - length (strip_trailing_zeros l)) = l.
Proof.
  unfold strip_trailing_zeros.
  destruct (drop_zeros_split (rev l)) as [_ H].
  set (d := drop_zeros (rev l)) in *.
  apply (f_equal (@rev ascii)) in H.
  rewrite rev_involutive, rev_app_distr, rev_repeat, length_rev in H.
  rewrite length_rev. now symmetry.
Qed.

(** The sign and the digits of an integer. *)
Lemma number_toString_integer (n : Z) :
  n <> 0 -> Z.abs n < 10 ^ 21 ->
  number_toString (of_Z n)
  = string_of_list_ascii ((if n <? 0 then ["-"%char] else []) ++ digit_chars (Z.abs n)).
Proof.
  intros Hn Hlt. unfold number_toString, position. cbn [coef expo of_Z].
  apply Z.eqb_neq in Hn. rewrite Hn. apply Z.eqb_neq in Hn.
  destruct (significant_digits (Z.abs n) ltac:(lia)) as (_ & _ & Hlen & _).
  destruct (digit_chars_spec (Z.abs n) ltac:(lia)) as (_ & _ & Hb).
  specialize (Hb ltac:(lia)).
  set (all := digit_chars (Z.abs n)) in *.
  set (s := strip_trailing_zeros all) in *.
  assert (Hall : Z.of_nat (length all) <= 21).
  { assert (10 ^ (Z.of_nat (length all) - 1) < 10 ^ 21) by lia.
    apply Z.pow_lt_mono_r_iff in H; lia. }
  assert (E1 : (Z.of_nat (length s) <=? Z.of_nat (length all) + 0) = true)
    by (apply Z.leb_le; lia).
  assert (E2 : (Z.of_nat (length all) + 0 <=? 21) = true) by (apply Z.leb_le; lia).
  rewrite E1, E2. cbn [andb].
  replace (Z.to_nat (Z.of_nat (length all) + 0 - Z.of_nat (length s)))
    with (length all - length s)%nat by lia.
  unfold s. now rewrite strip_trailing_zeros_split.
Qed.

(* ------------------------------------------------------------------ *)
(** ** The port *)

Lemma digit_classes (c : ascii) :
  is_digit c = true ->
  is_white_space c = false /\ Ascii.eqb c "I" = false /\
  Ascii.eqb c "x" || Ascii.eqb c "X" = false /\
  Ascii.eqb c "o" || Ascii.eqb c "O" = false /\
  Ascii.eqb c "b" || Ascii.eqb c "B" = false /\
  is_e c = false.
Proof.
  destruct c as [[] [] [] [] [] [] [] []]; intro H;
    try discriminate H; repeat split; reflexivity.
Qed.

Lemma drop_white_space_app (w l : list ascii) :
  forallb is_white_space w = true -> drop_white_space (w ++ l) = drop_white_space l.
Proof.
  induction w as [|c w IH]; [reflexivity|].
  cbn [forallb app drop_white_space]. intro H.
  apply andb_true_iff in H. destruct H as [-> H]. now apply IH.
Qed.

Lemma drop_white_space_solid (l r : list ascii) :
  forallb (fun c => negb (is_white_space c)) l = true -> l <> [] ->
  drop_white_space (l ++ r) = l ++ r.
Proof.
  destruct l as [|c l]; [congruence|]. cbn [forallb app drop_white_space].
  intros H _. apply andb_true_iff in H. destruct H as [H _].
  apply negb_true_iff in H. now rewrite H.
Qed.

(** Trimming removes the white space around a string that holds none. *)
Lemma trim_padded (w1 l w2 : list ascii) :
  forallb is_white_space w1 = true -> forallb is_white_space w2 = true ->
  forallb (fun c => negb (is_white_space c)) l = true -> l <> [] ->
  trim (w1 ++ l ++ w2) = l.
Proof.
  intros H1 H2 Hl Hne. unfold trim.
  rewrite (drop_white_space_app w1) by exact H1.
  rewrite (drop_white_space_solid l w2) by assumption.
  rewrite rev_app_distr, drop_white_space_app by now rewrite forallb_rev.
  rewrite <- (app_nil_r (rev l)), drop_white_space_solid, app_nil_r.
  - apply rev_involutive.
  - now rewrite forallb_rev.
  - intro E. apply Hne. rewrite <- (rev_involutive l), E. reflexivity.
Qed.

Lemma non_decimal_digits (l : list ascii) :
  forallb is_digit l = true -> non_decimal l = None.
Proof.
  destruct l as [|c [|p [|d r]]];
    [reflexivity
    | destruct c as [[] [] [] [] [] [] [] []]; reflexivity
    | destruct c as [[] [] [] [] [] [] [] []]; reflexivity
    | ].
  cbn [forallb]. intro H.
  apply andb_true_iff in H. destruct H as [_ H].
  apply andb_true_iff in H. destruct H as [Hp _].
  destruct (digit_classes p Hp) as (_ & _ & Hx & Ho & Hb & _).
  unfold non_decimal. rewrite Hx, Ho, Hb.
  destruct c as [[] [] [] [] [] [] [] []]; reflexivity.
Qed.

Lemma pow10_zero : pow10 0 = 1%Q.
Proof. reflexivity. Qed.

Lemma digits_solid (neg : bool) (ds : list ascii) :
  forallb is_digit ds = true ->
  forallb (fun c => negb (is_white_space c))
          ((if neg then ["-"%char] else []) ++ ds) = true.
Proof.
  intro H. rewrite forallb_app. apply andb_true_iff. split.
  - now destruct neg.
  - apply forallb_forall. intros c Hc.
    rewrite forallb_forall in H. destruct (digit_classes c (H c Hc)) as [-> _].
    reflexivity.
Qed.

Lemma StringToNumber_literal (s : string) (l : list ascii) :
  trim (list_ascii_of_string s) = l -> l <> [] ->
  StringToNumber s
  = match non_decimal l with
    | Some n => to_number (Qval (of_Z n))
    | None =>
        if String.eqb (string_of_list_ascii (snd (scan_sign l))) "Infinity"
        then Infinity (fst (scan_sign l))
        else match scan l with
             | Some n => if numeral_has_digit n then to_number (Qval (numeral_value n)) else NaN
             | None => NaN
             end
    end.
Proof.
  intros <- H. unfold StringToNumber.
  destruct (trim (list_ascii_of_string s)); [congruence | reflexivity].
Qed.

(** [Number] reads back the integers that [String] prints. *)
Lemma StringToNumber_integer (n : Z) (w1 w2 : list ascii) :
  n <> 0 -> Z.abs n < 2 ^ 53 ->
  forallb is_white_space w1 = true -> forallb is_white_space w2 = true ->
  StringToNumber (padded w1 (number_toString (of_Z n)) w2) = Finite (of_Z n).
Proof.
  intros Hn Hlt H1 H2.
  assert (Hlt' : Z.abs n < 10 ^ 21).
  { apply Z.lt_trans with (2 ^ 53); [exact Hlt | vm_compute; reflexivity]. }
  rewrite (number_toString_integer n Hn Hlt').
  destruct (digit_chars_spec (Z.abs n) ltac:(lia)) as (Hval & Hdig & _).
  set (ds := digit_chars (Z.abs n)) in *. clearbody ds.
  assert (Hcr : exists c r, ds = c :: r /\ is_digit c = true).
  { destruct ds as [|c r]; [cbn in Hval; lia|]. exists c, r. split; [reflexivity|].
    cbn [forallb] in Hdig. now apply andb_true_iff in Hdig. }
  destruct Hcr as (c & r & Eds & Hc).
  assert (Hds : ds <> []) by (rewrite Eds; discriminate).
  set (l := (if n <? 0 then ["-"%char] else []) ++ ds).
  assert (Hl : l <> []).
  { unfold l. destruct (n <? 0); [discriminate | exact Hds]. }
  assert (Htrim : trim (list_ascii_of_string (padded w1 (string_of_list_ascii l) w2)) = l).
  { unfold padded. rewrite !list_ascii_of_string_of_list_ascii.
    apply trim_padded; try assumption. now apply digits_solid. }
  rewrite (StringToNumber_literal _ l Htrim Hl).
  assert (Hnd : non_decimal l = None).
  { unfold l. destruct (n <? 0); [|now apply non_decimal_digits].
    rewrite Eds. destruct r as [|p [|d r']]; reflexivity. }
  assert (Hsg : scan_sign l = (n <? 0, ds)).
  { unfold l. rewrite Eds. now apply scan_sign_signed. }
  assert (Hinf : String.eqb (string_of_list_ascii ds) "Infinity" = false).
  { rewrite Eds. cbn [string_of_list_ascii String.eqb].
    destruct (digit_classes c Hc) as (_ & -> & _). reflexivity. }
  rewrite Hnd, Hsg. cbn [fst snd]. rewrite Hinf.
  unfold l. rewrite (scan_integer (n <? 0) ds Hdig Hds).
  unfold numeral_has_digit, numeral_value. cbn [nint nfrac nneg nexp length].
  rewrite app_nil_r, Hval.
  assert (Hne : nonempty ds = true) by now apply nonempty_true.
  rewrite Hne. cbn [orb]. rewrite <- (coef_signed n).
  now apply to_number_integer.
Qed.

(** X14: round trip of the port.  If [process.env.PORT] holds what
    [String(n)] prints for an integer [n] other than zero and of magnitude
    below [2 ^ 53], with any white space around it, then [PORT] is [n], and
    the server URL and the message logged on listening name it.  No range
    is checked: a negative [n] is passed on like any other. *)
Theorem X14_PORT_round_trip (n : Z) (w1 w2 : list ascii) :
  n <> 0 -> Z.abs n < 2 ^ 53 ->
  forallb is_white_space w1 = true -> forallb is_white_space w2 = true ->
  let env := Some (padded w1 (number_toString (of_Z n)) w2) in
  PORT env = Finite (of_Z n) /\
  server_url env = ("http://localhost:" ++ number_toString (of_Z n))%string /\
  listening_message env
  = ("Server is running on port " ++ number_toString (of_Z n))%string.
Proof.
  intros Hn Hlt H1 H2 env.
  assert (HP : PORT env = Finite (of_Z n)).
  { unfold PORT, env, Number_of.
    rewrite (StringToNumber_integer n w1 w2 Hn Hlt H1 H2).
    cbn [ToBoolean coef of_Z]. apply Z.eqb_neq in Hn. now rewrite Hn. }
  unfold server_url, listening_message. rewrite HP. now repeat split.
Qed.

Lemma X14_witness :
  let env := Some (padded [" "%char] "8080" [ascii_of_nat 10]) in
  PORT env = Finite (of_Z 8080) /\
  listening_message env = "Server is running on port 8080".
Proof.
  intro env.
  assert (Hn : 8080 <> 0) by discriminate.
  assert (Hlt : Z.abs 8080 < 2 ^ 53) by reflexivity.
  assert (H1 : forallb is_white_space [" "%char] = true) by reflexivity.
  assert (H2 : forallb is_white_space [ascii_of_nat 10] = true) by reflexivity.
  destruct (X14_PORT_round_trip 8080 [" "%char] [ascii_of_nat 10] Hn Hlt H1 H2)
    as (HP & _ & Hm).
  split; [exact HP | exact Hm].
Defined.

(** Beyond [2 ^ 53] the value of the variable is rounded. *)
Example PORT_rounded :
  PORT (Some "9007199254740993") = Finite (of_Z 9007199254740992).
Proof. vm_compute. reflexivity. Qed.

(* ------------------------------------------------------------------ *)
(** ** The default port *)

Lemma trim_blank (w : list ascii) : forallb is_white_space w = true -> trim w = [].
Proof.
  intro H. unfold trim.
  rewrite <- (app_nil_r w), (drop_white_space_app w []) by exact H. reflexivity.
Qed.

(** A string of zeros with white space around it reads as zero. *)
Lemma StringToNumber_zeros (k : nat) (w1 w2 : list ascii) :
  forallb is_white_space w1 = true -> forallb is_white_space w2 = true ->
  StringToNumber (padded w1 (string_of_list_ascii (repeat "0"%char k)) w2)
  = Finite (of_Z 0).
Proof.
  intros H1 H2. unfold padded. rewrite list_ascii_of_string_of_list_ascii.
  destruct k as [|k].
  - unfold StringToNumber. rewrite list_ascii_of_string_of_list_ascii.
    rewrite trim_blank; [reflexivity|].
    cbn [repeat app]. now rewrite forallb_app, H1, H2.
  - set (l := repeat "0"%char (S k)).
    assert (Hdig : forallb is_digit l = true) by (apply forallb_repeat; reflexivity).
    assert (Hl : l <> []) by discriminate.
    assert (Htrim : trim (list_ascii_of_string (string_of_list_ascii (w1 ++ l ++ w2))) = l).
    { rewrite list_ascii_of_string_of_list_ascii.
      apply trim_padded; try assumption. apply (digits_solid false l Hdig). }
    rewrite (StringToNumber_literal _ l Htrim Hl).
    rewrite (non_decimal_digits l Hdig).
    assert (Hsg : scan_sign l = (false, l)) by (apply scan_sign_digit; reflexivity).
    assert (Hinf : String.eqb (string_of_list_ascii l) "Infinity" = false) by reflexivity.
    rewrite Hsg. cbn [fst snd]. rewrite Hinf.
    change (scan l) with (scan ([] ++ l)).
    rewrite (scan_integer false l Hdig Hl).
    unfold numeral_has_digit, numeral_value. cbn [nint nfrac nneg nexp length].
    rewrite (nonempty_true l Hl), app_nil_r. cbn [orb].
    unfold l. rewrite digits_val_zeros. apply to_number_zero.
Qed.

Lemma literal_white_space (c : ascii) : is_white_space c = true -> literal_char c = true.
Proof. intro H. unfold literal_char. now rewrite H. Qed.

Lemma literal_digit (c : ascii) : is_digit c = true -> literal_char c = true.
Proof. intro H. unfold literal_char. rewrite H. now rewrite orb_true_r. Qed.

Lemma literal_drop_white_space (l : list ascii) :
  forallb literal_char (drop_white_space l) = forallb literal_char l.
Proof.
  induction l as [|c r IH]; [reflexivity|].
  cbn [drop_white_space]. destruct (is_white_space c) eqn:E; [|reflexivity].
  cbn [forallb]. now rewrite (literal_white_space c E), IH.
Qed.

Lemma forallb_rev_eq {A : Type} (f : A -> bool) (l : list A) :
  forallb f (rev l) = forallb f l.
Proof.
  induction l as [|x l IH]; [reflexivity|].
  cbn [rev forallb]. rewrite forallb_app, IH. cbn [forallb].
  rewrite andb_true_r. apply andb_comm.
Qed.

Lemma literal_trim (l : list ascii) :
  forallb literal_char (trim l) = forallb literal_char l.
Proof.
  unfold trim.
  now rewrite forallb_rev_eq, literal_drop_white_space, forallb_rev_eq,
    literal_drop_white_space.
Qed.

Lemma literal_scan_sign (l : list ascii) :
  forallb literal_char (snd (scan_sign l)) = true -> forallb literal_char l = true.
Proof.
  destruct l as [|c r]; [reflexivity|].
  destruct c as [[] [] [] [] [] [] [] []]; cbn [scan_sign snd]; try (intro H; exact H);
    intro H; cbn [forallb]; rewrite H; reflexivity.
Qed.

Lemma span_digits_spec (l : list ascii) :
  l = fst (span_digits l) ++ snd (span_digits l) /\
  forallb is_digit (fst (span_digits l)) = true.
Proof.
  induction l as [|c r [IH1 IH2]]; [now split|].
  cbn [span_digits]. destruct (is_digit c) eqn:E; [|now split].
  destruct (span_digits r) as [ds rest]. cbn [fst snd forallb app] in *.
  split; [now rewrite IH1 at 1 | now rewrite E].
Qed.

Lemma literal_digits (ds : list ascii) :
  forallb is_digit ds = true -> forallb literal_char ds = true.
Proof.
  intro H. apply forallb_forall. intros c Hc.
  rewrite forallb_forall in H. now apply literal_digit, H.
Qed.

Lemma literal_span_digits (l : list ascii) :
  forallb literal_char (snd (span_digits l)) = true -> forallb literal_char l = true.
Proof.
  intro H. destruct (span_digits_spec l) as [E Hd].
  rewrite E, forallb_app, H, (literal_digits _ Hd). reflexivity.
Qed.

Lemma literal_e (c : ascii) : is_e c = true -> literal_char c = true.
Proof.
  unfold is_e. intro H. apply orb_true_iff in H.
  destruct H as [H|H]; apply Ascii.eqb_eq in H; subst c; reflexivity.
Qed.

Lemma literal_scan_exp (l : list ascii) (x : option Z) :
  scan_exp l = Some x -> forallb literal_char l = true.
Proof.
  destruct l as [|c r]; [reflexivity|].
  unfold scan_exp. destruct (is_e c) eqn:E; [|discriminate].
  destruct (scan_sign r) as [neg r1] eqn:Es.
  destruct (span_digits r1) as [ds rest] eqn:Ed.
  destruct rest as [|c' rest]; [|rewrite andb_false_r; discriminate].
  intros _. cbn [forallb]. rewrite (literal_e c E). cbn [andb].
  apply literal_scan_sign. rewrite Es. cbn [snd].
  apply literal_span_digits. now rewrite Ed.
Qed.

(** Every character of a string that [scan] reads is a character of
    numerals. *)
Lemma literal_scan (l : list ascii) (n : numeral) :
  scan l = Some n -> forallb literal_char l = true.
Proof.
  unfold scan. intro H. apply literal_scan_sign.
  destruct (scan_sign l) as [neg r]. cbn [snd].
  apply literal_span_digits.
  destruct (span_digits r) as [i r1]. cbn [snd].
  assert (Hplain : forall y, scan_exp r1 = Some y -> forallb literal_char r1 = true)
    by (intro y; apply literal_scan_exp).
  destruct r1 as [|c r2]; [reflexivity|].
  destruct (Ascii.eqb c ".") eqn:Ec.
  - apply Ascii.eqb_eq in Ec. subst c.
    cbn [forallb]. change (literal_char ".") with true. cbn [andb].
    apply literal_span_digits.
    destruct (span_digits r2) as [f r3]. cbn [snd].
    destruct (scan_exp r3) as [e|] eqn:Ee; [|discriminate].
    now apply (literal_scan_exp r3 e).
  - assert (Hs : match scan_exp (c :: r2) with
                 | Some e => Some (mkNumeral neg i false [] e)
                 | None => None
                 end = Some n).
    { destruct c as [[] [] [] [] [] [] [] []]; try exact H. discriminate Ec. }
    destruct (scan_exp (c :: r2)) as [e|] eqn:Ee; [|discriminate].
    now apply (Hplain e).
Qed.

Lemma literal_hex (c : ascii) (d : Z) : hex_val c = Some d -> literal_char c = true.
Proof.
  destruct c as [[] [] [] [] [] [] [] []]; intro H;
    try discriminate H; reflexivity.
Qed.

Lemma literal_radix_val (radix : Z) (l : list ascii) :
  forall acc v, radix_val radix acc l = Some v -> forallb literal_char l = true.
Proof.
  induction l as [|c r IH]; intros acc v H; [reflexivity|].
  cbn [radix_val] in H.
  destruct (hex_val c) as [d|] eqn:E; [|discriminate].
  destruct (d <? radix); [|discriminate].
  cbn [forallb]. rewrite (literal_hex c d E). exact (IH _ _ H).
Qed.

Lemma literal_prefix (p : ascii) :
  Ascii.eqb p "x" || Ascii.eqb p "X" || (Ascii.eqb p "o" || Ascii.eqb p "O")
  || (Ascii.eqb p "b" || Ascii.eqb p "B") = true ->
  literal_char p = true.
Proof.
  destruct p as [[] [] [] [] [] [] [] []]; intro H;
    try discriminate H; reflexivity.
Qed.

Lemma literal_non_decimal (l : list ascii) (v : Z) :
  non_decimal l = Some v -> forallb literal_char l = true.
Proof.
  destruct l as [|c [|p [|d r]]];
    [discriminate
    | destruct c as [[] [] [] [] [] [] [] []]; discriminate
    | destruct c as [[] [] [] [] [] [] [] []]; discriminate
    | ].
  intro H.
  assert (Hc : c = "0"%char).
  { destruct c as [[] [] [] [] [] [] [] []]; try discriminate H. reflexivity. }
  subst c. unfold non_decimal in H.
  assert (Hr : exists radix, radix_val radix 0 (d :: r) = Some v /\
                             literal_char p = true).
  { destruct (Ascii.eqb p "x" || Ascii.eqb p "X") eqn:Ex.
    - exists 16. split; [exact H|]. apply literal_prefix. now rewrite Ex.
    - destruct (Ascii.eqb p "o" || Ascii.eqb p "O") eqn:Eo.
      + exists 8. split; [exact H|]. apply literal_prefix. rewrite Ex, Eo. reflexivity.
      + destruct (Ascii.eqb p "b" || Ascii.eqb p "B") eqn:Eb; [|discriminate].
        exists 2. split; [exact H|]. apply literal_prefix. rewrite Ex, Eo, Eb. reflexivity. }
  destruct Hr as (radix & Hv & Hp).
  cbn [forallb]. rewrite Hp. change (literal_char "0") with true. cbn [andb].
  exact (literal_radix_val radix (d :: r) 0 v Hv).
Qed.

(** A string that [Number] reads holds characters of numeric literals
    only. *)
Lemma StringToNumber_chars (s : string) :
  StringToNumber s <> NaN -> forallb literal_char (list_ascii_of_string s) = true.
Proof.
  intro H. rewrite <- literal_trim.
  destruct (trim (list_ascii_of_string s)) as [|c r] eqn:El; [reflexivity|].
  rewrite (StringToNumber_literal s (c :: r) El) in H by discriminate.
  destruct (non_decimal (c :: r)) as [v|] eqn:En;
    [exact (literal_non_decimal _ v En)|].
  destruct (String.eqb (string_of_list_ascii (snd (scan_sign (c :: r)))) "Infinity") eqn:Ei.
  - apply literal_scan_sign. apply String.eqb_eq in Ei.
    apply (f_equal list_ascii_of_string) in Ei.
    rewrite list_ascii_of_string_of_list_ascii in Ei. rewrite Ei. reflexivity.
  - destruct (scan (c :: r)) as [n|] eqn:Es; [|congruence].
    exact (literal_scan _ n Es).
Qed.

(** X15: the fallback to 3000.  [PORT] is 3000 when [process.env.PORT] is
    not set, when it is empty or holds only white space, when it holds
    zeros only (with or without white space around them), and when it
    holds a character that occurs in no numeric literal.  In every case
    [PORT] is neither [NaN] nor zero. *)
Theorem X15_PORT_default :
  PORT None = Finite (of_Z 3000) /\
  (forall (k : nat) (w1 w2 : list ascii),
     forallb is_white_space w1 = true -> forallb is_white_space w2 = true ->
     PORT (Some (padded w1 (string_of_list_ascii (repeat "0"%char k)) w2))
     = Finite (of_Z 3000)) /\
  (forall s : string,
     forallb literal_char (list_ascii_of_string s) = false ->
     PORT (Some s) = Finite (of_Z 3000)) /\
  (forall env : option string, ToBoolean (PORT env) = true).
Proof.
  split; [reflexivity|]. split; [|split].
  - intros k w1 w2 H1 H2. unfold PORT, Number_of.
    now rewrite (StringToNumber_zeros k w1 w2 H1 H2).
  - intros s H. unfold PORT, Number_of.
    destruct (StringToNumber s) eqn:E; try reflexivity;
      pose proof (StringToNumber_chars s) as Hc; rewrite E in Hc;
      rewrite Hc in H by discriminate; discriminate.
  - intro env. unfold PORT.
    destruct (ToBoolean (Number_of env)) eqn:E; [exact E | reflexivity].
Qed.

Lemma X15_witness :
  PORT (Some "") = Finite (of_Z 3000) /\
  PORT (Some (padded [" "%char] "0" [])) = Finite (of_Z 3000) /\
  PORT (Some "8080/tcp") = Finite (of_Z 3000) /\
  listening_message (Some "8080/tcp") = "Server is running on port 3000".
Proof.
  destruct X15_PORT_default as (_ & Hzeros & Hchars & _).
  assert (H0 : forallb is_white_space [] = true) by reflexivity.
  assert (H1 : forallb is_white_space [" "%char] = true) by reflexivity.
  assert (Hc : forallb literal_char (list_ascii_of_string "8080/tcp") = false)
    by reflexivity.
  split; [exact (Hzeros 0%nat [] [] H0 H0)|].
  split; [exact (Hzeros 1%nat [" "%char] [] H1 H0)|].
  pose proof (Hchars "8080/tcp" Hc) as HP.
  split; [exact HP|]. unfold listening_message. rewrite HP. reflexivity.
Defined.
